(** * export_db.py: backing a key-value store up into one JSON file

    The script under verification is eleven lines long:
<<
    data = {}
    for key in db.keys():
        data[key] = db[key]

    with open('database_backup.json', 'w') as f:
        json.dump(data, f, indent=4)

    print("Database has been backed up to database_backup.json")
>>
    It is embedded here together with the parts of its collaborators that
    decide what it does: the store ([db.keys()], [db[key]]), a file system
    holding the destination file, standard output, and the encoder behind
    [json.dump(..., indent=4)] (CPython's [json.encoder._make_iterencode],
    which [json.dump] drives chunk by chunk into [f.write]).

    Left outside: the binary64 arithmetic of floats (a finite float is kept
    as its [repr]), the encoding [open] picks for the text and its
    translation of line ends (the text written is ASCII), a write that fails
    on a file already opened, cyclic values, and a store that changes during
    the run (the script only reads it, and each read is a function of the
    key).  Left outside as well: the limits of the interpreter
    ([int.__repr__] raises [ValueError] past 4300 digits and the generators
    of the encoder [RecursionError] near the recursion limit; the theorems
    that say how a run ends are stated for the values [within_limits]), the
    permissions of the working directory, and links (a path names its own
    file and no other). *)

From Stdlib Require Import NArith ZArith Ascii String List Bool Decimal Lia.
From Stdlib Require Import DecimalN DecimalFacts.
From stdpp Require Import base option list strings gmap.

Local Open Scope N_scope.
Local Open Scope list_scope.

(** ** Python strings *)

(** A Python [str] is a sequence of code points.  The same type serves for
    store keys, string values, the chunks handed to [f.write] and the
    contents of a text file. *)
Definition pystr : Type := list N.

Definition ord (a : ascii) : N := N_of_ascii a.

(** [str] turns a literal of this file into a Python string. *)
Definition str (s : string) : pystr := map ord (list_ascii_of_string s).

(** [lit] does the same for readable JSON samples: an apostrophe stands for
    the double quote and a vertical bar for the line feed. *)
Definition lit (s : string) : pystr :=
  map (fun c => if c =? 39 then 34 else if c =? 124 then 10 else c) (str s).

(** ** Python values *)

(** A float is one of the three non-finite values or a finite double.  The
    binary64 arithmetic is outside this embedding: a finite double is kept as
    the text [float.__repr__] prints for it, which is all the encoder asks of
    it. *)
Inductive pyfloat : Type :=
| nan
| inf
| neg_inf
| finite (repr : pystr).

(** Dictionary keys: the five key types the encoder accepts, and any other
    hashable object (a tuple, a frozenset, ...). *)
Inductive pykey : Type :=
| KStr (s : pystr)
| KInt (n : Z)
| KFloat (f : pyfloat)
| KBool (b : bool)
| KNone
| KObject.

(** Values a store read can return.  [PyObject] stands for an instance of any
    class the encoder has no case for (set, bytes, a user class, ...).
    Dictionaries keep their items in insertion order, as Python's do. *)
Unset Elimination Schemes.
Inductive pyval : Type :=
| PyNone
| PyBool (b : bool)
| PyInt (n : Z)
| PyFloat (f : pyfloat)
| PyStr (s : pystr)
| PyList (lst : list pyval)
| PyTuple (lst : list pyval)
| PyDict (dct : list (pykey * pyval))
| PyObject.
Set Elimination Schemes.

(** The failures of the run, named as the specification names them:
    an exception raised by the store client is [StoreUnavailable], the
    [TypeError] of the encoder is [SerializationError], the [OSError] of
    [open] is [FilesystemError]. *)
Inductive failure : Type :=
| StoreUnavailable
| SerializationError
| FilesystemError.

(** ** The encoder of [json.dump(data, f, indent=4)] *)

Module Encoder.

(** [int.__repr__]: decimal digits, with a minus sign when negative. *)
Fixpoint uint_chars (d : uint) : pystr :=
  match d with
  | Nil => []
  | D0 d => 48 :: uint_chars d
  | D1 d => 49 :: uint_chars d
  | D2 d => 50 :: uint_chars d
  | D3 d => 51 :: uint_chars d
  | D4 d => 52 :: uint_chars d
  | D5 d => 53 :: uint_chars d
  | D6 d => 54 :: uint_chars d
  | D7 d => 55 :: uint_chars d
  | D8 d => 56 :: uint_chars d
  | D9 d => 57 :: uint_chars d
  end.

Definition intstr (n : Z) : pystr :=
  match n with
  | Z0 => [48]
  | Zpos p => uint_chars (Pos.to_uint p)
  | Zneg p => 45 :: uint_chars (Pos.to_uint p)
  end.

(** [floatstr] with [allow_nan=True], the default the script leaves in
    place: the non-finite values are written as JavaScript tokens. *)
Definition floatstr (o : pyfloat) : pystr :=
  match o with
  | nan => str "NaN"
  | inf => str "Infinity"
  | neg_inf => str "-Infinity"
  | finite repr => repr
  end.

(** ['{0:04x}'.format(n)] for [n < 0x10000]. *)
Definition hexdigit (d : N) : N := if d <? 10 then 48 + d else 87 + d.

Definition format_04x (n : N) : pystr :=
  [hexdigit (n / 4096 mod 16); hexdigit (n / 256 mod 16);
   hexdigit (n / 16 mod 16); hexdigit (n mod 16)].

Definition u_escape (n : N) : pystr := 92 :: 117 :: format_04x n.

(** The regular expression [ESCAPE_ASCII]: the characters that are replaced
    are the backslash, the double quote and everything outside the range
    from the space to the tilde. *)
Definition ESCAPE_ASCII (c : N) : bool :=
  (c =? 92) || (c =? 34) || negb ((32 <=? c) && (c <=? 126)).

(** [ESCAPE_DCT]: the seven short escapes, and [\u00XX] for the other
    control characters. *)
Definition ESCAPE_DCT (c : N) : option pystr :=
  if c =? 92 then Some [92; 92]
  else if c =? 34 then Some [92; 34]
  else if c =? 8 then Some [92; 98]
  else if c =? 12 then Some [92; 102]
  else if c =? 10 then Some [92; 110]
  else if c =? 13 then Some [92; 114]
  else if c =? 9 then Some [92; 116]
  else if c <? 32 then Some (u_escape c)
  else None.

(** The [replace] callback of [py_encode_basestring_ascii]. *)
Definition replace (c : N) : pystr :=
  match ESCAPE_DCT c with
  | Some e => e
  | None =>
      if c <? 65536 then u_escape c
      else
        let n := c - 65536 in
        let s1 := N.lor 55296 (N.land (N.shiftr n 10) 1023) in
        let s2 := N.lor 56320 (N.land n 1023) in
        u_escape s1 ++ u_escape s2
  end.

Definition escape_char (c : N) : pystr :=
  if ESCAPE_ASCII c then replace c else [c].

(** [encode_basestring_ascii] ([ensure_ascii=True] is the default). *)
Definition encoder (s : pystr) : pystr :=
  34 :: flat_map escape_char s ++ [34].

(** The key coercion at the head of the loop of [_iterencode_dict];
    [None] is the [TypeError] for a key of another type. *)
Definition key_text (k : pykey) : option pystr :=
  match k with
  | KStr s => Some s
  | KFloat f => Some (floatstr f)
  | KBool true => Some (str "true")
  | KBool false => Some (str "false")
  | KNone => Some (str "null")
  | KInt n => Some (intstr n)
  | KObject => None
  end.

(** The [isinstance] chain the three generators share for the values that
    are written as one token. *)
Definition atom (v : pyval) : option pystr :=
  match v with
  | PyStr s => Some (encoder s)
  | PyNone => Some (str "null")
  | PyBool true => Some (str "true")
  | PyBool false => Some (str "false")
  | PyInt n => Some (intstr n)
  | PyFloat f => Some (floatstr f)
  | _ => None
  end.

(** A generator run to its end: the chunks it yielded, and the exception
    that ended it, if one did. *)
Record gen : Type := Gen { chunks : list pystr; raised : option failure }.

Definition yield (c : pystr) : gen := Gen [c] None.
Definition stop : gen := Gen [] None.
Definition raise (e : failure) : gen := Gen [] (Some e).

Definition seq (g1 g2 : gen) : gen :=
  match raised g1 with
  | Some _ => g1
  | None => Gen (chunks g1 ++ chunks g2) (raised g2)
  end.

Notation "g1 ;> g2" := (seq g1 g2) (at level 65, right associativity).

(** [_indent = ' ' * 4]; [newline_indent = '\n' + _indent * level]. *)
Definition newline_indent (level : nat) : pystr :=
  10 :: repeat 32 (4 * level)%nat.

(** [_iterencode_list] and [_iterencode_dict] for [indent=4],
    [item_separator=','], [key_separator=': '], [sort_keys=False] and
    [skipkeys=False].  [rec] is [_iterencode], to which both hand the values
    that are not written as one token. *)
Section generators.
Variable rec : pyval -> nat -> gen.

(** The [for value in lst] loop; [lvl] is the level already incremented
    and [buf] the text pending before the next value. *)
Fixpoint list_loop (lvl : nat) (buf : pystr) (vs : list pyval) : gen :=
  match vs with
  | [] => stop
  | value :: vs' =>
      (match atom value with
       | Some t => yield (buf ++ t)
       | None => yield buf ;> rec value lvl
       end) ;>
      list_loop lvl (44 :: newline_indent lvl) vs'
  end.

Definition iterencode_list (lst : list pyval) (level : nat) : gen :=
  match lst with
  | [] => yield (str "[]")
  | _ =>
      list_loop (S level) (91 :: newline_indent (S level)) lst ;>
      yield (newline_indent level) ;>
      yield (str "]")
  end.

(** The [for key, value in items] loop. *)
Fixpoint dict_loop (lvl : nat) (first : bool) (items : list (pykey * pyval))
  : gen :=
  match items with
  | [] => stop
  | (key, value) :: items' =>
      match key_text key with
      | None => raise SerializationError
      | Some k =>
          (if first then stop else yield (44 :: newline_indent lvl)) ;>
          yield (encoder k) ;>
          yield (str ": ") ;>
          (match atom value with
           | Some t => yield t
           | None => rec value lvl
           end) ;>
          dict_loop lvl false items'
      end
  end.

Definition iterencode_dict (dct : list (pykey * pyval)) (level : nat) : gen :=
  match dct with
  | [] => yield (str "{}")
  | _ =>
      yield (str "{") ;>
      yield (newline_indent (S level)) ;>
      dict_loop (S level) true dct ;>
      yield (newline_indent level) ;>
      yield (str "}")
  end.
End generators.

(** [_iterencode], with the default [default], which raises [TypeError].
    The values are trees, so the circular-reference markers never fire. *)
Fixpoint iterencode (o : pyval) (level : nat) {struct o} : gen :=
  match o with
  | PyList lst | PyTuple lst => iterencode_list iterencode lst level
  | PyDict dct => iterencode_dict iterencode dct level
  | PyObject => raise SerializationError
  | _ =>
      match atom o with
      | Some t => yield t
      | None => raise SerializationError
      end
  end.

(** The text a run of the generator leaves in the file. *)
Definition written (g : gen) : pystr := concat (chunks g).

End Encoder.

(** ** The world the script runs in *)

(** What a path of the working directory can name.  [open(path, 'w')]
    creates a missing file, truncates a regular one, and fails with an
    [OSError] on a read-only file or a directory. *)
Inductive node : Type :=
| RegularFile (content : pystr)
| ReadOnlyFile (content : pystr)
| Directory.

Record world : Type := World {
  files : gmap string node;      (* the working directory *)
  handles : nat;                 (* file objects currently open *)
  stdout : list pystr            (* the lines printed so far *)
}.

(** The store client [db] of the [replit] package, reduced to the two calls
    the script makes: the keys in the order the iteration yields them, and
    the value under a key.  [None] is a call that raises. *)
Record store : Type := Store {
  keys : option (list pystr);          (* db.keys() *)
  getitem : pystr -> option pyval      (* db[key] *)
}.

(** Statements: a state transformer that ends normally or with an exception.
    The world reached is kept in both cases. *)
Definition prog (A : Type) : Type := world -> world * (failure + A).

#[global] Instance prog_ret : MRet prog := fun A x w => (w, inr x).
#[global] Instance prog_bind : MBind prog := fun A B f m w =>
  match m w with
  | (w', inl e) => (w', inl e)
  | (w', inr x) => f x w'
  end.

Definition throw {A : Type} (e : failure) : prog A := fun w => (w, inl e).

Definition lift {A : Type} (r : failure + A) : prog A := fun w => (w, r).

(** ** The export mapping *)

(** [data]: a Python dict with string keys, in insertion order. *)
Definition dict : Type := list (pystr * pyval).

(** [data[key] = value]: an existing key keeps its place and takes the new
    value, a new key goes to the end. *)
Fixpoint setitem (data : dict) (key : pystr) (value : pyval) : dict :=
  match data with
  | [] => [(key, value)]
  | (k, v) :: rest =>
      if decide (k = key) then (k, value) :: rest
      else (k, v) :: setitem rest key value
  end.

(** The body of the [for] loop, over the keys still to come. *)
Fixpoint accumulate (db : store) (ks : list pystr) (data : dict)
  : failure + dict :=
  match ks with
  | [] => inr data
  | key :: ks' =>
      match getitem db key with
      | None => inl StoreUnavailable
      | Some value => accumulate db ks' (setitem data key value)
      end
  end.

(** Lines 5 to 7. *)
Definition build (db : store) : failure + dict :=
  match keys db with
  | None => inl StoreUnavailable
  | Some ks => accumulate db ks []
  end.

(** The dict as the encoder sees it. *)
Definition as_pyval (data : dict) : pyval :=
  PyDict (map (fun kv => (KStr (fst kv), snd kv)) data).

(** ** Files and standard output *)

Definition open_w (path : string) : prog string := fun w =>
  match files w !! path with
  | Some (ReadOnlyFile _) | Some Directory => (w, inl FilesystemError)
  | Some (RegularFile _) | None =>
      (World (<[path := RegularFile []]> (files w)) (S (handles w)) (stdout w),
       inr path)
  end.

(** [f.write(chunk)] appends to the file behind the handle. *)
Definition write (f : string) (chunk : pystr) : prog unit := fun w =>
  match files w !! f with
  | Some (RegularFile content) =>
      (World (<[f := RegularFile (content ++ chunk)]> (files w))
             (handles w) (stdout w), inr tt)
  | _ => (w, inl FilesystemError)
  end.

Definition close (f : string) (w : world) : world :=
  World (files w) (pred (handles w)) (stdout w).

(** [with open(path, 'w') as f: body]: the handle is closed however the
    body ends, and what the body raised is raised again. *)
Definition with_open (path : string) (body : string -> prog unit)
  : prog unit := fun w =>
  match open_w path w with
  | (w1, inl e) => (w1, inl e)
  | (w1, inr f) => let (w2, r) := body f w1 in (close f w2, r)
  end.

Definition print (line : pystr) : prog unit := fun w =>
  (World (files w) (handles w) (stdout w ++ [line]), inr tt).

(** [for chunk in iterable: fp.write(chunk)]. *)
Fixpoint write_all (f : string) (cs : list pystr) : prog unit :=
  match cs with
  | [] => mret tt
  | c :: cs' => write f c ≫= fun _ => write_all f cs'
  end.

(** [json.dump(obj, fp, indent=4)]: the chunks reach the file as the
    generator yields them, and an exception of the generator leaves what was
    written before it. *)
Definition json_dump (obj : pyval) (fp : string) : prog unit :=
  let g := Encoder.iterencode obj 0 in
  write_all fp (Encoder.chunks g) ≫= fun _ =>
  match Encoder.raised g with
  | Some e => throw e
  | None => mret tt
  end.

Definition destination : string := "database_backup.json".

Definition notice : pystr :=
  str "Database has been backed up to database_backup.json".

(** The script. *)
Definition export_db (db : store) : prog unit :=
  lift (build db) ≫= fun data =>
  with_open destination (json_dump (as_pyval data)) ≫= fun _ =>
  print notice.

(** What the destination holds, when it is a regular file. *)
Definition backup (w : world) : option pystr :=
  match files w !! destination with
  | Some (RegularFile content) => Some content
  | _ => None
  end.

Definition fresh : world := World ∅ 0 [].

Definition sample : store :=
  Store (Some [str "score"; str "name"; str "tags"])
        (fun k => if decide (k = str "score") then Some (PyInt 42)
                  else if decide (k = str "name")
                       then Some (PyStr (str "alice"))
                  else if decide (k = str "tags")
                       then Some (PyList [PyStr (str "a"); PyStr (str "b")])
                  else None).

(** ** Reading JSON back *)

(** The yardstick for what the file holds: a reader for the JSON grammar of
    RFC 8259 over ASCII texts, returning the Python value [json.loads] builds
    (an object as a dict with string keys in textual order, an array as a
    list, a number without fraction and exponent as an int, any other number
    as the float written that way).  It accepts no [NaN] and no [Infinity]:
    these are not JSON. *)
Module Json.

Definition is_ws (c : N) : bool :=
  (c =? 32) || (c =? 10) || (c =? 13) || (c =? 9).

Fixpoint skip_ws (s : pystr) : pystr :=
  match s with
  | c :: s' => if is_ws c then skip_ws s' else s
  | [] => []
  end.

Definition is_digit (c : N) : bool := (48 <=? c) && (c <=? 57).

(** The longest run of digits at the head of [s], and what follows it. *)
Fixpoint digits (s : pystr) : pystr * pystr :=
  match s with
  | c :: s' =>
      if is_digit c then let (ds, r) := digits s' in (c :: ds, r) else ([], s)
  | [] => ([], [])
  end.

Definition digit_value (c : N) : N := c - 48.

Definition decimal (ds : pystr) : N :=
  fold_left (fun acc c => 10 * acc + digit_value c) ds 0.

(** [int = zero / ( digit1-9 *DIGIT )]. *)
Definition int_part_ok (ds : pystr) : bool :=
  match ds with
  | [] => false
  | [c] => true
  | c :: _ => negb (c =? 48)
  end.

(** [frac = decimal-point 1*DIGIT], optional. *)
Definition frac (s : pystr) : option (pystr * pystr) :=
  match s with
  | c :: s' =>
      if c =? 46 then
        let (ds, r) := digits s' in
        match ds with [] => None | _ => Some (c :: ds, r) end
      else Some ([], s)
  | [] => Some ([], [])
  end.

(** [exp = e [ minus / plus ] 1*DIGIT], optional. *)
Definition exp (s : pystr) : option (pystr * pystr) :=
  match s with
  | c :: s' =>
      if (c =? 101) || (c =? 69) then
        let (sign, s'') :=
          match s' with
          | d :: t => if (d =? 43) || (d =? 45) then ([d], t) else ([], s')
          | [] => ([], [])
          end in
        let (ds, r) := digits s'' in
        match ds with [] => None | _ => Some (c :: sign ++ ds, r) end
      else Some ([], s)
  | [] => Some ([], [])
  end.

(** [int [ frac ] [ exp ]], after the sign. *)
Definition unsigned (minus : bool) (s1 : pystr) : option (pyval * pystr) :=
  let (ip, s2) := digits s1 in
  if int_part_ok ip then
    match frac s2 with
    | None => None
    | Some (fr, s3) =>
        match exp s3 with
        | None => None
        | Some (ex, s4) =>
            match fr, ex with
            | [], [] =>
                let n := Z.of_N (decimal ip) in
                Some (PyInt (if minus then (- n)%Z else n), s4)
            | _, _ =>
                Some (PyFloat (finite ((if minus then [45] else []) ++
                                       ip ++ fr ++ ex)), s4)
            end
        end
    end
  else None.

(** [number = [ minus ] int [ frac ] [ exp ]]. *)
Definition number (s : pystr) : option (pyval * pystr) :=
  match s with
  | c :: s' => if c =? 45 then unsigned true s' else unsigned false s
  | [] => None
  end.

Definition hex_value (c : N) : option N :=
  if is_digit c then Some (c - 48)
  else if (97 <=? c) && (c <=? 102) then Some (c - 87)
  else if (65 <=? c) && (c <=? 70) then Some (c - 55)
  else None.

Definition hex4 (h1 h2 h3 h4 : N) : option N :=
  match hex_value h1, hex_value h2, hex_value h3, hex_value h4 with
  | Some a, Some b, Some c, Some d => Some (4096 * a + 256 * b + 16 * c + d)
  | _, _, _, _ => None
  end.

Definition is_high (n : N) : bool := (55296 <=? n) && (n <=? 56319).
Definition is_low (n : N) : bool := (56320 <=? n) && (n <=? 57343).

(** The two-character escapes. *)
Definition simple_escape (e : N) : option N :=
  if e =? 34 then Some 34
  else if e =? 92 then Some 92
  else if e =? 47 then Some 47
  else if e =? 98 then Some 8
  else if e =? 102 then Some 12
  else if e =? 110 then Some 10
  else if e =? 114 then Some 13
  else if e =? 116 then Some 9
  else None.

Definition push (c : N) (r : option (pystr * pystr)) : option (pystr * pystr) :=
  match r with
  | Some (cs, rest) => Some (c :: cs, rest)
  | None => None
  end.

(** A string after its opening quote: the code points it denotes and what
    follows the closing quote.  An escaped surrogate pair denotes one code
    point. *)
Fixpoint string_body (s : pystr) : option (pystr * pystr) :=
  match s with
  | [] => None
  | c :: s1 =>
      if c =? 34 then Some ([], s1)
      else if c =? 92 then
        match s1 with
        | [] => None
        | e :: s2 =>
            if e =? 117 then
              match s2 with
              | h1 :: h2 :: h3 :: h4 :: s3 =>
                  match hex4 h1 h2 h3 h4 with
                  | None => None
                  | Some hi =>
                      let single := push hi (string_body s3) in
                      if is_high hi then
                        match s3 with
                        | b :: u :: l1 :: l2 :: l3 :: l4 :: s5 =>
                            if (b =? 92) && (u =? 117) then
                              match hex4 l1 l2 l3 l4 with
                              | Some lo =>
                                  if is_low lo then
                                    push (65536 + (hi - 55296) * 1024
                                          + (lo - 56320))
                                         (string_body s5)
                                  else single
                              | None => single
                              end
                            else single
                        | _ => single
                        end
                      else single
                  end
              | _ => None
              end
            else
              match simple_escape e with
              | Some c' => push c' (string_body s2)
              | None => None
              end
        end
      else if (32 <=? c) && (c <=? 127) then push c (string_body s1)
      else None
  end.

(** [expect t s]: [s] without its prefix [t]. *)
Fixpoint expect (t s : pystr) : option pystr :=
  match t, s with
  | [], _ => Some s
  | a :: t', b :: s' => if a =? b then expect t' s' else None
  | _ :: _, [] => None
  end.

(** [value], [elements] (the values of an array after its bracket) and
    [members] (the members of an object after its brace), by recursive
    descent; [fuel] bounds the depth of the descent. *)
Fixpoint value (fuel : nat) (s : pystr) : option (pyval * pystr) :=
  match fuel with
  | O => None
  | S fuel' =>
      match s with
      | [] => None
      | c :: s1 =>
          if c =? 123 then
            match expect [125] (skip_ws s1) with
            | Some rest => Some (PyDict [], rest)
            | None =>
                match members fuel' (skip_ws s1) with
                | Some (ms, rest) => Some (PyDict ms, rest)
                | None => None
                end
            end
          else if c =? 91 then
            match expect [93] (skip_ws s1) with
            | Some rest => Some (PyList [], rest)
            | None =>
                match elements fuel' (skip_ws s1) with
                | Some (vs, rest) => Some (PyList vs, rest)
                | None => None
                end
            end
          else if c =? 34 then
            match string_body s1 with
            | Some (cs, rest) => Some (PyStr cs, rest)
            | None => None
            end
          else if c =? 110 then
            match expect (str "ull") s1 with
            | Some rest => Some (PyNone, rest)
            | None => None
            end
          else if c =? 116 then
            match expect (str "rue") s1 with
            | Some rest => Some (PyBool true, rest)
            | None => None
            end
          else if c =? 102 then
            match expect (str "alse") s1 with
            | Some rest => Some (PyBool false, rest)
            | None => None
            end
          else number s
      end
  end
with elements (fuel : nat) (s : pystr) : option (list pyval * pystr) :=
  match fuel with
  | O => None
  | S fuel' =>
      match value fuel' s with
      | None => None
      | Some (v, s1) =>
          match skip_ws s1 with
          | [] => None
          | c :: s2 =>
              if c =? 93 then Some ([v], s2)
              else if c =? 44 then
                match elements fuel' (skip_ws s2) with
                | Some (vs, rest) => Some (v :: vs, rest)
                | None => None
                end
              else None
          end
      end
  end
with members (fuel : nat) (s : pystr)
  : option (list (pykey * pyval) * pystr) :=
  match fuel with
  | O => None
  | S fuel' =>
      match expect [34] s with
      | None => None
      | Some s1 =>
          match string_body s1 with
          | None => None
          | Some (k, s2) =>
              match expect [58] (skip_ws s2) with
              | None => None
              | Some s3 =>
                  match value fuel' (skip_ws s3) with
                  | None => None
                  | Some (v, s4) =>
                      match skip_ws s4 with
                      | [] => None
                      | c :: s5 =>
                          if c =? 125 then Some ([(KStr k, v)], s5)
                          else if c =? 44 then
                            match members fuel' (skip_ws s5) with
                            | Some (ms, rest) => Some ((KStr k, v) :: ms, rest)
                            | None => None
                            end
                          else None
                      end
                  end
              end
          end
      end
  end.

(** A JSON text: one value between optional white space, and nothing else. *)
Definition loads (s : pystr) : option pyval :=
  match value (S (length s)) (skip_ws s) with
  | Some (v, rest) =>
      match skip_ws rest with
      | [] => Some v
      | _ => None
      end
  | None => None
  end.

End Json.

(** ** Induction on values *)

Section pyval_induction.
Variable P : pyval -> Prop.
Hypothesis HNone : P PyNone.
Hypothesis HBool : forall b, P (PyBool b).
Hypothesis HInt : forall n, P (PyInt n).
Hypothesis HFloat : forall f, P (PyFloat f).
Hypothesis HStr : forall s, P (PyStr s).
Hypothesis HList : forall lst, Forall P lst -> P (PyList lst).
Hypothesis HTuple : forall lst, Forall P lst -> P (PyTuple lst).
Hypothesis HDict :
  forall dct, Forall (fun kv => P (snd kv)) dct -> P (PyDict dct).
Hypothesis HObject : P PyObject.

Fixpoint pyval_ind (v : pyval) : P v :=
  match v with
  | PyNone => HNone
  | PyBool b => HBool b
  | PyInt n => HInt n
  | PyFloat f => HFloat f
  | PyStr s => HStr s
  | PyList lst =>
      HList lst
        ((fix all (l : list pyval) : Forall P l :=
            match l with
            | [] => List.Forall_nil P
            | x :: l' => List.Forall_cons P x l' (pyval_ind x) (all l')
            end) lst)
  | PyTuple lst =>
      HTuple lst
        ((fix all (l : list pyval) : Forall P l :=
            match l with
            | [] => List.Forall_nil P
            | x :: l' => List.Forall_cons P x l' (pyval_ind x) (all l')
            end) lst)
  | PyDict dct =>
      HDict dct
        ((fix all (l : list (pykey * pyval))
            : Forall (fun kv => P (snd kv)) l :=
            match l with
            | [] => List.Forall_nil _
            | kv :: l' =>
                List.Forall_cons (fun kv => P (snd kv)) kv l'
                  (pyval_ind (snd kv)) (all l')
            end) dct)
  | PyObject => HObject
  end.
End pyval_induction.

(** ** What the encoder accepts *)

Definition key_ok (k : pykey) : bool :=
  match k with
  | KObject => false
  | _ => true
  end.

(** [encodable v]: every object in [v] has a type the encoder has a case
    for, and every dictionary key one of the five key types. *)
Fixpoint encodable (v : pyval) : bool :=
  match v with
  | PyList lst | PyTuple lst => forallb encodable lst
  | PyDict dct => forallb (fun kv => key_ok (fst kv) && encodable (snd kv)) dct
  | PyObject => false
  | _ => true
  end.

(** What the generator ends with. *)
Definition verdict (ok : bool) : option failure :=
  if ok then None else Some SerializationError.

(** ** The export mapping, as built by the loop *)

Definition keys_of (data : dict) : list pystr := map fst data.

(** [data[key]], when the key is there. *)
Fixpoint lookup_key (data : dict) (key : pystr) : option pyval :=
  match data with
  | [] => None
  | (k, v) :: rest => if decide (k = key) then Some v else lookup_key rest key
  end.

(** The order in which a sequence of keys enters a dict: each key at its
    first occurrence. *)
Definition enter (acc : list pystr) (key : pystr) : list pystr :=
  if decide (key ∈ acc) then acc else acc ++ [key].

Definition first_occurrences (ks : list pystr) : list pystr :=
  fold_left enter ks [].

(** ** Runs of the script *)

(** [open(destination, 'w')] succeeds. *)
Definition writable (w : world) : bool :=
  match files w !! destination with
  | Some (ReadOnlyFile _) | Some Directory => false
  | Some (RegularFile _) | None => true
  end.

(** The world after a dump whose generator ran as [g]: the destination holds
    what [g] yielded, whatever it held before. *)
Definition dumped (w : world) (g : Encoder.gen) : world :=
  World (<[destination := RegularFile (Encoder.written g)]> (files w))
        (handles w) (stdout w).

Definition printed (w : world) : world :=
  World (files w) (handles w) (stdout w ++ [notice]).

(** ** The reader on what the encoder writes *)

(** A character that can continue a number. *)
Definition number_char (c : N) : bool :=
  Json.is_digit c || (c =? 46) || (c =? 101) || (c =? 69) || (c =? 43)
  || (c =? 45).

(** [rest] cannot continue a number written before it. *)
Definition delimited (rest : pystr) : bool :=
  match rest with
  | [] => true
  | c :: _ => negb (number_char c)
  end.

(** A Unicode scalar value: a code point that is not a surrogate. *)
Definition scalar_value (c : N) : bool :=
  (c <? 55296) || ((57343 <? c) && (c <? 1114112)).

(** A string of Unicode scalar values, the strings a UTF-8 text can hold. *)
Definition unicode (s : pystr) : bool := forallb scalar_value s.

(** Any Python string: its code points are below 0x110000, surrogates
    included. *)
Definition codepoint (c : N) : bool := c <? 1114112.

Definition codepoints (s : pystr) : bool := forallb codepoint s.

(** What a string reads back as once written with escapes: a high surrogate
    followed by a low one comes back as the one code point the pair stands
    for in JSON. *)
Fixpoint merge_surrogates (s : pystr) : pystr :=
  match s with
  | [] => []
  | hi :: rest =>
      match rest with
      | lo :: rest' =>
          if Json.is_high hi && Json.is_low lo
          then (65536 + (hi - 55296) * 1024 + (lo - 56320))
                 :: merge_surrogates rest'
          else hi :: merge_surrogates rest
      | [] => [hi]
      end
  end.

(** ** JSON-representable values *)

(** The text of a finite float is a JSON number with a fraction or an
    exponent, as [float.__repr__] always prints. *)
Definition float_literal (r : pystr) : bool :=
  match Json.number r with
  | Some (PyFloat (finite t), []) => bool_decide (t = r)
  | _ => false
  end.

Definition json_float (f : pyfloat) : bool :=
  match f with
  | finite r => float_literal r
  | _ => false
  end.

Definition json_key (k : pykey) : bool :=
  match k with
  | KStr s => unicode s
  | _ => false
  end.

(** The six kinds of JSON value the specification lists: null, boolean,
    number, string, array, and object with string keys. *)
Fixpoint json_value (v : pyval) : bool :=
  match v with
  | PyNone | PyBool _ | PyInt _ => true
  | PyFloat f => json_float f
  | PyStr s => unicode s
  | PyList lst => forallb json_value lst
  | PyDict dct =>
      forallb (fun kv => json_key (fst kv) && json_value (snd kv)) dct
  | PyTuple _ | PyObject => false
  end.

(** Well-formed Python values: the elements of a string are code points and
    a finite float carries the text of a float.  Nothing else is asked:
    surrogates, tuples, keys that are not strings, non-finite floats and
    foreign objects are all well-formed. *)
Definition float_wf (f : pyfloat) : bool :=
  match f with
  | finite r => float_literal r
  | _ => true
  end.

Definition key_wf (k : pykey) : bool :=
  match k with
  | KStr s => codepoints s
  | KFloat f => float_wf f
  | _ => true
  end.

Fixpoint wellformed (v : pyval) : bool :=
  match v with
  | PyFloat f => float_wf f
  | PyStr s => codepoints s
  | PyList lst | PyTuple lst => forallb wellformed lst
  | PyDict dct => forallb (fun kv => key_wf (fst kv) && wellformed (snd kv)) dct
  | _ => true
  end.

(** No [nan], [inf] or [-inf] among the values (as a dictionary key such a
    float is written inside a string and does no harm). *)
Fixpoint finite_floats (v : pyval) : bool :=
  match v with
  | PyFloat (finite _) => true
  | PyFloat _ => false
  | PyList lst | PyTuple lst => forallb finite_floats lst
  | PyDict dct => forallb (fun kv => finite_floats (snd kv)) dct
  | _ => true
  end.

(** The JSON value an encodable Python value is written as, seen as
    [json.loads] returns it: tuples become lists, keys strings, and
    surrogate pairs single code points. *)
Definition norm_key (k : pykey) : pykey :=
  match Encoder.key_text k with
  | Some t => KStr (merge_surrogates t)
  | None => k
  end.

Fixpoint norm (v : pyval) : pyval :=
  match v with
  | PyStr s => PyStr (merge_surrogates s)
  | PyList lst | PyTuple lst => PyList (map norm lst)
  | PyDict dct =>
      PyDict (map (fun kv => (norm_key (fst kv), norm (snd kv))) dct)
  | _ => v
  end.

(** The values the encoder writes as JSON. *)
Definition jsonable (v : pyval) : bool :=
  wellformed v && encodable v && finite_floats v.

(** The characters a JSON value can start with. *)
Definition value_start (c : N) : bool :=
  (c =? 123) || (c =? 91) || (c =? 34) || (c =? 110) || (c =? 116)
  || (c =? 102) || (c =? 45) || Json.is_digit c.

(** ** The shape of the text *)

(** ASCII text: the same bytes in UTF-8 and in every encoding [open] can
    pick that extends ASCII. *)
Definition ascii_text (s : pystr) : bool := forallb (fun c => c <? 128) s.

Definition opening (c : N) : bool := (c =? 123) || (c =? 91).
Definition closing (c : N) : bool := (c =? 125) || (c =? 93).

Fixpoint leading_spaces (s : pystr) : nat :=
  match s with
  | c :: s' => if c =? 32 then S (leading_spaces s') else O
  | [] => O
  end.

Fixpoint after_spaces (s : pystr) : option N :=
  match s with
  | c :: s' => if c =? 32 then after_spaces s' else Some c
  | [] => None
  end.

(** A line begun at nesting depth [depth] is indented by four spaces a
    level; the line of a closing bracket belongs to the level it closes. *)
Definition line_ok (depth : nat) (line : pystr) : bool :=
  match after_spaces line with
  | Some c =>
      Nat.eqb (leading_spaces line)
              (4 * (if closing c then pred depth else depth))
  | None => Nat.eqb (leading_spaces line) 0
  end.

Definition breaks (s : pystr) : bool :=
  match s with
  | c :: _ => c =? 10
  | [] => false
  end.

Definition breaks_or_closes (s : pystr) : bool :=
  match s with
  | c :: _ => (c =? 10) || closing c
  | [] => false
  end.

Inductive mode : Type := Code | InString | Escaped.

(** The layout of [indent=4]: outside string literals, every opening
    bracket is followed by a line break unless it is closed at once, every
    comma is followed by a line break, and every line is indented by four
    spaces for each bracket open at its start. *)
Fixpoint indented (m : mode) (depth : nat) (s : pystr) : bool :=
  match s with
  | [] => true
  | c :: s' =>
      match m with
      | Escaped => indented InString depth s'
      | InString =>
          if c =? 92 then indented Escaped depth s'
          else if c =? 34 then indented Code depth s'
          else indented InString depth s'
      | Code =>
          if c =? 34 then indented InString depth s'
          else if opening c then
            breaks_or_closes s' && indented Code (S depth) s'
          else if closing c then indented Code (pred depth) s'
          else if c =? 44 then breaks s' && indented Code depth s'
          else if c =? 10 then line_ok depth s' && indented Code depth s'
          else indented Code depth s'
      end
  end.

Definition indent4 (s : pystr) : bool := indented Code 0 s.

(** A character with no part in the layout. *)
Definition plain (c : N) : bool :=
  negb ((c =? 34) || opening c || closing c || (c =? 44) || (c =? 10)
        || (c =? 32)).

(** ** Stores, and the object found in the file *)

(** Every enumerated key can be read. *)
Definition readable (db : store) (ks : list pystr) : Prop :=
  forall k, k ∈ ks -> is_Some (getitem db k).

(** Every value read under an enumerated key satisfies [P]. *)
Definition values_are (P : pyval -> bool) (db : store) (ks : list pystr)
  : Prop :=
  forall k v, k ∈ ks -> getitem db k = Some v -> P v = true.

Definition names_are (P : pystr -> bool) (ks : list pystr) : Prop :=
  forall k, k ∈ ks -> P k = true.

(** The value under a name in the members of a JSON object. *)
Fixpoint member (items : list (pykey * pyval)) (name : pystr)
  : option pyval :=
  match items with
  | [] => None
  | (KStr k, v) :: rest =>
      if decide (k = name) then Some v else member rest name
  | _ :: rest => member rest name
  end.

(** The members [json.loads] finds for a mapping. *)
Definition members_of (data : dict) : list (pykey * pyval) :=
  map (fun kv => (KStr (merge_surrogates (fst kv)), norm (snd kv))) data.

Definition unreachable : store := Store None (fun _ => None).

Definition flaky : store :=
  Store (Some [str "a"; str "b"])
        (fun k => if decide (k = str "a") then Some (PyInt 1) else None).

Definition broken : store :=
  Store (Some [str "a"; str "b"])
        (fun k => if decide (k = str "a") then Some (PyInt 1)
                  else if decide (k = str "b") then Some PyObject
                  else None).

Definition not_a_number : store :=
  Store (Some [str "x"])
        (fun k => if decide (k = str "x") then Some (PyFloat nan) else None).

Definition empty : store := Store (Some []) (fun _ => None).

(** ** The limits of the interpreter *)

(** [int.__repr__], which the encoder calls for an integer value or key,
    raises [ValueError] when the integer has more than
    [sys.int_max_str_digits] decimal digits, 4300 by default; and the
    generators of the encoder, one frame for each level of nesting, raise
    [RecursionError] near the recursion limit, 1000 frames by default.  The
    encoder above has neither limit.  It is the encoder of the script for
    the values below: no integer of more than 4300 digits, and at most 900
    levels of lists and dictionaries, which leaves the frames of the script
    and of [json.dump] a wide margin. *)
Definition max_str_digits : nat := 4300.

Definition max_depth : nat := 900.

Definition int_within (n : Z) : bool :=
  (length (Encoder.intstr (Z.abs n)) <=? max_str_digits)%nat.

Definition key_within (k : pykey) : bool :=
  match k with
  | KInt n => int_within n
  | _ => true
  end.

Fixpoint ints_within (v : pyval) : bool :=
  match v with
  | PyInt n => int_within n
  | PyList lst | PyTuple lst => forallb ints_within lst
  | PyDict dct =>
      forallb (fun kv => key_within (fst kv) && ints_within (snd kv)) dct
  | _ => true
  end.

(** The levels of lists and dictionaries in a value. *)
Fixpoint depth (v : pyval) : nat :=
  match v with
  | PyList lst | PyTuple lst =>
      S (fold_right (fun x d => Nat.max (depth x) d) 0%nat lst)
  | PyDict dct =>
      S (fold_right (fun kv d => Nat.max (depth (snd kv)) d) 0%nat dct)
  | _ => 0%nat
  end.

Definition within_limits (v : pyval) : bool :=
  ints_within v && (depth v <=? max_depth)%nat.

(** A store of values that are not containers: an integer, a string, a
    finite float, a boolean and [None]. *)
Definition scalars : store :=
  Store (Some [str "score"; str "name"; str "ratio"; str "active";
               str "note"])
        (fun k => if decide (k = str "score") then Some (PyInt 42)
                  else if decide (k = str "name")
                       then Some (PyStr (str "alice"))
                  else if decide (k = str "ratio")
                       then Some (PyFloat (finite (str "0.5")))
                  else if decide (k = str "active")
                       then Some (PyBool true)
                  else if decide (k = str "note") then Some PyNone
                  else None).

(** A store with two keys that are written alike: the two surrogates
    U+D83D U+DE00, and the one code point U+1F600 they stand for as a
    pair. *)
Definition paired : store :=
  Store (Some [[55357; 56832]; [128512]])
        (fun k => if decide (k = [55357; 56832]) then Some (PyInt 1)
                  else if decide (k = [128512]) then Some (PyInt 2)
                  else None).

(** Worlds and stores for the further properties. *)

(** A working directory where the destination is a read-only file, beside
    another file. *)
Definition locked : world :=
  World (<["database_backup.json" := ReadOnlyFile (str "old")]>
           (<["notes.txt" := RegularFile (str "keep")]> ∅))
        0 [].

(** Values that JSON shows otherwise than Python holds them: a tuple, and a
    dictionary with an integer key. *)
Definition tupled : store :=
  Store (Some [str "t"; str "d"])
        (fun k => if decide (k = str "t")
                  then Some (PyTuple [PyInt 1; PyInt 2])
                  else if decide (k = str "d")
                       then Some (PyDict [(KInt 7, PyBool true)])
                  else None).



(** ** Notions used in the proofs *)

(** The text begins with the escape of a low surrogate. *)
Definition low_escape (s : pystr) : bool :=
  match s with
  | b :: u :: l1 :: l2 :: l3 :: l4 :: _ =>
      (b =? 92) && (u =? 117) &&
      match Json.hex4 l1 l2 l3 l4 with
      | Some lo => Json.is_low lo
      | None => false
      end
  | _ => false
  end.

(** How each code point is escaped. *)
Inductive escaped (c : N) : pystr -> Prop :=
| escaped_plain : (c =? 92) = false -> Encoder.ESCAPE_ASCII c = false ->
                  escaped c [c]
| escaped_short e : (e =? 117) = false -> Json.simple_escape e = Some c ->
                    escaped c [92; e]
| escaped_u : c < 65536 -> escaped c (Encoder.u_escape c)
| escaped_pair q r : q < 1024 -> r < 1024 -> c = 65536 + q * 1024 + r ->
                     escaped c (Encoder.u_escape (55296 + q)
                                ++ Encoder.u_escape (56320 + r)).

(** Checking a property on [count] consecutive numbers. *)
Fixpoint all_from (P : N -> bool) (count : nat) (n : N) : bool :=
  match count with
  | O => true
  | S k => P n && all_from P k (N.succ n)
  end.

Definition hex4_format_ok (n : N) : bool :=
  match Encoder.format_04x n with
  | [a; b; c; d] =>
      match Json.hex4 a b c d with
      | Some m => m =? n
      | None => false
      end
  | _ => false
  end.

Definition lor_ok (x : N) : bool :=
  (N.lor 55296 x =? 55296 + x) && (N.lor 56320 x =? 56320 + x).

(** [v], written at any level and followed by anything that does not
    continue a number, is read back as [norm v], leaving what follows. *)
Definition reads_back (v : pyval) : Prop :=
  wellformed v = true -> encodable v = true -> finite_floats v = true ->
  forall level fuel rest,
    delimited rest = true ->
    (length (Encoder.written (Encoder.iterencode v level)) <= fuel)%nat ->
    Json.value fuel (Encoder.written (Encoder.iterencode v level) ++ rest)
    = Some (norm v, rest).

(** Every chunk of a generator is ASCII. *)
Definition ascii_gen (g : Encoder.gen) : Prop :=
  Forall (fun c => ascii_text c = true) (Encoder.chunks g).

(** The first character of what is written for a value is neither a space
    nor a closing bracket. *)
Definition begins (s : pystr) : Prop :=
  exists c t, s = c :: t /\ (c =? 32) = false /\ closing c = false.

(** A value written at depth [level] keeps to the layout and leaves the
    depth as it found it. *)
Definition lays_out (v : pyval) : Prop :=
  wellformed v = true -> encodable v = true ->
  forall level rest,
    indented Code level (Encoder.written (Encoder.iterencode v level) ++ rest)
    = indented Code level rest.

(** The brackets a text leaves open: the mode and the depth a scan of [s]
    ends in when it starts in mode [m] at [depth]; what stands inside a
    string literal does not count. *)
Fixpoint nesting (m : mode) (depth : Z) (s : pystr) : mode * Z :=
  match s with
  | [] => (m, depth)
  | c :: s' =>
      match m with
      | Escaped => nesting InString depth s'
      | InString =>
          if c =? 92 then nesting Escaped depth s'
          else if c =? 34 then nesting Code depth s'
          else nesting InString depth s'
      | Code =>
          if c =? 34 then nesting InString depth s'
          else if opening c then nesting Code (depth + 1)%Z s'
          else if closing c then nesting Code (depth - 1)%Z s'
          else nesting Code depth s'
      end
  end.

(** A character that is neither a bracket nor a quote. *)
Definition quiet (c : N) : bool :=
  negb ((c =? 34) || opening c || closing c).

(** [s] is made of whole tokens and opens [n] brackets more than it
    closes. *)
Definition rises (s : pystr) (n : Z) : Prop :=
  forall depth, nesting Code depth s = (Code, (depth + n)%Z).

(** What is written for a value, to the end of the generator or to its
    exception, closes no bracket it did not open; it leaves none open when
    the generator ends, and at least one when it raises inside a list or a
    dictionary. *)
Definition brackets (v : pyval) : Prop :=
  wellformed v = true ->
  forall level, exists n,
    rises (Encoder.written (Encoder.iterencode v level)) n /\
    (0 <= n)%Z /\
    (encodable v = true -> n = 0%Z) /\
    (encodable v = false -> v <> PyObject -> (1 <= n)%Z).

(** The letters that begin the tokens [NaN] and [Infinity], which no JSON
    token holds. *)
Definition foreign_letter (c : N) : bool := (c =? 78) || (c =? 73).

(** [bare m count s]: the mode a scan of [s] ends in, and [count] plus the
    number of those letters met outside string literals. *)
Fixpoint bare (m : mode) (count : nat) (s : pystr) : mode * nat :=
  match s with
  | [] => (m, count)
  | c :: s' =>
      match m with
      | Escaped => bare InString count s'
      | InString =>
          if c =? 92 then bare Escaped count s'
          else if c =? 34 then bare Code count s'
          else bare InString count s'
      | Code =>
          if c =? 34 then bare InString count s'
          else if foreign_letter c then bare Code (S count) s'
          else bare Code count s'
      end
  end.

(** A character that is neither a quote nor one of those letters. *)
Definition calm (c : N) : bool := negb ((c =? 34) || foreign_letter c).

(** [s] is made of whole tokens with [n] of those letters outside its
    string literals. *)
Definition holds (s : pystr) (n : nat) : Prop :=
  forall count, bare Code count s = (Code, (count + n)%nat).

(** What is written for a value has such a letter outside its string
    literals exactly when the value holds a float that is not finite. *)
Definition tokens_of (v : pyval) : Prop :=
  wellformed v = true -> encodable v = true ->
  forall level, exists n,
    holds (Encoder.written (Encoder.iterencode v level)) n /\
    (finite_floats v = true -> n = 0%nat) /\
    (finite_floats v = false -> (1 <= n)%nat).

(** ** Proof steps *)

Ltac lengths H :=
  repeat (progress (rewrite ?length_app in H; cbn [length] in H)).
Ltac flatten :=
  repeat (progress (rewrite <- ?app_assoc; cbn [app])).
Ltac goal_lengths :=
  repeat (progress (rewrite ?length_app; cbn [length])).
Ltac both H H1 H2 := apply andb_true_iff in H as [H1 H2].
Ltac among H :=
  repeat (apply elem_of_cons in H as [->|H]);
  try (now apply not_elem_of_nil in H).

Ltac read_in H := vm_compute in H; injection H as <-.

(** * Proofs *)

Module EncoderFacts.
Import Encoder.

#[local] Arguments seq : simpl never.
#[local] Arguments yield : simpl never.

Lemma written_yield c : written (yield c) = c.
Proof. unfold written; simpl. apply app_nil_r. Qed.

Lemma written_seq g1 g2 :
  raised g1 = None -> written (g1 ;> g2) = written g1 ++ written g2.
Proof.
  intros H. unfold seq, written. rewrite H. simpl. apply concat_app.
Qed.

Lemma raised_seq g1 g2 :
  raised g1 = None -> raised (g1 ;> g2) = raised g2.
Proof. intros H. unfold seq. now rewrite H. Qed.

Lemma seq_raised g1 g2 e : raised g1 = Some e -> g1 ;> g2 = g1.
Proof. intros H. unfold seq. now rewrite H. Qed.

Lemma key_text_ok k : key_ok k = true -> exists t, key_text k = Some t.
Proof. destruct k as [s|n|f|[]| |]; simpl; intros H; eauto; discriminate. Qed.

Lemma key_text_bad k : key_ok k = false -> key_text k = None.
Proof. destruct k as [s|n|f|[]| |]; simpl; intros H; auto; discriminate. Qed.

(** A value written as one token is always accepted. *)
Lemma atom_encodable v t : atom v = Some t -> encodable v = true.
Proof. destruct v; simpl; intros H; auto; discriminate. Qed.

Lemma atom_iterencode v t level :
  atom v = Some t -> iterencode v level = yield t.
Proof.
  destruct v; simpl; intros H; try discriminate; try (now inversion H);
    destruct b; now inversion H.
Qed.

Lemma raised_list_loop lvl vs :
  Forall (fun v => forall level,
            raised (iterencode v level) = verdict (encodable v)) vs ->
  forall buf,
    raised (list_loop iterencode lvl buf vs) = verdict (forallb encodable vs).
Proof.
  induction 1 as [|v vs Hv _ IH]; intros buf; simpl; [reflexivity|].
  destruct (atom v) as [t|] eqn:Ha.
  - rewrite (atom_encodable _ _ Ha). cbn [andb].
    rewrite raised_seq by reflexivity. apply IH.
  - destruct (encodable v) eqn:He; cbn [andb].
    + rewrite raised_seq; [apply IH|].
      rewrite raised_seq by reflexivity. now rewrite Hv.
    + erewrite seq_raised.
      * rewrite raised_seq by reflexivity. now rewrite Hv.
      * rewrite raised_seq by reflexivity. now rewrite Hv.
Qed.

Lemma raised_dict_loop lvl items :
  Forall (fun kv => forall level,
            raised (iterencode (snd kv) level) = verdict (encodable (snd kv)))
         items ->
  forall first,
    raised (dict_loop iterencode lvl first items)
    = verdict (forallb (fun kv => key_ok (fst kv) && encodable (snd kv)) items).
Proof.
  induction 1 as [|[k v] items Hv _ IH]; intros first; simpl; [reflexivity|].
  simpl in Hv.
  destruct (key_ok k) eqn:Hk; cbn [andb].
  2:{ now rewrite (key_text_bad _ Hk). }
  destruct (key_text_ok _ Hk) as [t ->].
  assert (Hfirst : raised (if first then stop
                           else yield (44 :: newline_indent lvl)) = None)
    by now destruct first.
  rewrite (raised_seq _ _ Hfirst).
  rewrite !raised_seq by reflexivity.
  destruct (atom v) as [a|] eqn:Ha.
  - rewrite (atom_encodable _ _ Ha). cbn [andb].
    rewrite raised_seq by reflexivity. apply IH.
  - destruct (encodable v) eqn:He; cbn [andb].
    + rewrite raised_seq; [apply IH|]. now rewrite Hv.
    + erewrite seq_raised; now rewrite Hv.
Qed.

(** The generator raises exactly on the values that are not [encodable]. *)
Lemma raised_iterencode v :
  forall level, raised (iterencode v level) = verdict (encodable v).
Proof.
  induction v as [|b|n|f|s|lst IH|lst IH|dct IH|] using pyval_ind;
    intros level; try reflexivity.
  - now destruct b.
  - simpl. destruct lst as [|v vs]; [reflexivity|].
    unfold iterencode_list.
    destruct (forallb encodable (v :: vs)) eqn:He.
    + rewrite raised_seq; [reflexivity|].
      rewrite raised_list_loop by exact IH. now rewrite He.
    + erewrite seq_raised; rewrite raised_list_loop by exact IH;
        now rewrite He.
  - simpl. destruct lst as [|v vs]; [reflexivity|].
    unfold iterencode_list.
    destruct (forallb encodable (v :: vs)) eqn:He.
    + rewrite raised_seq; [reflexivity|].
      rewrite raised_list_loop by exact IH. now rewrite He.
    + erewrite seq_raised; rewrite raised_list_loop by exact IH;
        now rewrite He.
  - simpl. destruct dct as [|kv items]; [reflexivity|].
    unfold iterencode_dict.
    rewrite !raised_seq by reflexivity.
    destruct (forallb _ (kv :: items)) eqn:He.
    + rewrite raised_seq; [reflexivity|].
      rewrite raised_dict_loop by exact IH. now rewrite He.
    + erewrite seq_raised; rewrite raised_dict_loop by exact IH;
        now rewrite He.
Qed.

End EncoderFacts.

Module Mapping.

Lemma keys_setitem data key value :
  keys_of (setitem data key value) = enter (keys_of data) key.
Proof.
  unfold enter, keys_of.
  induction data as [|[k v] rest IH]; simpl.
  - reflexivity.
  - destruct (decide (k = key)) as [->|Hne]; simpl.
    + rewrite decide_True; [reflexivity | apply list_elem_of_here].
    + rewrite IH. destruct (decide (key ∈ map fst rest)) as [Hin|Hout].
      * rewrite decide_True; [reflexivity | now apply list_elem_of_further].
      * rewrite decide_False; [reflexivity|].
        intros Hin. apply elem_of_cons in Hin as [->|Hin]; tauto.
Qed.

Lemma lookup_setitem data key value k :
  lookup_key (setitem data key value) k
  = if decide (key = k) then Some value else lookup_key data k.
Proof.
  induction data as [|[k' v'] rest IH]; simpl.
  - reflexivity.
  - destruct (decide (k' = key)) as [->|Hne]; simpl.
    + destruct (decide (key = k)); reflexivity.
    + rewrite IH.
      destruct (decide (k' = k)) as [->|]; [|reflexivity].
      now rewrite decide_False.
Qed.


Lemma elem_of_enter acc key k : k ∈ enter acc key <-> k ∈ acc \/ k = key.
Proof.
  unfold enter. destruct (decide (key ∈ acc)) as [Hin|Hout].
  - split; [tauto|]. intros [H| ->]; assumption.
  - rewrite elem_of_app, list_elem_of_singleton. tauto.
Qed.


Lemma elem_of_fold_enter ks : forall acc k,
  k ∈ fold_left enter ks acc <-> k ∈ acc \/ k ∈ ks.
Proof.
  induction ks as [|k' ks IH]; intros acc k; simpl.
  - split; [tauto|]. intros [H|H]; [exact H|]. now apply not_elem_of_nil in H.
  - rewrite IH, elem_of_enter, elem_of_cons. tauto.
Qed.



(** The loop, once every read has succeeded. *)
Lemma accumulate_keys db ks : forall data data',
  accumulate db ks data = inr data' ->
  keys_of data' = fold_left enter ks (keys_of data).
Proof.
  induction ks as [|k ks IH]; intros data data' H; simpl in *.
  - now inversion H.
  - destruct (getitem db k) as [v|]; [|discriminate].
    rewrite (IH _ _ H). now rewrite keys_setitem.
Qed.

Lemma accumulate_lookup db ks : forall data data' k,
  accumulate db ks data = inr data' ->
  lookup_key data' k = if decide (k ∈ ks) then getitem db k
                       else lookup_key data k.
Proof.
  induction ks as [|k' ks IH]; intros data data' k H; simpl in *.
  - now inversion H; subst.
  - destruct (getitem db k') as [v|] eqn:Hget; [|discriminate].
    rewrite (IH _ _ k H), lookup_setitem.
    destruct (decide (k ∈ ks)) as [Hin|Hout].
    + rewrite decide_True; [reflexivity | now apply list_elem_of_further].
    + destruct (decide (k' = k)) as [->|Hne].
      * rewrite decide_True; [now rewrite Hget | apply list_elem_of_here].
      * rewrite decide_False; [reflexivity|].
        intros Hin. apply elem_of_cons in Hin as [->|Hin]; tauto.
Qed.

(** The loop succeeds exactly when every read does. *)
Lemma accumulate_ok db ks : forall data,
  Forall (fun k => is_Some (getitem db k)) ks ->
  exists data', accumulate db ks data = inr data'.
Proof.
  induction ks as [|k ks IH]; intros data H; simpl.
  - eauto.
  - apply Forall_cons in H as [[v Hv] H]. rewrite Hv. now apply IH.
Qed.

Lemma accumulate_fails db ks : forall data k,
  k ∈ ks -> getitem db k = None ->
  accumulate db ks data = inl StoreUnavailable.
Proof.
  induction ks as [|k' ks IH]; intros data k Hin Hk; simpl.
  - now apply not_elem_of_nil in Hin.
  - destruct (getitem db k') as [v|] eqn:Hget; [|reflexivity].
    apply elem_of_cons in Hin as [->|Hin]; [congruence|].
    now apply (IH _ k).
Qed.

(** Every value of the mapping was returned by a read of an enumerated
    key. *)
Lemma accumulate_values db ks : forall data data' (Q : pyval -> Prop),
  accumulate db ks data = inr data' ->
  Forall (fun kv => Q (snd kv)) data ->
  (forall k v, k ∈ ks -> getitem db k = Some v -> Q v) ->
  Forall (fun kv => Q (snd kv)) data'.
Proof.
  induction ks as [|k ks IH]; intros data data' Q H Hdata Hks; simpl in *.
  - now inversion H; subst.
  - destruct (getitem db k) as [v|] eqn:Hget; [|discriminate].
    apply (IH _ _ Q H).
    + assert (Hv : Q v).
      { apply (Hks k); [apply list_elem_of_here | exact Hget]. }
      clear -Hdata Hv. induction data as [|[k' v'] rest IHd]; simpl.
      * repeat constructor. exact Hv.
      * apply Forall_cons in Hdata as [Hh Ht].
        destruct (decide (k' = k)); constructor; auto.
    + intros k0 v0 Hin. apply Hks. now apply list_elem_of_further.
Qed.

End Mapping.

Module Run.
Import Encoder.

Lemma write_all_appends f cs : forall w c,
  files w !! f = Some (RegularFile c) ->
  write_all f cs w
  = (World (<[f := RegularFile (c ++ concat cs)]> (files w))
           (handles w) (stdout w), inr tt).
Proof.
  induction cs as [|chunk cs IH]; intros [fs h out] c Hf; simpl in *.
  - rewrite app_nil_r, insert_id by exact Hf. reflexivity.
  - unfold mbind, prog_bind, write. simpl. rewrite Hf.
    rewrite (IH _ (c ++ chunk)) by (simpl; apply lookup_insert_eq).
    simpl. rewrite insert_insert_eq, app_assoc. reflexivity.
Qed.

Lemma with_open_dump obj w :
  writable w = true ->
  with_open destination (json_dump obj) w
  = (dumped w (iterencode obj 0),
     match raised (iterencode obj 0) with
     | Some e => inl e
     | None => inr tt
     end).
Proof.
  intros Hw. destruct w as [fs h out]. unfold writable in Hw; simpl in Hw.
  unfold with_open, open_w, json_dump, dumped. simpl.
  assert (Hopen :
    (match fs !! destination with
     | Some (ReadOnlyFile _) | Some Directory =>
         (World fs h out, inl FilesystemError)
     | _ => (World (<[destination := RegularFile []]> fs) (S h) out,
             inr destination)
     end)
    = (World (<[destination := RegularFile []]> fs) (S h) out,
       inr destination : failure + string)).
  { destruct (fs !! destination) as [[c|c|]|]; try discriminate; reflexivity. }
  rewrite Hopen. unfold mbind, prog_bind.
  rewrite (write_all_appends _ _ _ []) by (simpl; apply lookup_insert_eq).
  simpl. rewrite insert_insert_eq.
  destruct (raised (iterencode obj 0)); reflexivity.
Qed.

Lemma with_open_refused body w :
  writable w = false ->
  with_open destination body w = (w, inl FilesystemError).
Proof.
  intros Hw. unfold writable in Hw. unfold with_open, open_w.
  destruct (files w !! destination) as [[c|c|]|]; try discriminate;
    reflexivity.
Qed.

(** The three ways a run goes. *)
Lemma export_db_store_failure db w e :
  build db = inl e -> export_db db w = (w, inl e).
Proof. intros H. unfold export_db, lift, mbind, prog_bind. now rewrite H. Qed.

Lemma export_db_refused db w data :
  build db = inr data -> writable w = false ->
  export_db db w = (w, inl FilesystemError).
Proof.
  intros H Hw. unfold export_db, lift, mbind, prog_bind. rewrite H.
  now rewrite with_open_refused.
Qed.

Lemma export_db_dump db w data :
  build db = inr data -> writable w = true ->
  export_db db w
  = let g := iterencode (as_pyval data) 0 in
    match raised g with
    | Some e => (dumped w g, inl e)
    | None => (printed (dumped w g), inr tt)
    end.
Proof.
  intros H Hw. unfold export_db, lift, mbind, prog_bind. rewrite H.
  rewrite with_open_dump by exact Hw. cbv zeta.
  destruct (raised (iterencode (as_pyval data) 0)); reflexivity.
Qed.

Lemma backup_dumped w g : backup (dumped w g) = Some (written g).
Proof. unfold backup, dumped. simpl. now rewrite lookup_insert_eq. Qed.

Lemma backup_printed w : backup (printed w) = backup w.
Proof. reflexivity. Qed.

Lemma encodable_as_pyval data :
  encodable (as_pyval data) = forallb (fun kv => encodable (snd kv)) data.
Proof.
  unfold as_pyval. simpl. induction data as [|[k v] rest IH]; simpl; [easy|].
  now rewrite IH.
Qed.

End Run.

Module NumberFacts.
Import Encoder Json.

Lemma delimited_digit c rest :
  delimited (c :: rest) = true -> is_digit c = false.
Proof.
  unfold delimited, number_char. intros H.
  destruct (is_digit c); [discriminate | reflexivity].
Qed.

Lemma delimited_chars c rest :
  delimited (c :: rest) = true ->
  (c =? 46) = false /\ (c =? 101) = false /\ (c =? 69) = false /\
  (c =? 43) = false /\ (c =? 45) = false.
Proof.
  unfold delimited, number_char. intros H.
  destruct (is_digit c), (c =? 46), (c =? 101), (c =? 69), (c =? 43),
    (c =? 45); try discriminate; auto.
Qed.

(** Text after a run of digits stays after it. *)
Lemma digits_app s rest :
  delimited rest = true ->
  digits (s ++ rest) = (fst (digits s), snd (digits s) ++ rest).
Proof.
  intros Hrest. induction s as [|c s IH]; simpl.
  - destruct rest as [|c rest]; [reflexivity|]. simpl.
    now rewrite (delimited_digit _ _ Hrest).
  - destruct (is_digit c); [|reflexivity].
    rewrite IH. now destruct (digits s).
Qed.

Lemma frac_app s rest fr r :
  delimited rest = true ->
  frac s = Some (fr, r) -> frac (s ++ rest) = Some (fr, r ++ rest).
Proof.
  intros Hrest. destruct s as [|c s]; simpl.
  - intros [= <- <-]. destruct rest as [|c rest]; [reflexivity|]. simpl.
    destruct (delimited_chars _ _ Hrest) as (-> & _). reflexivity.
  - destruct (c =? 46); [|now intros [= <- <-]].
    rewrite (digits_app _ _ Hrest). destruct (digits s) as [ds r'].
    simpl. destruct ds; [discriminate|]. now intros [= <- <-].
Qed.

Lemma exp_app s rest ex r :
  delimited rest = true ->
  exp s = Some (ex, r) -> exp (s ++ rest) = Some (ex, r ++ rest).
Proof.
  intros Hrest. destruct s as [|c s]; simpl.
  - intros [= <- <-]. destruct rest as [|c rest]; [reflexivity|]. simpl.
    destruct (delimited_chars _ _ Hrest) as (_ & -> & -> & _). reflexivity.
  - destruct ((c =? 101) || (c =? 69)); [|now intros [= <- <-]].
    destruct s as [|d t]; simpl; [discriminate|].
    destruct ((d =? 43) || (d =? 45)).
    + rewrite (digits_app _ _ Hrest). destruct (digits t) as [ds r'].
      simpl. destruct ds; [discriminate|]. now intros [= <- <-].
    + change (d :: t ++ rest) with ((d :: t) ++ rest).
      rewrite (digits_app _ _ Hrest). destruct (digits (d :: t)) as [ds r'].
      simpl. destruct ds; [discriminate|]. now intros [= <- <-].
Qed.

Lemma unsigned_app minus s rest v r :
  delimited rest = true ->
  unsigned minus s = Some (v, r) ->
  unsigned minus (s ++ rest) = Some (v, r ++ rest).
Proof.
  intros Hrest. unfold unsigned. rewrite (digits_app _ _ Hrest).
  destruct (digits s) as [ip s2]. simpl.
  destruct (int_part_ok ip); [|discriminate].
  destruct (frac s2) as [[fr s3]|] eqn:Hfr; [|discriminate].
  rewrite (frac_app _ _ _ _ Hrest Hfr).
  destruct (exp s3) as [[ex s4]|] eqn:Hex; [|discriminate].
  rewrite (exp_app _ _ _ _ Hrest Hex).
  destruct fr, ex; now intros [= <- <-].
Qed.

Lemma number_app s rest v r :
  delimited rest = true ->
  number s = Some (v, r) -> number (s ++ rest) = Some (v, r ++ rest).
Proof.
  intros Hrest. unfold number. destruct s as [|c s]; simpl.
  - discriminate.
  - destruct (c =? 45).
    + now apply unsigned_app.
    + now apply (unsigned_app false (c :: s)).
Qed.

(** Decimal digits, read back. *)
Lemma decimal_acc d : forall acc,
  fold_left (fun a c => 10 * a + digit_value c) (uint_chars d) (Npos acc)
  = Npos (Pos.of_uint_acc d acc).
Proof.
  induction d; intros acc; simpl; try reflexivity;
    rewrite <- IHd; f_equal; unfold digit_value; lia.
Qed.

Lemma decimal_uint d : decimal (uint_chars d) = Pos.of_uint d.
Proof.
  unfold decimal. induction d; simpl; try reflexivity; try exact IHd;
    apply decimal_acc.
Qed.

Lemma digits_uint d : digits (uint_chars d) = (uint_chars d, []).
Proof. induction d; simpl; try reflexivity; now rewrite IHd. Qed.

Lemma nzhead_shape d :
  match nzhead d with
  | D0 _ => False
  | _ => True
  end.
Proof. induction d; simpl; auto. Qed.

Lemma to_uint_unorm p : unorm (Pos.to_uint p) = Pos.to_uint p.
Proof.
  rewrite <- (DecimalPos.Unsigned.to_of (Pos.to_uint p)).
  now rewrite DecimalPos.Unsigned.of_to.
Qed.

Lemma int_part_ok_to_uint p :
  int_part_ok (uint_chars (Pos.to_uint p)) = true.
Proof.
  rewrite <- to_uint_unorm. unfold unorm.
  pose proof (nzhead_shape (Pos.to_uint p)) as H.
  destruct (nzhead (Pos.to_uint p)) as [|d|d|d|d|d|d|d|d|d|d];
    try contradiction; try reflexivity;
    simpl; destruct (uint_chars d); reflexivity.
Qed.

Lemma number_uint p :
  number (uint_chars (Pos.to_uint p))
  = Some (PyInt (Zpos p), []) /\
  number (45 :: uint_chars (Pos.to_uint p)) = Some (PyInt (Zneg p), []).
Proof.
  assert (Hhead : forall c t, uint_chars (Pos.to_uint p) = c :: t ->
                              (c =? 45) = false).
  { intros c t H. pose proof (digits_uint (Pos.to_uint p)) as Hd.
    rewrite H in Hd. simpl in Hd.
    destruct (is_digit c) eqn:Hc; [|discriminate].
    unfold is_digit in Hc. apply andb_true_iff in Hc as [H1 H2].
    apply N.leb_le in H1, H2. apply N.eqb_neq. lia. }
  assert (Hne : uint_chars (Pos.to_uint p) <> []).
  { intros H. pose proof (int_part_ok_to_uint p) as Hok.
    now rewrite H in Hok. }
  assert (Hval : Z.of_N (decimal (uint_chars (Pos.to_uint p))) = Zpos p).
  { now rewrite decimal_uint, DecimalPos.Unsigned.of_to. }
  assert (Hun : forall minus,
    unsigned minus (uint_chars (Pos.to_uint p))
    = Some (PyInt (if minus then Zneg p else Zpos p), [])).
  { intros minus. unfold unsigned.
    rewrite digits_uint, int_part_ok_to_uint. simpl. rewrite Hval.
    now destruct minus. }
  split; unfold number.
  - destruct (uint_chars (Pos.to_uint p)) as [|c t] eqn:Hu; [easy|].
    rewrite (Hhead c t eq_refl). apply (Hun false).
  - simpl. apply (Hun true).
Qed.

Lemma number_intstr n rest :
  delimited rest = true ->
  number (intstr n ++ rest) = Some (PyInt n, rest).
Proof.
  intros Hrest.
  assert (H : number (intstr n) = Some (PyInt n, [])).
  { destruct n as [|p|p]; [reflexivity| |]; apply number_uint. }
  apply (number_app _ _ _ _ Hrest H).
Qed.

End NumberFacts.

Module StringFacts.
Import Encoder Json.

Lemma all_from_spec P count : forall n,
  all_from P count n = true ->
  forall m, n <= m < n + N.of_nat count -> P m = true.
Proof.
  induction count as [|k IH]; intros n H m Hm.
  - lia.
  - simpl in H. apply andb_true_iff in H as [Hn Hk].
    destruct (N.eq_dec m n) as [->|Hne]; [exact Hn|].
    apply (IH (N.succ n) Hk). lia.
Qed.

Lemma all_below P k :
  all_from P (N.to_nat k) 0 = true -> forall m, m < k -> P m = true.
Proof.
  intros H m Hm. apply (all_from_spec _ _ _ H). rewrite N2Nat.id. lia.
Qed.

Lemma hex4_format_all : all_from hex4_format_ok (N.to_nat 65536) 0 = true.
Proof. vm_compute. reflexivity. Qed.

Lemma hex4_format n :
  n < 65536 ->
  hex4 (hexdigit (n / 4096 mod 16)) (hexdigit (n / 256 mod 16))
       (hexdigit (n / 16 mod 16)) (hexdigit (n mod 16)) = Some n.
Proof.
  intros Hn.
  assert (H : hex4_format_ok n = true).
  { apply (all_below _ _ hex4_format_all), Hn. }
  unfold hex4_format_ok, format_04x in H.
  destruct (hex4 _ _ _ _) as [m|]; [|discriminate].
  apply N.eqb_eq in H. now subst.
Qed.

Lemma lor_all : all_from lor_ok (N.to_nat 1024) 0 = true.
Proof. vm_compute. reflexivity. Qed.

Lemma lor_surrogate x :
  x < 1024 -> N.lor 55296 x = 55296 + x /\ N.lor 56320 x = 56320 + x.
Proof.
  intros Hx.
  assert (H : lor_ok x = true).
  { apply (all_below _ _ lor_all), Hx. }
  unfold lor_ok in H. apply andb_true_iff in H as [H1 H2].
  apply N.eqb_eq in H1, H2. now split.
Qed.

(** The two halves of the pair written for a code point above the BMP. *)
Lemma surrogate_halves c :
  65536 <= c < 1114112 ->
  let n := c - 65536 in
  N.lor 55296 (N.land (N.shiftr n 10) 1023) = 55296 + n / 1024 /\
  N.lor 56320 (N.land n 1023) = 56320 + n mod 1024 /\
  n / 1024 < 1024.
Proof.
  intros Hc n.
  assert (Hn : n < 1048576) by (unfold n; lia).
  assert (Hq : n / 1024 < 1024).
  { apply N.Div0.div_lt_upper_bound. lia. }
  assert (Hr : n mod 1024 < 1024) by (apply N.mod_lt; lia).
  change 1023 with (N.ones 10).
  rewrite !N.land_ones, N.shiftr_div_pow2.
  change (2 ^ 10) with 1024.
  rewrite (N.mod_small (n / 1024)) by exact Hq.
  destruct (lor_surrogate _ Hq) as [-> _].
  destruct (lor_surrogate _ Hr) as [_ ->].
  auto.
Qed.

Lemma string_body_plain c s :
  ESCAPE_ASCII c = false -> string_body (c :: s) = push c (string_body s).
Proof.
  unfold ESCAPE_ASCII. intros H.
  apply orb_false_iff in H as [H H3]. apply orb_false_iff in H as [H1 H2].
  apply negb_false_iff, andb_true_iff in H3 as [H3 H4].
  apply N.leb_le in H4.
  assert (H5 : (c <=? 127) = true) by (apply N.leb_le; lia).
  simpl. now rewrite H1, H2, H3, H5.
Qed.

Lemma string_body_pair h1 h2 h3 h4 l1 l2 l3 l4 s5 hi lo :
  hex4 h1 h2 h3 h4 = Some hi -> is_high hi = true ->
  hex4 l1 l2 l3 l4 = Some lo -> is_low lo = true ->
  string_body (92 :: 117 :: h1 :: h2 :: h3 :: h4
               :: 92 :: 117 :: l1 :: l2 :: l3 :: l4 :: s5)
  = push (65536 + (hi - 55296) * 1024 + (lo - 56320)) (string_body s5).
Proof. intros H Hh L Hl. simpl. now rewrite H, Hh, L, Hl. Qed.

(** An escape that is not followed by the escape of a low surrogate
    stands for its own code point. *)
Lemma string_body_single h1 h2 h3 h4 s3 n :
  hex4 h1 h2 h3 h4 = Some n -> low_escape s3 = false ->
  string_body (92 :: 117 :: h1 :: h2 :: h3 :: h4 :: s3)
  = push n (string_body s3).
Proof.
  intros H Hlow.
  change (string_body (92 :: 117 :: h1 :: h2 :: h3 :: h4 :: s3))
    with (match hex4 h1 h2 h3 h4 with
          | None => None
          | Some hi =>
              let single := push hi (string_body s3) in
              if is_high hi then
                match s3 with
                | b :: u :: l1 :: l2 :: l3 :: l4 :: s5 =>
                    if (b =? 92) && (u =? 117) then
                      match hex4 l1 l2 l3 l4 with
                      | Some lo =>
                          if is_low lo then
                            push (65536 + (hi - 55296) * 1024 + (lo - 56320))
                                 (string_body s5)
                          else single
                      | None => single
                      end
                    else single
                | _ => single
                end
              else single
          end).
  rewrite H. cbv zeta. destruct (is_high n); [|reflexivity].
  destruct s3 as [|b [|u [|l1 [|l2 [|l3 [|l4 s5]]]]]]; try reflexivity.
  unfold low_escape in Hlow.
  destruct ((b =? 92) && (u =? 117)); [|reflexivity].
  destruct (hex4 l1 l2 l3 l4) as [lo|]; [|reflexivity].
  cbn [andb] in Hlow. now rewrite Hlow.
Qed.

Lemma low_escape_other b t : (b =? 92) = false -> low_escape (b :: t) = false.
Proof.
  intros H. destruct t as [|u [|l1 [|l2 [|l3 [|l4 s5]]]]]; try reflexivity.
  unfold low_escape. now rewrite H.
Qed.

Lemma low_escape_short u t :
  (u =? 117) = false -> low_escape (92 :: u :: t) = false.
Proof.
  intros H. destruct t as [|l1 [|l2 [|l3 [|l4 s5]]]]; try reflexivity.
  unfold low_escape. now rewrite H.
Qed.

Lemma low_escape_u n t :
  n < 65536 -> low_escape (u_escape n ++ t) = is_low n.
Proof.
  intros H. unfold u_escape, format_04x, low_escape. cbn [app].
  now rewrite hex4_format.
Qed.

Lemma is_high_range c :
  is_high c = true <-> 55296 <= c <= 56319.
Proof.
  unfold is_high. rewrite andb_true_iff, !N.leb_le. tauto.
Qed.

Lemma is_low_range c :
  is_low c = true <-> 56320 <= c <= 57343.
Proof.
  unfold is_low. rewrite andb_true_iff, !N.leb_le. tauto.
Qed.

Lemma is_high_false c : ~ (55296 <= c <= 56319) -> is_high c = false.
Proof.
  intros H. destruct (is_high c) eqn:E; [|reflexivity].
  apply is_high_range in E. contradiction.
Qed.

Lemma is_low_false c : ~ (56320 <= c <= 57343) -> is_low c = false.
Proof.
  intros H. destruct (is_low c) eqn:E; [|reflexivity].
  apply is_low_range in E. contradiction.
Qed.

Lemma escape_char_cases c : codepoint c = true -> escaped c (escape_char c).
Proof.
  intros Hc. unfold codepoint in Hc. apply N.ltb_lt in Hc.
  unfold escape_char.
  destruct (ESCAPE_ASCII c) eqn:Hesc.
  2:{ apply escaped_plain; [|exact Hesc]. unfold ESCAPE_ASCII in Hesc.
      apply orb_false_iff in Hesc as [Hesc _].
      now apply orb_false_iff in Hesc as [Hesc _]. }
  unfold replace, ESCAPE_DCT.
  destruct (c =? 92) eqn:E1;
    [apply N.eqb_eq in E1; subst; now apply (escaped_short 92 92)|].
  destruct (c =? 34) eqn:E2;
    [apply N.eqb_eq in E2; subst; now apply (escaped_short 34 34)|].
  destruct (c =? 8) eqn:E3;
    [apply N.eqb_eq in E3; subst; now apply (escaped_short 8 98)|].
  destruct (c =? 12) eqn:E4;
    [apply N.eqb_eq in E4; subst; now apply (escaped_short 12 102)|].
  destruct (c =? 10) eqn:E5;
    [apply N.eqb_eq in E5; subst; now apply (escaped_short 10 110)|].
  destruct (c =? 13) eqn:E6;
    [apply N.eqb_eq in E6; subst; now apply (escaped_short 13 114)|].
  destruct (c =? 9) eqn:E7;
    [apply N.eqb_eq in E7; subst; now apply (escaped_short 9 116)|].
  destruct (c <? 32) eqn:E8.
  { apply N.ltb_lt in E8. apply escaped_u. lia. }
  destruct (c <? 65536) eqn:E9.
  { apply N.ltb_lt in E9. now apply escaped_u. }
  apply N.ltb_ge in E9.
  destruct (surrogate_halves c (conj E9 Hc)) as (-> & -> & Hq).
  assert (Hr : (c - 65536) mod 1024 < 1024) by (apply N.mod_lt; lia).
  pose proof (N.Div0.div_mod (c - 65536) 1024) as Hdm.
  apply escaped_pair; [exact Hq | exact Hr |].
  revert Hdm Hq Hr.
  generalize ((c - 65536) / 1024), ((c - 65536) mod 1024).
  intros q r Hdm Hq Hr. lia.
Qed.

(** One character that is not a high surrogate, escaped and read back. *)
Lemma string_body_escape c s :
  codepoint c = true -> is_high c = false ->
  string_body (escape_char c ++ s) = push c (string_body s).
Proof.
  intros Hc Hh.
  destruct (escape_char_cases c Hc) as [H1 H2|e He Hs|Hlt|q r Hq Hr ->].
  - now apply string_body_plain.
  - cbn [app]. simpl. rewrite He.
    assert (E : (92 =? 34) = false) by reflexivity.
    now rewrite Hs.
  - unfold u_escape, format_04x. cbn [app].
    change (string_body (92 :: 117 :: ?a :: ?b :: ?d :: ?e :: s))
      with (match hex4 a b d e with
            | None => None
            | Some hi =>
                let single := push hi (string_body s) in
                if is_high hi then
                  match s with
                  | b0 :: u :: l1 :: l2 :: l3 :: l4 :: s5 =>
                      if (b0 =? 92) && (u =? 117) then
                        match hex4 l1 l2 l3 l4 with
                        | Some lo =>
                            if is_low lo then
                              push (65536 + (hi - 55296) * 1024
                                    + (lo - 56320))
                                   (string_body s5)
                            else single
                        | None => single
                        end
                      else single
                  | _ => single
                  end
                else single
            end).
    rewrite hex4_format by exact Hlt. cbv zeta. now rewrite Hh.
  - unfold u_escape, format_04x. cbn [app].
    rewrite (string_body_pair _ _ _ _ _ _ _ _ _ (55296 + q) (56320 + r)).
    + f_equal. lia.
    + apply hex4_format. lia.
    + apply is_high_range. lia.
    + apply hex4_format. lia.
    + apply is_low_range. lia.
Qed.

(** What is written for a code point that is not a low surrogate does not
    begin as the escape of one. *)
Lemma low_escape_char c t :
  codepoint c = true -> is_low c = false ->
  low_escape (escape_char c ++ t) = false.
Proof.
  intros Hc Hl.
  destruct (escape_char_cases c Hc) as [H1 H2|e He Hs|Hlt|q r Hq Hr ->].
  - now apply low_escape_other.
  - now apply low_escape_short.
  - now rewrite low_escape_u.
  - rewrite <- app_assoc, low_escape_u by lia.
    apply is_low_false. lia.
Qed.

Lemma low_escape_encoded s rest :
  codepoints s = true ->
  match s with
  | c :: _ => is_low c = false
  | [] => True
  end ->
  low_escape (flat_map escape_char s ++ 34 :: rest) = false.
Proof.
  destruct s as [|c s]; intros Hs Hl.
  - now apply low_escape_other.
  - cbn [codepoints forallb] in Hs. apply andb_true_iff in Hs as [Hc _].
    cbn [flat_map]. rewrite <- app_assoc. now apply low_escape_char.
Qed.

Lemma escape_char_high c :
  is_high c = true -> escape_char c = u_escape c.
Proof.
  intros H. apply is_high_range in H. unfold escape_char, ESCAPE_ASCII.
  replace (c =? 92) with false by (symmetry; apply N.eqb_neq; lia).
  replace (c =? 34) with false by (symmetry; apply N.eqb_neq; lia).
  replace (c <=? 126) with false by (symmetry; apply N.leb_gt; lia).
  rewrite andb_false_r. cbn [orb negb]. unfold replace, ESCAPE_DCT.
  replace (c =? 92) with false by (symmetry; apply N.eqb_neq; lia).
  replace (c =? 34) with false by (symmetry; apply N.eqb_neq; lia).
  replace (c =? 8) with false by (symmetry; apply N.eqb_neq; lia).
  replace (c =? 12) with false by (symmetry; apply N.eqb_neq; lia).
  replace (c =? 10) with false by (symmetry; apply N.eqb_neq; lia).
  replace (c =? 13) with false by (symmetry; apply N.eqb_neq; lia).
  replace (c =? 9) with false by (symmetry; apply N.eqb_neq; lia).
  replace (c <? 32) with false by (symmetry; apply N.ltb_ge; lia).
  replace (c <? 65536) with true by (symmetry; apply N.ltb_lt; lia).
  reflexivity.
Qed.

Lemma escape_char_low c :
  is_low c = true -> escape_char c = u_escape c.
Proof.
  intros H. apply is_low_range in H. unfold escape_char, ESCAPE_ASCII.
  replace (c =? 92) with false by (symmetry; apply N.eqb_neq; lia).
  replace (c =? 34) with false by (symmetry; apply N.eqb_neq; lia).
  replace (c <=? 126) with false by (symmetry; apply N.leb_gt; lia).
  rewrite andb_false_r. cbn [orb negb]. unfold replace, ESCAPE_DCT.
  replace (c =? 92) with false by (symmetry; apply N.eqb_neq; lia).
  replace (c =? 34) with false by (symmetry; apply N.eqb_neq; lia).
  replace (c =? 8) with false by (symmetry; apply N.eqb_neq; lia).
  replace (c =? 12) with false by (symmetry; apply N.eqb_neq; lia).
  replace (c =? 10) with false by (symmetry; apply N.eqb_neq; lia).
  replace (c =? 13) with false by (symmetry; apply N.eqb_neq; lia).
  replace (c =? 9) with false by (symmetry; apply N.eqb_neq; lia).
  replace (c <? 32) with false by (symmetry; apply N.ltb_ge; lia).
  replace (c <? 65536) with true by (symmetry; apply N.ltb_lt; lia).
  reflexivity.
Qed.

(** A string, encoded and read back. *)
Lemma string_body_bounded n : forall s rest,
  (length s <= n)%nat -> codepoints s = true ->
  string_body (flat_map escape_char s ++ 34 :: rest)
  = Some (merge_surrogates s, rest).
Proof.
  induction n as [|n IH]; intros s rest Hlen Hs.
  { destruct s; [reflexivity | simpl in Hlen; lia]. }
  destruct s as [|c s]; [reflexivity|].
  cbn [codepoints forallb] in Hs. apply andb_true_iff in Hs as [Hc Hs].
  cbn [length] in Hlen.
  destruct (is_high c) eqn:Hh.
  2:{ cbn [flat_map]. rewrite <- app_assoc.
      rewrite string_body_escape by assumption.
      rewrite IH by (assumption || lia).
      cbn [merge_surrogates push]. rewrite Hh.
      destruct s; reflexivity. }
  assert (Hlt : c < 65536) by (apply is_high_range in Hh; lia).
  destruct s as [|lo s].
  { cbn [flat_map app merge_surrogates]. rewrite escape_char_high by exact Hh.
    unfold u_escape, format_04x. cbn [app].
    rewrite (string_body_single _ _ _ _ _ c);
      [reflexivity | now apply hex4_format | now apply low_escape_other]. }
  cbn [codepoints forallb] in Hs. apply andb_true_iff in Hs as [Hlo Hs].
  cbn [length] in Hlen.
  destruct (is_low lo) eqn:Hl.
  - cbn [flat_map merge_surrogates]. rewrite Hh, Hl. cbn [andb].
    rewrite escape_char_high by exact Hh.
    rewrite escape_char_low by exact Hl.
    assert (Hlo' : lo < 65536) by (apply is_low_range in Hl; lia).
    rewrite <- !app_assoc. unfold u_escape at 1 2, format_04x. cbn [app].
    rewrite (string_body_pair _ _ _ _ _ _ _ _ _ c lo);
      try (now apply hex4_format); try assumption.
    now rewrite IH by (assumption || lia).
  - change (flat_map escape_char (c :: lo :: s))
      with (escape_char c ++ flat_map escape_char (lo :: s)).
    rewrite <- app_assoc. rewrite escape_char_high by exact Hh.
    unfold u_escape, format_04x. cbn [app].
    rewrite (string_body_single _ _ _ _ _ c).
    + rewrite IH.
      * cbn [merge_surrogates push]. rewrite Hh, Hl. reflexivity.
      * cbn [length]. lia.
      * cbn [codepoints forallb]. now rewrite Hlo.
    + now apply hex4_format.
    + apply low_escape_encoded; [|exact Hl].
      cbn [codepoints forallb]. now rewrite Hlo.
Qed.

Lemma string_body_encoded s rest :
  codepoints s = true ->
  string_body (flat_map escape_char s ++ 34 :: rest)
  = Some (merge_surrogates s, rest).
Proof. now apply (string_body_bounded (length s)). Qed.

Lemma scalar_codepoint c : scalar_value c = true -> codepoint c = true.
Proof.
  unfold scalar_value, codepoint. intros H. apply N.ltb_lt.
  apply orb_true_iff in H as [H|H].
  - apply N.ltb_lt in H. lia.
  - apply andb_true_iff in H as [_ H]. now apply N.ltb_lt in H.
Qed.

Lemma scalar_not_high c : scalar_value c = true -> is_high c = false.
Proof.
  unfold scalar_value. intros H. apply is_high_false. intros Hr.
  apply orb_true_iff in H as [H|H].
  - apply N.ltb_lt in H. lia.
  - apply andb_true_iff in H as [H _]. apply N.ltb_lt in H. lia.
Qed.

Lemma unicode_codepoints s : unicode s = true -> codepoints s = true.
Proof.
  unfold unicode, codepoints. induction s as [|c s IH]; [reflexivity|].
  cbn [forallb]. intros H. apply andb_true_iff in H as [Hc Hs].
  now rewrite (scalar_codepoint _ Hc), IH.
Qed.

(** Unicode text has no pair to merge. *)
Lemma merge_unicode s : unicode s = true -> merge_surrogates s = s.
Proof.
  unfold unicode. induction s as [|c s IH]; [reflexivity|].
  cbn [forallb]. intros H. apply andb_true_iff in H as [Hc Hs].
  cbn [merge_surrogates]. rewrite (scalar_not_high _ Hc). cbn [andb].
  rewrite IH by exact Hs. now destruct s.
Qed.

End StringFacts.

Module TokenFacts.
Import Encoder Json.

Lemma digits_split s :
  s = fst (digits s) ++ snd (digits s) /\
  forallb is_digit (fst (digits s)) = true.
Proof.
  induction s as [|c s [IH1 IH2]]; simpl; [auto|].
  destruct (is_digit c) eqn:Hc; [|auto].
  destruct (digits s) as [ds r]. simpl in *. rewrite Hc, IH2.
  split; [now f_equal | reflexivity].
Qed.

Lemma digit_number_char ds :
  forallb is_digit ds = true -> forallb number_char ds = true.
Proof.
  induction ds as [|c ds IH]; simpl; [auto|]. intros H.
  apply andb_true_iff in H as [Hc Hds]. unfold number_char at 1.
  now rewrite Hc, IH.
Qed.

Lemma frac_split s fr r :
  frac s = Some (fr, r) -> s = fr ++ r /\ forallb number_char fr = true.
Proof.
  destruct s as [|c s]; simpl; [now intros [= <- <-]|].
  destruct (c =? 46) eqn:Hc; [|now intros [= <- <-]].
  destruct (digits_split s) as [E D]. destruct (digits s) as [ds r'].
  simpl in *. destruct ds as [|d ds]; [discriminate|].
  intros [= <- <-]. split; [now rewrite E|].
  apply N.eqb_eq in Hc. subst c.
  change (forallb number_char (d :: ds) = true).
  now apply digit_number_char.
Qed.

Lemma exp_split s ex r :
  exp s = Some (ex, r) -> s = ex ++ r /\ forallb number_char ex = true.
Proof.
  destruct s as [|c s]; simpl; [now intros [= <- <-]|].
  destruct ((c =? 101) || (c =? 69)) eqn:Hc; [|now intros [= <- <-]].
  assert (Hnc : number_char c = true).
  { unfold number_char. apply orb_true_iff in Hc as [-> | ->];
      now rewrite ?orb_true_r. }
  destruct s as [|d t]; simpl; [discriminate|].
  destruct ((d =? 43) || (d =? 45)) eqn:Hd.
  - destruct (digits_split t) as [E D]. destruct (digits t) as [ds r'].
    simpl in *. destruct ds as [|e ds]; [discriminate|].
    intros [= <- <-]. split; [now rewrite E|].
    cbn [app forallb]. rewrite Hnc. cbn [andb].
    assert (Hnd : number_char d = true).
    { unfold number_char. apply orb_true_iff in Hd as [-> | ->];
        now rewrite ?orb_true_r. }
    rewrite Hnd. now apply (digit_number_char (e :: ds)).
  - destruct (digits_split (d :: t)) as [E D].
    destruct (digits (d :: t)) as [ds r'].
    simpl fst in *. simpl snd in *. destruct ds as [|e ds]; [discriminate|].
    intros [= <- <-]. split; [now rewrite E|].
    cbn [app forallb]. rewrite Hnc. cbn [andb].
    now apply (digit_number_char (e :: ds)).
Qed.

Lemma unsigned_split minus s v r :
  unsigned minus s = Some (v, r) ->
  exists tok, s = tok ++ r /\ forallb number_char tok = true.
Proof.
  unfold unsigned. destruct (digits_split s) as [E D].
  destruct (digits s) as [ip s2]. simpl in *.
  destruct (int_part_ok ip); [|discriminate].
  destruct (frac s2) as [[fr s3]|] eqn:Hfr; [|discriminate].
  destruct (exp s3) as [[ex s4]|] eqn:Hex; [|discriminate].
  destruct (frac_split _ _ _ Hfr) as [E2 D2].
  destruct (exp_split _ _ _ Hex) as [E3 D3].
  intros Hv. assert (r = s4) as -> by (destruct fr, ex; now inversion Hv).
  exists (ip ++ fr ++ ex). split.
  - now rewrite E, E2, E3, <- !app_assoc.
  - rewrite !forallb_app, D2, D3. now rewrite (digit_number_char _ D).
Qed.

(** A number is made of number characters. *)
Lemma number_chars s v :
  number s = Some (v, []) -> forallb number_char s = true.
Proof.
  destruct s as [|c s]; simpl; [discriminate|].
  destruct (c =? 45) eqn:Hc; intros H.
  - destruct (unsigned_split _ _ _ _ H) as (tok & E & D).
    rewrite app_nil_r in E. subst tok. rewrite D.
    unfold number_char. now rewrite Hc, !orb_true_r.
  - destruct (unsigned_split _ _ _ _ H) as (tok & E & D).
    rewrite app_nil_r in E. now subst tok.
Qed.

Lemma number_char_ascii c : number_char c = true -> c < 128.
Proof.
  unfold number_char, is_digit. intros H.
  repeat (apply orb_true_iff in H as [H|H]);
    try (apply N.eqb_eq in H; subst; reflexivity).
  apply andb_true_iff in H as [_ H]. apply N.leb_le in H. lia.
Qed.

Lemma ascii_scalar c : c < 128 -> scalar_value c = true.
Proof.
  intros H. unfold scalar_value. apply orb_true_iff. left.
  apply N.ltb_lt. lia.
Qed.

Lemma float_literal_number r :
  float_literal r = true -> number r = Some (PyFloat (finite r), []).
Proof.
  unfold float_literal. intros H.
  destruct (number r) as [[v rest]|]; [|discriminate].
  destruct v as [|b|n|f|s|lst|lst|dct|]; try discriminate.
  destruct f as [| | |t]; try discriminate.
  destruct rest; [|discriminate].
  apply bool_decide_eq_true in H. now subst.
Qed.

Lemma number_intstr_alone n : number (intstr n) = Some (PyInt n, []).
Proof.
  pose proof (NumberFacts.number_intstr n [] eq_refl) as H.
  now rewrite app_nil_r in H.
Qed.

Lemma intstr_chars n : forallb number_char (intstr n) = true.
Proof. apply (number_chars _ _ (number_intstr_alone n)). Qed.

Lemma float_literal_chars r :
  float_literal r = true -> forallb number_char r = true.
Proof. intros H. apply (number_chars _ _ (float_literal_number _ H)). Qed.

Lemma number_chars_unicode s :
  forallb number_char s = true -> unicode s = true.
Proof.
  unfold unicode. induction s as [|c s IH]; simpl; [auto|]. intros H.
  apply andb_true_iff in H as [Hc Hs].
  now rewrite (ascii_scalar _ (number_char_ascii _ Hc)), IH.
Qed.

(** The text of an accepted key is a string of code points. *)
Lemma key_text_codepoints k t :
  key_wf k = true -> key_text k = Some t -> codepoints t = true.
Proof.
  destruct k as [s|n|f|[]| |]; simpl; intros Hwf [= <-]; try reflexivity.
  - exact Hwf.
  - apply StringFacts.unicode_codepoints, number_chars_unicode, intstr_chars.
  - destruct f as [| | |r]; try reflexivity.
    now apply StringFacts.unicode_codepoints, number_chars_unicode,
      float_literal_chars.
Qed.

End TokenFacts.

Module EncodedText.
Import Encoder EncoderFacts Json TokenFacts.

#[local] Arguments seq : simpl never.
#[local] Arguments yield : simpl never.

Lemma raised_encodable v level :
  encodable v = true -> raised (iterencode v level) = None.
Proof. intros H. now rewrite raised_iterencode, H. Qed.

Lemma iterencode_tuple lst level :
  iterencode (PyTuple lst) level = iterencode (PyList lst) level.
Proof. reflexivity. Qed.

(** What the loops write, item by item. *)
Lemma written_list_loop_cons lvl buf v vs :
  encodable v = true ->
  written (list_loop iterencode lvl buf (v :: vs))
  = buf ++ written (iterencode v lvl)
    ++ written (list_loop iterencode lvl (44 :: newline_indent lvl) vs).
Proof.
  intros He. simpl. destruct (atom v) as [t|] eqn:Ha.
  - rewrite written_seq by reflexivity.
    rewrite (atom_iterencode _ _ lvl Ha), !written_yield.
    now rewrite <- app_assoc.
  - rewrite written_seq.
    + rewrite written_seq by reflexivity. rewrite written_yield.
      now rewrite <- app_assoc.
    + rewrite raised_seq by reflexivity. now apply raised_encodable.
Qed.

Lemma written_list lst level :
  forallb encodable lst = true -> lst <> [] ->
  written (iterencode (PyList lst) level)
  = written (list_loop iterencode (S level) (91 :: newline_indent (S level))
               lst)
    ++ newline_indent level ++ [93].
Proof.
  intros He Hne. destruct lst as [|v vs]; [contradiction|].
  change (iterencode (PyList (v :: vs)) level)
    with (list_loop iterencode (S level) (91 :: newline_indent (S level))
            (v :: vs)
          ;> yield (newline_indent level) ;> yield (str "]")).
  rewrite written_seq.
  - rewrite written_seq by reflexivity. now rewrite !written_yield.
  - rewrite raised_list_loop; [now rewrite He|].
    apply Forall_forall. intros x _ l. apply raised_iterencode.
Qed.

Lemma written_dict_loop_cons lvl first k t v items :
  key_text k = Some t -> encodable v = true ->
  written (dict_loop iterencode lvl first ((k, v) :: items))
  = (if first then [] else 44 :: newline_indent lvl)
    ++ encoder t ++ 58 :: 32 :: written (iterencode v lvl)
    ++ written (dict_loop iterencode lvl false items).
Proof.
  intros Hk He. cbn [dict_loop]. rewrite Hk.
  assert (Hfirst : raised (if first then stop
                           else yield (44 :: newline_indent lvl)) = None)
    by now destruct first.
  assert (Hv : match atom v with
               | Some t => yield t
               | None => iterencode v lvl
               end = iterencode v lvl).
  { destruct (atom v) as [a|] eqn:Ha; [|reflexivity].
    now rewrite (atom_iterencode _ _ lvl Ha). }
  rewrite Hv. rewrite (written_seq _ _ Hfirst).
  rewrite !written_seq; try reflexivity.
  - destruct first; now rewrite !written_yield.
  - now apply raised_encodable.
Qed.

Lemma written_dict dct level :
  encodable (PyDict dct) = true -> dct <> [] ->
  written (iterencode (PyDict dct) level)
  = 123 :: newline_indent (S level)
    ++ written (dict_loop iterencode (S level) true dct)
    ++ newline_indent level ++ [125].
Proof.
  intros He Hne. destruct dct as [|kv items]; [contradiction|].
  change (iterencode (PyDict (kv :: items)) level)
    with (yield (str "{") ;> yield (newline_indent (S level)) ;>
          dict_loop iterencode (S level) true (kv :: items) ;>
          yield (newline_indent level) ;> yield (str "}")).
  rewrite !written_seq; try reflexivity.
  - now rewrite !written_yield.
  - rewrite raised_dict_loop.
    + change (encodable (PyDict (kv :: items)))
        with (forallb (fun kv => key_ok (fst kv) && encodable (snd kv))
                (kv :: items)) in He.
      now rewrite He.
    + apply Forall_forall. intros x _ l. apply raised_iterencode.
Qed.

(** White space and indentation. *)
Lemma skip_ws_start c s : is_ws c = false -> skip_ws (c :: s) = c :: s.
Proof. intros H. simpl. now rewrite H. Qed.

Lemma skip_ws_indent level c s :
  is_ws c = false -> skip_ws (newline_indent level ++ c :: s) = c :: s.
Proof.
  intros H. unfold newline_indent.
  change (skip_ws ((10 :: repeat 32 (4 * level)%nat) ++ c :: s))
    with (skip_ws (repeat 32 (4 * level)%nat ++ c :: s)).
  induction (4 * level)%nat as [|k IH]; simpl; [now rewrite H | exact IH].
Qed.

Lemma value_start_not_ws c : value_start c = true -> is_ws c = false.
Proof.
  unfold value_start, is_ws, is_digit. intros H.
  repeat (apply orb_true_iff in H as [H|H]);
    try (apply N.eqb_eq in H; now subst).
  apply andb_true_iff in H as [H1 H2]. apply N.leb_le in H1, H2.
  repeat (apply orb_false_iff; split); apply N.eqb_neq; lia.
Qed.

Lemma value_start_not_close c :
  value_start c = true -> (93 =? c) = false /\ (125 =? c) = false.
Proof.
  unfold value_start, is_digit. intros H.
  repeat (apply orb_true_iff in H as [H|H]);
    try (apply N.eqb_eq in H; now subst).
  apply andb_true_iff in H as [H1 H2]. apply N.leb_le in H1, H2.
  split; apply N.eqb_neq; lia.
Qed.

(** A number starts a value, and the reader reads it as a number. *)
Lemma number_start s r :
  number s = Some r ->
  exists c t, s = c :: t /\ ((c =? 45) || is_digit c) = true.
Proof.
  destruct s as [|c t]; simpl; [discriminate|]. intros H.
  exists c, t. split; [reflexivity|].
  destruct (c =? 45); [reflexivity|]. simpl.
  unfold unsigned in H. simpl in H.
  destruct (is_digit c); [reflexivity|]. discriminate.
Qed.

Lemma value_number fuel c t :
  ((c =? 45) || is_digit c) = true ->
  value (S fuel) (c :: t) = number (c :: t).
Proof.
  intros H.
  assert (Hc : c = 45 \/ 48 <= c <= 57).
  { apply orb_true_iff in H as [H|H]; [left; now apply N.eqb_eq|right].
    unfold is_digit in H. apply andb_true_iff in H as [H1 H2].
    apply N.leb_le in H1, H2. lia. }
  cbn [value].
  replace (c =? 123) with false by (symmetry; apply N.eqb_neq; lia).
  replace (c =? 91) with false by (symmetry; apply N.eqb_neq; lia).
  replace (c =? 34) with false by (symmetry; apply N.eqb_neq; lia).
  replace (c =? 110) with false by (symmetry; apply N.eqb_neq; lia).
  replace (c =? 116) with false by (symmetry; apply N.eqb_neq; lia).
  replace (c =? 102) with false by (symmetry; apply N.eqb_neq; lia).
  reflexivity.
Qed.

Lemma number_value_start c :
  ((c =? 45) || is_digit c) = true -> value_start c = true.
Proof.
  unfold value_start. intros H.
  apply orb_true_iff in H as [-> | ->]; now rewrite ?orb_true_r.
Qed.

(** The first character of an encoded JSON value. *)
Lemma written_start v level :
  wellformed v = true -> encodable v = true -> finite_floats v = true ->
  exists c t, written (iterencode v level) = c :: t /\ value_start c = true.
Proof.
  assert (Hlist : forall lst, forallb encodable lst = true ->
    exists c t, written (iterencode (PyList lst) level) = c :: t
                /\ value_start c = true).
  { intros [|x vs] He; [now exists 91, [93]|].
    rewrite (written_list (x :: vs) level He) by discriminate.
    cbn [forallb] in He. apply andb_true_iff in He as [He _].
    rewrite written_list_loop_cons by exact He. now eexists _, _. }
  destruct v as [|b|n|f|s|lst|lst|dct|]; intros W E F; try discriminate.
  - now exists 110, (str "ull").
  - destruct b; [now exists 116, (str "rue") | now exists 102, (str "alse")].
  - cbn [iterencode atom]. rewrite written_yield.
    destruct (number_start _ _ (number_intstr_alone n)) as (c & t & -> & Hc).
    exists c, t. split; [reflexivity | now apply number_value_start].
  - cbn [iterencode atom]. rewrite written_yield.
    destruct f as [| | |r]; try discriminate.
    cbn [floatstr]. cbn [wellformed float_wf] in W.
    destruct (number_start _ _ (float_literal_number _ W)) as (c & t & -> & Hc).
    exists c, t. split; [reflexivity | now apply number_value_start].
  - cbn [iterencode atom]. rewrite written_yield. unfold encoder.
    now eexists _, _.
  - now apply Hlist.
  - rewrite iterencode_tuple. now apply Hlist.
  - destruct dct as [|kv items]; [now exists 123, [125]|].
    rewrite (written_dict (kv :: items) level E) by discriminate.
    now eexists _, _.
Qed.

(** On JSON values the three conditions hold and [norm] changes nothing. *)
Lemma json_value_jsonable v : json_value v = true -> jsonable v = true.
Proof.
  unfold jsonable.
  induction v as [|b|n|f|s|lst IH|lst IH|dct IH|] using pyval_ind;
    intros H; try reflexivity; try discriminate.
  - destruct f; try discriminate. cbn in *. now rewrite H.
  - cbn [json_value wellformed encodable finite_floats] in *.
    now rewrite (StringFacts.unicode_codepoints _ H).
  - cbn [json_value wellformed encodable finite_floats] in *.
    induction IH as [|v vs Hv _ IHvs]; [reflexivity|]. cbn [forallb] in *.
    apply andb_true_iff in H as [H1 H2].
    specialize (Hv H1). specialize (IHvs H2).
    apply andb_true_iff in Hv as [Hv Hv3].
    apply andb_true_iff in Hv as [Hv1 Hv2].
    apply andb_true_iff in IHvs as [Hs Hs3].
    apply andb_true_iff in Hs as [Hs1 Hs2].
    now rewrite Hv1, Hv2, Hv3, Hs1, Hs2, Hs3.
  - cbn [json_value wellformed encodable finite_floats] in *.
    induction IH as [|[k v] items Hv _ IHi]; [reflexivity|].
    cbn [forallb fst snd] in *.
    apply andb_true_iff in H as [H1 H2]. apply andb_true_iff in H1 as [Hk H1].
    specialize (Hv H1). specialize (IHi H2).
    apply andb_true_iff in Hv as [Hv Hv3].
    apply andb_true_iff in Hv as [Hv1 Hv2].
    apply andb_true_iff in IHi as [Hs Hs3].
    apply andb_true_iff in Hs as [Hs1 Hs2].
    destruct k as [s| | | | |]; try discriminate.
    cbn [json_key key_wf key_ok] in *.
    rewrite (StringFacts.unicode_codepoints _ Hk).
    now rewrite Hv1, Hv2, Hv3, Hs1, Hs2, Hs3.
Qed.

Lemma json_value_norm v : json_value v = true -> norm v = v.
Proof.
  induction v as [|b|n|f|s|lst IH|lst IH|dct IH|] using pyval_ind;
    intros H; try reflexivity; try discriminate.
  - cbn [json_value norm] in *. now rewrite StringFacts.merge_unicode.
  - cbn [json_value norm] in *. f_equal.
    induction IH as [|v vs Hv _ IHvs]; [reflexivity|]. cbn [forallb map] in *.
    apply andb_true_iff in H as [H1 H2]. now rewrite Hv, IHvs.
  - cbn [json_value norm] in *. f_equal.
    induction IH as [|[k v] items Hv _ IHi]; [reflexivity|].
    cbn [forallb map fst snd] in *.
    apply andb_true_iff in H as [H1 H2]. apply andb_true_iff in H1 as [Hk H1].
    destruct k as [s| | | | |]; try discriminate. cbn [json_key] in Hk.
    unfold norm_key at 1. cbn [key_text].
    now rewrite StringFacts.merge_unicode, Hv, IHi.
Qed.

End EncodedText.

Module RoundTrip.
Import Encoder EncoderFacts Json TokenFacts EncodedText.

#[local] Arguments seq : simpl never.
#[local] Arguments yield : simpl never.

Lemma value_S fuel c s1 :
  value (S fuel) (c :: s1) =
  if c =? 123 then
    match expect [125] (skip_ws s1) with
    | Some rest => Some (PyDict [], rest)
    | None =>
        match members fuel (skip_ws s1) with
        | Some (ms, rest) => Some (PyDict ms, rest)
        | None => None
        end
    end
  else if c =? 91 then
    match expect [93] (skip_ws s1) with
    | Some rest => Some (PyList [], rest)
    | None =>
        match elements fuel (skip_ws s1) with
        | Some (vs, rest) => Some (PyList vs, rest)
        | None => None
        end
    end
  else if c =? 34 then
    match string_body s1 with
    | Some (cs, rest) => Some (PyStr cs, rest)
    | None => None
    end
  else if c =? 110 then
    match expect (str "ull") s1 with
    | Some rest => Some (PyNone, rest)
    | None => None
    end
  else if c =? 116 then
    match expect (str "rue") s1 with
    | Some rest => Some (PyBool true, rest)
    | None => None
    end
  else if c =? 102 then
    match expect (str "alse") s1 with
    | Some rest => Some (PyBool false, rest)
    | None => None
    end
  else number (c :: s1).
Proof. reflexivity. Qed.

Lemma elements_S fuel s :
  elements (S fuel) s =
  match value fuel s with
  | None => None
  | Some (v, s1) =>
      match skip_ws s1 with
      | [] => None
      | c :: s2 =>
          if c =? 93 then Some ([v], s2)
          else if c =? 44 then
            match elements fuel (skip_ws s2) with
            | Some (vs, rest) => Some (v :: vs, rest)
            | None => None
            end
          else None
      end
  end.
Proof. reflexivity. Qed.

Lemma members_S fuel s :
  members (S fuel) s =
  match expect [34] s with
  | None => None
  | Some s1 =>
      match string_body s1 with
      | None => None
      | Some (k, s2) =>
          match expect [58] (skip_ws s2) with
          | None => None
          | Some s3 =>
              match value fuel (skip_ws s3) with
              | None => None
              | Some (v, s4) =>
                  match skip_ws s4 with
                  | [] => None
                  | c :: s5 =>
                      if c =? 125 then Some ([(KStr k, v)], s5)
                      else if c =? 44 then
                        match members fuel (skip_ws s5) with
                        | Some (ms, rest) => Some ((KStr k, v) :: ms, rest)
                        | None => None
                        end
                      else None
                  end
              end
          end
      end
  end.
Proof. reflexivity. Qed.

Lemma skip_ws_value v level s :
  wellformed v = true -> encodable v = true -> finite_floats v = true ->
  skip_ws (written (iterencode v level) ++ s)
  = written (iterencode v level) ++ s.
Proof.
  intros W E F. destruct (written_start v level W E F) as (c & t & -> & Hc).
  apply skip_ws_start, value_start_not_ws, Hc.
Qed.

Lemma skip_ws_indent_value k v level s :
  wellformed v = true -> encodable v = true -> finite_floats v = true ->
  skip_ws (newline_indent k ++ written (iterencode v level) ++ s)
  = written (iterencode v level) ++ s.
Proof.
  intros W E F. destruct (written_start v level W E F) as (c & t & -> & Hc).
  apply skip_ws_indent, value_start_not_ws, Hc.
Qed.

Lemma written_nonempty v level :
  wellformed v = true -> encodable v = true -> finite_floats v = true ->
  (1 <= length (written (iterencode v level)))%nat.
Proof.
  intros W E F. destruct (written_start v level W E F) as (c & t & -> & _).
  simpl. lia.
Qed.

(** The values of an array after the first indentation. *)
Lemma elements_written lvl lvl0 vs :
  Forall reads_back vs ->
  forall v fuel rest,
    reads_back v ->
    wellformed v = true -> encodable v = true -> finite_floats v = true ->
    forallb wellformed vs = true -> forallb encodable vs = true ->
    forallb finite_floats vs = true ->
    (length (written (iterencode v lvl)
             ++ written (list_loop iterencode lvl
                           (44 :: newline_indent lvl) vs))%N < fuel)%nat ->
    elements fuel
      (written (iterencode v lvl)
       ++ written (list_loop iterencode lvl (44 :: newline_indent lvl) vs)
       ++ newline_indent lvl0 ++ 93 :: rest)
    = Some (norm v :: map norm vs, rest).
Proof.
  induction 1 as [|v' vs Hv' _ IH]; intros v fuel rest Hv W E F Ws Es Fs Hlen.
  - change (written (list_loop iterencode lvl (44 :: newline_indent lvl) []))
      with (@nil N) in *.
    rewrite app_nil_r in Hlen. cbn [app].
    destruct fuel as [|f]; [lia|]. rewrite elements_S.
    rewrite (Hv W E F lvl f) by (reflexivity || lia).
    rewrite skip_ws_indent by reflexivity. reflexivity.
  - cbn [forallb] in Ws, Es, Fs.
    both Ws W' Ws. both Es E' Es. both Fs F' Fs.
    rewrite written_list_loop_cons in * by exact E'.
    pose proof (written_nonempty v lvl W E F) as Hn.
    lengths Hlen.
    destruct fuel as [|f]; [lia|]. rewrite elements_S.
    flatten.
    rewrite (Hv W E F lvl f) by (reflexivity || lia).
    cbn [skip_ws is_ws N.eqb Pos.eqb orb].
    rewrite skip_ws_indent_value by assumption.
    rewrite IH; try assumption; [reflexivity|].
    goal_lengths. lia.
Qed.

(** The members of an object after the first indentation. *)
Lemma members_written lvl lvl0 items :
  Forall (fun kv => reads_back (snd kv)) items ->
  forall k t v fuel rest,
    reads_back v ->
    key_text k = Some t -> key_wf k = true ->
    wellformed v = true -> encodable v = true -> finite_floats v = true ->
    forallb (fun kv => key_wf (fst kv) && wellformed (snd kv)) items = true ->
    forallb (fun kv => key_ok (fst kv) && encodable (snd kv)) items = true ->
    forallb (fun kv => finite_floats (snd kv)) items = true ->
    (length (encoder t ++ 58 :: 32 :: written (iterencode v lvl)
             ++ written (dict_loop iterencode lvl false items))%N
     < fuel)%nat ->
    members fuel
      (encoder t ++ 58 :: 32 :: written (iterencode v lvl)
       ++ written (dict_loop iterencode lvl false items)
       ++ newline_indent lvl0 ++ 125 :: rest)
    = Some ((KStr (merge_surrogates t), norm v)
            :: map (fun kv => (norm_key (fst kv), norm (snd kv))) items, rest).
Proof.
  induction 1 as [|[k' v'] items Hv' _ IH];
    intros k t v fuel rest Hv Hk Wk W E F Ws Es Fs Hlen.
  - change (written (dict_loop iterencode lvl false [])) with (@nil N) in *.
    rewrite app_nil_r in Hlen. cbn [app].
    lengths Hlen.
    destruct fuel as [|f]; [lia|]. rewrite members_S.
    unfold encoder. cbn [app expect N.eqb Pos.eqb].
    flatten.
    rewrite StringFacts.string_body_encoded
      by apply (key_text_codepoints k t Wk Hk).
    cbn [skip_ws is_ws N.eqb Pos.eqb orb expect].
    rewrite (skip_ws_value v lvl) by assumption.
    rewrite (Hv W E F lvl f) by (reflexivity || lia).
    rewrite skip_ws_indent by reflexivity. reflexivity.
  - cbn [forallb fst snd] in Ws, Es, Fs.
    both Ws W' Ws. both W' Wk' W'.
    both Es E' Es. both E' Ek' E'.
    both Fs F' Fs.
    destruct (key_text_ok _ Ek') as [t' Ht'].
    rewrite (written_dict_loop_cons _ _ _ t') in * by assumption.
    lengths Hlen.
    destruct fuel as [|f]; [lia|]. rewrite members_S.
    unfold encoder at 1. cbn [app expect N.eqb Pos.eqb].
    flatten.
    rewrite StringFacts.string_body_encoded
      by apply (key_text_codepoints k t Wk Hk).
    cbn [skip_ws is_ws N.eqb Pos.eqb orb expect].
    rewrite (skip_ws_value v lvl) by assumption.
    rewrite (Hv W E F lvl f) by (reflexivity || lia).
    cbn [skip_ws is_ws N.eqb Pos.eqb orb].
    assert (Hskip : forall s,
      skip_ws (newline_indent lvl ++ encoder t' ++ s) = encoder t' ++ s).
    { intros s. unfold encoder. cbn [app]. now apply skip_ws_indent. }
    rewrite Hskip, (IH k' t' v' f rest); try assumption.
    + cbn [map fst snd]. unfold norm_key at 2. now rewrite Ht'.
    + goal_lengths. lia.
Qed.

Lemma reads_back_list lst :
  Forall reads_back lst ->
  forallb wellformed lst = true -> forallb encodable lst = true ->
  forallb finite_floats lst = true ->
  forall level fuel rest,
    (length (written (iterencode (PyList lst) level)) <= fuel)%nat ->
    value fuel (written (iterencode (PyList lst) level) ++ rest)
    = Some (PyList (map norm lst), rest).
Proof.
  intros IH W E F level fuel rest Hlen.
  destruct lst as [|v vs].
  { destruct fuel as [|fuel]; [simpl in Hlen; lia | reflexivity]. }
  rewrite (written_list (v :: vs) level E) in * by discriminate.
  cbn [forallb] in W, E, F.
  both W Wv Ws. both E Ev Es. both F Fv Fs.
  rewrite written_list_loop_cons in * by exact Ev.
  apply Forall_cons in IH as [Hv Hvs].
  lengths Hlen.
  destruct fuel as [|fuel]; [lia|].
  flatten. rewrite value_S. cbn [N.eqb Pos.eqb].
  rewrite skip_ws_indent_value by assumption.
  destruct (written_start v (S level) Wv Ev Fv) as (c & t & Eq & Hc).
  destruct (value_start_not_close c Hc) as [Hc1 _].
  rewrite Eq at 1. cbn [app expect]. rewrite Hc1.
  rewrite (elements_written (S level) level vs Hvs v fuel rest Hv);
    try assumption; [reflexivity|].
  goal_lengths. lia.
Qed.

(** Every well-formed encodable value without non-finite floats is read
    back. *)
Lemma reads_back_all v : reads_back v.
Proof.
  induction v as [|b|n|f|s|lst IH|lst IH|dct IH|] using pyval_ind;
    intros W E F level fuel rest Hrest Hlen; try discriminate.
  - destruct fuel as [|fuel]; [simpl in Hlen; lia | reflexivity].
  - destruct fuel as [|fuel]; [destruct b; simpl in Hlen; lia|].
    now destruct b.
  - cbn [iterencode atom norm] in *. rewrite written_yield in *.
    destruct (number_start _ _ (number_intstr_alone n)) as (c & t & Eq & Hc).
    destruct fuel as [|fuel]; [rewrite Eq in Hlen; simpl in Hlen; lia|].
    rewrite Eq. cbn [app]. rewrite value_number by exact Hc.
    change (c :: t ++ rest) with ((c :: t) ++ rest). rewrite <- Eq.
    now apply NumberFacts.number_intstr.
  - cbn [iterencode atom norm] in *. rewrite written_yield in *.
    destruct f as [| | |r]; try discriminate.
    cbn [floatstr wellformed float_wf] in *.
    pose proof (float_literal_number _ W) as Hnum.
    destruct (number_start _ _ Hnum) as (c & t & Eq & Hc).
    destruct fuel as [|fuel]; [rewrite Eq in Hlen; simpl in Hlen; lia|].
    rewrite Eq. cbn [app]. rewrite value_number by exact Hc.
    change (c :: t ++ rest) with ((c :: t) ++ rest). rewrite <- Eq.
    apply (NumberFacts.number_app _ _ _ _ Hrest Hnum).
  - cbn [iterencode atom wellformed norm] in *. rewrite written_yield in *.
    destruct fuel as [|fuel]; [simpl in Hlen; lia|].
    unfold encoder. cbn [app]. rewrite value_S. cbn [N.eqb Pos.eqb].
    flatten.
    now rewrite StringFacts.string_body_encoded.
  - now apply reads_back_list.
  - rewrite iterencode_tuple in *. now apply reads_back_list.
  - destruct dct as [|[k v] items].
    { destruct fuel as [|fuel]; [simpl in Hlen; lia | reflexivity]. }
    rewrite (written_dict _ level E) in * by discriminate.
    cbn [wellformed encodable finite_floats forallb fst snd] in W, E, F.
    both W W' Ws. both W' Wk Wv.
    both E E' Es. both E' Ek Ev.
    both F Fv Fs.
    destruct (key_text_ok _ Ek) as [t Ht].
    rewrite (written_dict_loop_cons _ _ _ t) in * by assumption.
    apply Forall_cons in IH as [Hv Hitems]. cbn [snd] in Hv.
    lengths Hlen.
    destruct fuel as [|fuel]; [lia|].
    flatten. rewrite value_S. cbn [N.eqb Pos.eqb].
    assert (Hskip : forall s,
      skip_ws (newline_indent (S level) ++ encoder t ++ s) = encoder t ++ s).
    { intros s. unfold encoder. cbn [app]. now apply skip_ws_indent. }
    rewrite Hskip. unfold encoder at 1. cbn [app expect N.eqb Pos.eqb].
    fold (encoder t).
    rewrite (members_written (S level) level items Hitems k t v fuel rest Hv);
      try assumption.
    + change (norm (PyDict ((k, v) :: items)))
        with (PyDict ((norm_key k, norm v)
                      :: map (fun kv => (norm_key (fst kv), norm (snd kv)))
                           items)).
      unfold norm_key at 2. now rewrite Ht.
    + goal_lengths. lia.
Qed.

(** [json.loads] of what the encoder wrote is the value as JSON shows it. *)
Lemma loads_written v :
  jsonable v = true -> loads (written (iterencode v 0%nat)) = Some (norm v).
Proof.
  unfold jsonable. intros J. both J J F. both J W E.
  unfold loads.
  rewrite <- (app_nil_r (written (iterencode v 0%nat))) at 2.
  rewrite skip_ws_value by assumption.
  rewrite (reads_back_all v W E F 0%nat _ []) by (reflexivity || lia).
  reflexivity.
Qed.

End RoundTrip.

Module Layout.
Import Encoder EncoderFacts Json TokenFacts EncodedText.

#[local] Arguments seq : simpl never.
#[local] Arguments yield : simpl never.

(** *** Only ASCII is written *)

Lemma ascii_text_app a b :
  ascii_text (a ++ b) = ascii_text a && ascii_text b.
Proof. apply forallb_app. Qed.

Lemma ascii_yield c : ascii_text c = true -> ascii_gen (yield c).
Proof. intros H. repeat constructor. exact H. Qed.

Lemma ascii_seq g1 g2 : ascii_gen g1 -> ascii_gen g2 -> ascii_gen (g1 ;> g2).
Proof.
  unfold ascii_gen, seq. intros H1 H2.
  destruct (raised g1); [exact H1|]. simpl. now apply Forall_app.
Qed.

Lemma ascii_written g : ascii_gen g -> ascii_text (written g) = true.
Proof.
  unfold ascii_gen, written. induction 1 as [|c cs Hc _ IH]; [reflexivity|].
  simpl. now rewrite ascii_text_app, Hc, IH.
Qed.

Lemma hexdigit_ascii d : d < 16 -> (hexdigit d <? 128) = true.
Proof.
  intros H. unfold hexdigit. apply N.ltb_lt.
  destruct (d <? 10); lia.
Qed.

Lemma u_escape_ascii n : ascii_text (u_escape n) = true.
Proof.
  unfold u_escape, format_04x, ascii_text. cbn [forallb].
  rewrite !hexdigit_ascii; [reflexivity| | | |]; apply N.mod_lt; lia.
Qed.

Lemma escape_char_ascii c : ascii_text (escape_char c) = true.
Proof.
  unfold escape_char. destruct (ESCAPE_ASCII c) eqn:He.
  - unfold replace, ESCAPE_DCT.
    repeat match goal with
           | |- context [if ?b then _ else _] => destruct b
           end; try reflexivity; try apply u_escape_ascii.
    now rewrite ascii_text_app, !u_escape_ascii.
  - unfold ESCAPE_ASCII in He. apply orb_false_iff in He as [_ He].
    apply negb_false_iff, andb_true_iff in He as [_ He].
    apply N.leb_le in He. unfold ascii_text. simpl.
    rewrite andb_true_r. apply N.ltb_lt. lia.
Qed.

Lemma encoder_ascii s : ascii_text (encoder s) = true.
Proof.
  unfold encoder. change (34 :: flat_map escape_char s ++ [34])
    with ([34] ++ flat_map escape_char s ++ [34]).
  rewrite !ascii_text_app. simpl. rewrite andb_true_r.
  induction s as [|c s IH]; [reflexivity|]. simpl.
  now rewrite ascii_text_app, escape_char_ascii, IH.
Qed.

Lemma number_chars_ascii s :
  forallb number_char s = true -> ascii_text s = true.
Proof.
  unfold ascii_text. induction s as [|c s IH]; simpl; [auto|]. intros H.
  apply andb_true_iff in H as [Hc Hs]. rewrite IH by exact Hs.
  rewrite andb_true_r. apply N.ltb_lt. now apply number_char_ascii.
Qed.

Lemma floatstr_ascii f : float_wf f = true -> ascii_text (floatstr f) = true.
Proof.
  destruct f as [| | |r]; try reflexivity. simpl. intros H.
  now apply number_chars_ascii, float_literal_chars.
Qed.

Lemma atom_ascii v t :
  wellformed v = true -> atom v = Some t -> ascii_text t = true.
Proof.
  destruct v as [|[]|n|f|s|lst|lst|dct|]; simpl; intros W [= <-];
    try reflexivity.
  - apply number_chars_ascii, intstr_chars.
  - now apply floatstr_ascii.
  - apply encoder_ascii.
Qed.

Lemma newline_indent_ascii level : ascii_text (newline_indent level) = true.
Proof.
  unfold newline_indent, ascii_text. simpl.
  induction (level + (level + (level + (level + 0))))%nat; simpl; auto.
Qed.

Lemma ascii_list_loop lvl vs :
  Forall (fun v => wellformed v = true ->
                   forall level, ascii_gen (iterencode v level)) vs ->
  forallb wellformed vs = true ->
  forall buf, ascii_text buf = true ->
              ascii_gen (list_loop iterencode lvl buf vs).
Proof.
  induction 1 as [|v vs Hv _ IH]; intros W buf Hbuf; cbn [list_loop].
  - constructor.
  - cbn [forallb] in W. apply andb_true_iff in W as [Wv Ws].
    apply ascii_seq.
    + destruct (atom v) as [t|] eqn:Ha.
      * apply ascii_yield. rewrite ascii_text_app, Hbuf.
        now rewrite (atom_ascii v t Wv Ha).
      * apply ascii_seq; [now apply ascii_yield | now apply Hv].
    + apply IH; [exact Ws|].
      change (44 :: newline_indent lvl) with ([44] ++ newline_indent lvl).
      now rewrite ascii_text_app, newline_indent_ascii.
Qed.

Lemma ascii_dict_loop lvl items :
  Forall (fun kv => wellformed (snd kv) = true ->
                    forall level, ascii_gen (iterencode (snd kv) level))
         items ->
  forallb (fun kv => key_wf (fst kv) && wellformed (snd kv)) items = true ->
  forall first, ascii_gen (dict_loop iterencode lvl first items).
Proof.
  induction 1 as [|[k v] items Hv _ IH]; intros W first; cbn [dict_loop].
  - constructor.
  - cbn [forallb fst snd] in W. apply andb_true_iff in W as [Wkv Ws].
    apply andb_true_iff in Wkv as [Wk Wv].
    destruct (key_text k) as [t|]; [|constructor].
    apply ascii_seq; [|apply ascii_seq; [|apply ascii_seq; [|apply ascii_seq]]].
    + destruct first; [constructor|]. apply ascii_yield.
      change (44 :: newline_indent lvl) with ([44] ++ newline_indent lvl).
      now rewrite ascii_text_app, newline_indent_ascii.
    + apply ascii_yield, encoder_ascii.
    + now apply ascii_yield.
    + destruct (atom v) as [a|] eqn:Ha.
      * apply ascii_yield. now apply (atom_ascii v a).
      * now apply Hv.
    + now apply IH.
Qed.

(** Whatever the generator yields, to its end or to its exception, is
    ASCII. *)
Lemma ascii_iterencode v :
  wellformed v = true -> forall level, ascii_gen (iterencode v level).
Proof.
  assert (Hlist : forall lst level,
    Forall (fun v => wellformed v = true ->
                     forall level, ascii_gen (iterencode v level)) lst ->
    forallb wellformed lst = true ->
    ascii_gen (iterencode_list iterencode lst level)).
  { intros lst level IH W. destruct lst as [|x xs]; [now apply ascii_yield|].
    unfold iterencode_list. apply ascii_seq; [|apply ascii_seq].
    - apply ascii_list_loop; [exact IH | exact W |].
      change (91 :: newline_indent (S level))
        with ([91] ++ newline_indent (S level)).
      now rewrite ascii_text_app, newline_indent_ascii.
    - apply ascii_yield, newline_indent_ascii.
    - now apply ascii_yield. }
  induction v as [|b|n|f|s|lst IH|lst IH|dct IH|] using pyval_ind;
    intros W level.
  - now apply ascii_yield.
  - destruct b; now apply ascii_yield.
  - apply ascii_yield, number_chars_ascii, intstr_chars.
  - apply ascii_yield. now apply floatstr_ascii.
  - apply ascii_yield, encoder_ascii.
  - now apply Hlist.
  - now apply Hlist.
  - cbn [iterencode]. destruct dct as [|kv items]; [now apply ascii_yield|].
    unfold iterencode_dict.
    apply ascii_seq; [|apply ascii_seq; [|apply ascii_seq; [|apply ascii_seq]]].
    + now apply ascii_yield.
    + apply ascii_yield, newline_indent_ascii.
    + now apply ascii_dict_loop.
    + apply ascii_yield, newline_indent_ascii.
    + now apply ascii_yield.
  - constructor.
Qed.

End Layout.

Module Indentation.
Import Encoder EncoderFacts Json TokenFacts EncodedText.

#[local] Arguments seq : simpl never.
#[local] Arguments yield : simpl never.

Lemma plain_step c d s :
  plain c = true -> indented Code d (c :: s) = indented Code d s.
Proof.
  unfold plain. intros H. apply negb_true_iff in H.
  apply orb_false_iff in H as [H H32]. apply orb_false_iff in H as [H H10].
  apply orb_false_iff in H as [H H44]. apply orb_false_iff in H as [H Hcl].
  apply orb_false_iff in H as [H34 Hop].
  cbn [indented]. now rewrite H34, Hop, Hcl, H44, H10.
Qed.

Lemma indented_plain s d rest :
  forallb plain s = true ->
  indented Code d (s ++ rest) = indented Code d rest.
Proof.
  induction s as [|c s IH]; [reflexivity|]. cbn [forallb app]. intros H.
  both H Hc Hs. rewrite plain_step by exact Hc. now apply IH.
Qed.

Lemma number_char_plain c : number_char c = true -> plain c = true.
Proof.
  unfold number_char, is_digit, plain, opening, closing. intros H.
  assert (Hc : c = 43 \/ 45 <= c <= 46 \/ 48 <= c <= 57 \/ c = 69 \/ c = 101).
  { repeat (apply orb_true_iff in H as [H|H]);
      try (apply N.eqb_eq in H; lia).
    both H H1 H2. apply N.leb_le in H1, H2. lia. }
  apply negb_true_iff.
  repeat (apply orb_false_iff; split); apply N.eqb_neq; lia.
Qed.

Lemma number_chars_plain s :
  forallb number_char s = true -> forallb plain s = true.
Proof.
  induction s as [|c s IH]; [reflexivity|]. cbn [forallb]. intros H.
  both H Hc Hs. now rewrite (number_char_plain _ Hc), IH.
Qed.

Lemma floatstr_plain f : float_wf f = true -> forallb plain (floatstr f) = true.
Proof.
  destruct f as [| | |r]; try reflexivity. simpl. intros H.
  now apply number_chars_plain, float_literal_chars.
Qed.

(** String literals are passed over whole. *)
Lemma hexdigit_in_string c d s :
  indented InString d (hexdigit c :: s) = indented InString d s.
Proof.
  cbn [indented]. unfold hexdigit.
  destruct (c <? 10) eqn:Hc.
  - apply N.ltb_lt in Hc.
    replace (48 + c =? 92) with false by (symmetry; apply N.eqb_neq; lia).
    replace (48 + c =? 34) with false by (symmetry; apply N.eqb_neq; lia).
    reflexivity.
  - apply N.ltb_ge in Hc.
    replace (87 + c =? 92) with false by (symmetry; apply N.eqb_neq; lia).
    replace (87 + c =? 34) with false by (symmetry; apply N.eqb_neq; lia).
    reflexivity.
Qed.

Lemma u_escape_in_string n d s :
  indented InString d (u_escape n ++ s) = indented InString d s.
Proof.
  unfold u_escape, format_04x. cbn [app].
  change (indented InString d (92 :: 117 :: ?x)) with (indented InString d x).
  now rewrite !hexdigit_in_string.
Qed.

Lemma escape_char_in_string c d s :
  indented InString d (escape_char c ++ s) = indented InString d s.
Proof.
  unfold escape_char. destruct (ESCAPE_ASCII c) eqn:He.
  - unfold replace, ESCAPE_DCT.
    repeat match goal with
           | |- context [if ?b then _ else _] => destruct b
           end; try reflexivity; try apply u_escape_in_string.
    now rewrite <- app_assoc, !u_escape_in_string.
  - unfold ESCAPE_ASCII in He. apply orb_false_iff in He as [He _].
    apply orb_false_iff in He as [H1 H2].
    cbn [app indented]. now rewrite H1, H2.
Qed.

Lemma indented_encoder s d rest :
  indented Code d (encoder s ++ rest) = indented Code d rest.
Proof.
  unfold encoder. cbn [app].
  change (indented Code d (34 :: ?x)) with (indented InString d x).
  rewrite <- app_assoc. cbn [app].
  induction s as [|c s IH]; [reflexivity|].
  cbn [flat_map]. rewrite <- app_assoc. now rewrite escape_char_in_string.
Qed.

(** Lines. *)
Lemma indented_spaces n d s :
  indented Code d (repeat 32 n ++ s) = indented Code d s.
Proof. induction n as [|n IH]; [reflexivity | exact IH]. Qed.

Lemma leading_spaces_repeat n c s :
  (c =? 32) = false -> leading_spaces (repeat 32 n ++ c :: s) = n.
Proof.
  intros H. induction n as [|n IH]; simpl; [now rewrite H | now rewrite IH].
Qed.

Lemma after_spaces_repeat n c s :
  (c =? 32) = false -> after_spaces (repeat 32 n ++ c :: s) = Some c.
Proof.
  intros H. induction n as [|n IH]; simpl; [now rewrite H | exact IH].
Qed.

Lemma indented_line d level c s :
  (c =? 32) = false ->
  indented Code d (newline_indent level ++ c :: s)
  = Nat.eqb (4 * level) (4 * (if closing c then pred d else d))
    && indented Code d (c :: s).
Proof.
  intros H. unfold newline_indent. cbn [app].
  change (indented Code d (10 :: ?x))
    with (line_ok d x && indented Code d x).
  unfold line_ok.
  now rewrite after_spaces_repeat, leading_spaces_repeat, indented_spaces.
Qed.

Lemma begins_plain s : s <> [] -> forallb plain s = true -> begins s.
Proof.
  destruct s as [|c t]; [contradiction|]. intros _ H. cbn [forallb] in H.
  both H Hc Ht. exists c, t. split; [reflexivity|].
  unfold plain in Hc. apply negb_true_iff in Hc.
  apply orb_false_iff in Hc as [Hc H32]. apply orb_false_iff in Hc as [Hc _].
  apply orb_false_iff in Hc as [Hc _]. apply orb_false_iff in Hc as [_ Hcl].
  auto.
Qed.

Lemma written_begins v level :
  wellformed v = true -> encodable v = true ->
  begins (written (iterencode v level)).
Proof.
  assert (Hlist : forall lst, forallb encodable lst = true ->
                              begins (written (iterencode (PyList lst) level))).
  { intros [|x vs] He; [now exists 91, [93]|].
    rewrite (written_list (x :: vs) level He) by discriminate.
    cbn [forallb] in He. both He He1 He2.
    rewrite written_list_loop_cons by exact He1. now eexists _, _. }
  destruct v as [|b|n|f|s|lst|lst|dct|]; intros W E; try discriminate.
  - now exists 110, (str "ull").
  - destruct b; [now exists 116, (str "rue") | now exists 102, (str "alse")].
  - cbn [iterencode atom]. rewrite written_yield. apply begins_plain.
    + destruct (number_start _ _ (number_intstr_alone n)) as (c & t & -> & _).
      discriminate.
    + apply number_chars_plain, intstr_chars.
  - cbn [iterencode atom]. rewrite written_yield.
    destruct f as [| | |r];
      [now exists 78, (str "aN") | now exists 73, (str "nfinity")
       | now exists 45, (str "Infinity") |].
    cbn [floatstr]. cbn [wellformed float_wf] in W. apply begins_plain.
    + destruct (number_start _ _ (float_literal_number _ W))
        as (c & t & -> & _).
      discriminate.
    + now apply number_chars_plain, float_literal_chars.
  - cbn [iterencode atom]. rewrite written_yield. unfold encoder.
    now eexists _, _.
  - now apply Hlist.
  - rewrite iterencode_tuple. now apply Hlist.
  - destruct dct as [|kv items]; [now exists 123, [125]|].
    rewrite (written_dict (kv :: items) level E) by discriminate.
    now eexists _, _.
Qed.

Lemma indented_item v d rest :
  lays_out v -> wellformed v = true -> encodable v = true ->
  indented Code d (newline_indent d ++ written (iterencode v d) ++ rest)
  = indented Code d rest.
Proof.
  intros Hv W E.
  destruct (written_begins v d W E) as (c & t & Eq & Hc & Hcl).
  rewrite Eq. cbn [app]. rewrite indented_line by exact Hc.
  rewrite Hcl, Nat.eqb_refl. cbn [andb].
  change (c :: t ++ rest) with ((c :: t) ++ rest). rewrite <- Eq.
  now apply Hv.
Qed.

Lemma indented_close d c rest :
  closing c = true ->
  indented Code (S d) (newline_indent d ++ c :: rest) = indented Code d rest.
Proof.
  intros Hc.
  assert (H32 : (c =? 32) = false).
  { unfold closing in Hc. apply orb_true_iff in Hc as [Hc|Hc];
      apply N.eqb_eq in Hc; now subst. }
  assert (H34 : (c =? 34) = false /\ opening c = false).
  { unfold closing in Hc. apply orb_true_iff in Hc as [Hc|Hc];
      apply N.eqb_eq in Hc; now subst. }
  rewrite indented_line by exact H32. rewrite Hc. cbn [pred].
  rewrite Nat.eqb_refl. cbn [andb indented].
  destruct H34 as [-> ->]. now rewrite Hc.
Qed.

Lemma indented_key d t rest :
  indented Code d (newline_indent d ++ encoder t ++ 58 :: 32 :: rest)
  = indented Code d rest.
Proof.
  unfold encoder. cbn [app]. rewrite indented_line by reflexivity.
  cbn [closing N.eqb Pos.eqb orb]. rewrite Nat.eqb_refl. cbn [andb].
  change (34 :: (flat_map escape_char t ++ [34]) ++ 58 :: 32 :: rest)
    with (encoder t ++ 58 :: 32 :: rest).
  now rewrite indented_encoder.
Qed.

Lemma indented_list_rest lvl vs :
  Forall lays_out vs ->
  forallb wellformed vs = true -> forallb encodable vs = true ->
  forall rest,
    indented Code lvl
      (written (list_loop iterencode lvl (44 :: newline_indent lvl) vs)
       ++ rest)
    = indented Code lvl rest.
Proof.
  induction 1 as [|v vs Hv _ IH]; intros W E rest; [reflexivity|].
  cbn [forallb] in W, E. both W Wv Ws. both E Ev Es.
  rewrite written_list_loop_cons by exact Ev. flatten.
  change (indented Code lvl (44 :: ?x))
    with (breaks x && indented Code lvl x).
  change (breaks (newline_indent lvl ++ ?x)) with true. cbn [andb].
  rewrite indented_item by assumption. now apply IH.
Qed.

Lemma indented_dict_rest lvl items :
  Forall (fun kv => lays_out (snd kv)) items ->
  forallb (fun kv => key_wf (fst kv) && wellformed (snd kv)) items = true ->
  forallb (fun kv => key_ok (fst kv) && encodable (snd kv)) items = true ->
  forall rest,
    indented Code lvl
      (written (dict_loop iterencode lvl false items) ++ rest)
    = indented Code lvl rest.
Proof.
  induction 1 as [|[k v] items Hv _ IH]; intros W E rest; [reflexivity|].
  cbn [forallb fst snd] in W, E.
  both W W' Ws. both W' Wk Wv. both E E' Es. both E' Ek Ev.
  destruct (key_text_ok _ Ek) as [t Ht].
  rewrite (written_dict_loop_cons _ _ _ t) by assumption. flatten.
  change (indented Code lvl (44 :: ?x))
    with (breaks x && indented Code lvl x).
  change (breaks (newline_indent lvl ++ ?x)) with true. cbn [andb].
  rewrite indented_key. rewrite (Hv Wv Ev). now apply IH.
Qed.

Lemma lays_out_list lst :
  Forall lays_out lst ->
  forallb wellformed lst = true -> forallb encodable lst = true ->
  forall level rest,
    indented Code level (written (iterencode (PyList lst) level) ++ rest)
    = indented Code level rest.
Proof.
  intros IH W E level rest. destruct lst as [|v vs]; [reflexivity|].
  rewrite (written_list (v :: vs) level E) by discriminate.
  cbn [forallb] in W, E. both W Wv Ws. both E Ev Es.
  apply Forall_cons in IH as [Hv Hvs].
  rewrite written_list_loop_cons by exact Ev. flatten.
  change (indented Code level (91 :: ?x))
    with (breaks_or_closes x && indented Code (S level) x).
  change (breaks_or_closes (newline_indent (S level) ++ ?x)) with true.
  cbn [andb].
  rewrite indented_item by assumption.
  rewrite indented_list_rest by assumption.
  now apply indented_close.
Qed.

(** Everything the encoder writes to its end keeps to the layout. *)
Lemma lays_out_all v : lays_out v.
Proof.
  induction v as [|b|n|f|s|lst IH|lst IH|dct IH|] using pyval_ind;
    intros W E level rest; try discriminate.
  - reflexivity.
  - now destruct b.
  - cbn [iterencode atom]. rewrite written_yield.
    apply indented_plain, number_chars_plain, intstr_chars.
  - cbn [iterencode atom]. rewrite written_yield.
    now apply indented_plain, floatstr_plain.
  - cbn [iterencode atom]. rewrite written_yield. apply indented_encoder.
  - now apply lays_out_list.
  - rewrite iterencode_tuple. now apply lays_out_list.
  - destruct dct as [|[k v] items]; [reflexivity|].
    rewrite (written_dict _ level E) by discriminate.
    cbn [wellformed encodable forallb fst snd] in W, E.
    both W W' Ws. both W' Wk Wv. both E E' Es. both E' Ek Ev.
    apply Forall_cons in IH as [Hv Hitems]. cbn [snd] in Hv.
    destruct (key_text_ok _ Ek) as [t Ht].
    rewrite (written_dict_loop_cons _ _ _ t) by assumption. flatten.
    change (indented Code level (123 :: ?x))
      with (breaks_or_closes x && indented Code (S level) x).
    change (breaks_or_closes (newline_indent (S level) ++ ?x)) with true.
    cbn [andb].
    rewrite indented_key. rewrite (Hv Wv Ev).
    rewrite indented_dict_rest by assumption.
    now apply indented_close.
Qed.

Lemma indent4_written v :
  wellformed v = true -> encodable v = true ->
  indent4 (written (iterencode v 0%nat)) = true.
Proof.
  intros W E. unfold indent4.
  rewrite <- (app_nil_r (written (iterencode v 0%nat))).
  now rewrite (lays_out_all v W E).
Qed.

End Indentation.

Module Script.
Import Encoder EncoderFacts Run.


Lemma build_keys db ks data :
  keys db = Some ks -> build db = inr data ->
  keys_of data = first_occurrences ks.
Proof.
  unfold build. intros ->. apply (Mapping.accumulate_keys db ks []).
Qed.

Lemma build_ok db ks :
  keys db = Some ks -> readable db ks -> exists data, build db = inr data.
Proof.
  unfold build. intros -> H. apply Mapping.accumulate_ok.
  apply Forall_forall. exact H.
Qed.

Lemma build_lookup db ks data k :
  keys db = Some ks -> build db = inr data -> k ∈ ks ->
  lookup_key data k = getitem db k.
Proof.
  unfold build. intros -> H Hin.
  rewrite (Mapping.accumulate_lookup db ks [] data k H).
  now rewrite decide_True.
Qed.

Lemma build_values P db ks data :
  keys db = Some ks -> build db = inr data -> values_are P db ks ->
  Forall (fun kv => P (snd kv) = true) data.
Proof.
  unfold build. intros -> H HP.
  apply (Mapping.accumulate_values db ks [] data (fun v => P v = true) H);
    [constructor | exact HP].
Qed.

Lemma build_names P db ks data :
  keys db = Some ks -> build db = inr data -> names_are P ks ->
  Forall (fun kv => P (fst kv) = true) data.
Proof.
  intros Hk Hb HP. pose proof (build_keys db ks data Hk Hb) as Hkeys.
  apply Forall_forall. intros [k v] Hin. apply HP. simpl.
  assert (Hk' : k ∈ keys_of data).
  { unfold keys_of. apply list_elem_of_fmap. now exists (k, v). }
  rewrite Hkeys in Hk'. unfold first_occurrences in Hk'.
  apply Mapping.elem_of_fold_enter in Hk' as [Hk'|Hk']; [|exact Hk'].
  now apply not_elem_of_nil in Hk'.
Qed.

Lemma wellformed_as_pyval data :
  Forall (fun kv => codepoints (fst kv) = true) data ->
  Forall (fun kv => wellformed (snd kv) = true) data ->
  wellformed (as_pyval data) = true.
Proof.
  unfold as_pyval. cbn [wellformed].
  induction data as [|[k v] rest IH]; intros Hk Hv; [reflexivity|].
  apply Forall_cons in Hk as [Hk Hks]. apply Forall_cons in Hv as [Hv Hvs].
  cbn [map forallb fst snd key_wf] in *. now rewrite Hk, Hv, IH.
Qed.

Lemma finite_floats_as_pyval data :
  Forall (fun kv => finite_floats (snd kv) = true) data ->
  finite_floats (as_pyval data) = true.
Proof.
  unfold as_pyval. cbn [finite_floats].
  induction data as [|[k v] rest IH]; intros Hv; [reflexivity|].
  apply Forall_cons in Hv as [Hv Hvs].
  cbn [map forallb fst snd] in *. now rewrite Hv, IH.
Qed.

Lemma encodable_values data :
  Forall (fun kv => encodable (snd kv) = true) data <->
  encodable (as_pyval data) = true.
Proof.
  rewrite encodable_as_pyval, forallb_forall, Forall_forall.
  split; intros H x Hx; apply H; now apply list_elem_of_In.
Qed.

Lemma norm_as_pyval data : norm (as_pyval data) = PyDict (members_of data).
Proof.
  unfold as_pyval, members_of. cbn [norm]. f_equal.
  induction data as [|[k v] rest IH]; [reflexivity|].
  cbn [map fst snd]. now rewrite IH.
Qed.

Lemma member_members_of data k :
  Forall (fun kv => unicode (fst kv) = true) data ->
  Forall (fun kv => norm (snd kv) = snd kv) data ->
  member (members_of data) k = lookup_key data k.
Proof.
  intros Hn Hv. induction data as [|[k' v] rest IH]; [reflexivity|].
  apply Forall_cons in Hn as [Hk Hn]. apply Forall_cons in Hv as [Hv Hvs].
  cbn [members_of map member lookup_key fst snd] in *.
  rewrite Hv, (StringFacts.merge_unicode _ Hk).
  destruct (decide (k' = k)); [reflexivity | now apply IH].
Qed.


Lemma names_codepoints ks : names_are unicode ks -> names_are codepoints ks.
Proof. intros H k Hin. now apply StringFacts.unicode_codepoints, H. Qed.

(** A run over a store whose values the encoder writes as JSON: the run
    succeeds and the file reads back as the mapping. *)
Lemma export_reads_back db ks w :
  keys db = Some ks -> readable db ks ->
  values_are jsonable db ks -> names_are codepoints ks ->
  writable w = true ->
  exists data,
    build db = inr data /\
    export_db db w
    = (printed (dumped w (iterencode (as_pyval data) 0)), inr tt) /\
    backup (fst (export_db db w))
    = Some (written (iterencode (as_pyval data) 0)) /\
    Json.loads (written (iterencode (as_pyval data) 0))
    = Some (PyDict (members_of data)).
Proof.
  intros Hk Hread Hvals Hnames Hw.
  destruct (build_ok db ks Hk Hread) as [data Hb]. exists data.
  pose proof (build_values jsonable db ks data Hk Hb Hvals) as Hj.
  pose proof (build_names codepoints db ks data Hk Hb Hnames) as Hn.
  assert (J : jsonable (as_pyval data) = true).
  { unfold jsonable. rewrite wellformed_as_pyval, finite_floats_as_pyval.
    - rewrite andb_true_r. apply encodable_values.
      eapply Forall_impl; [exact Hj|]. intros kv H. unfold jsonable in H.
      apply andb_true_iff in H as [H _]. now apply andb_true_iff in H as [_ H].
    - eapply Forall_impl; [exact Hj|]. intros kv H. unfold jsonable in H.
      now apply andb_true_iff in H as [_ H].
    - exact Hn.
    - eapply Forall_impl; [exact Hj|]. intros kv H. unfold jsonable in H.
      apply andb_true_iff in H as [H _].
      now apply andb_true_iff in H as [H _]. }
  assert (E : raised (iterencode (as_pyval data) 0) = None).
  { rewrite raised_iterencode. unfold jsonable in J.
    apply andb_true_iff in J as [J _]. apply andb_true_iff in J as [_ ->].
    reflexivity. }
  assert (Hrun : export_db db w
                 = (printed (dumped w (iterencode (as_pyval data) 0)), inr tt)).
  { rewrite (export_db_dump db w data Hb Hw). cbv zeta. now rewrite E. }
  split; [exact Hb|]. split; [exact Hrun|]. split.
  - rewrite Hrun. cbn [fst]. now rewrite backup_printed, backup_dumped.
  - rewrite (RoundTrip.loads_written _ J). now rewrite norm_as_pyval.
Qed.

(** What a successful run implies. *)
Lemma success_inv db w :
  snd (export_db db w) = inr tt ->
  exists data,
    build db = inr data /\ writable w = true /\
    encodable (as_pyval data) = true /\
    export_db db w
    = (printed (dumped w (iterencode (as_pyval data) 0)), inr tt).
Proof.
  intros H. destruct (build db) as [e|data] eqn:Hb.
  { rewrite (export_db_store_failure db w e Hb) in H. discriminate. }
  destruct (writable w) eqn:Hw.
  2:{ rewrite (export_db_refused db w data Hb Hw) in H. discriminate. }
  rewrite (export_db_dump db w data Hb Hw) in *. cbv zeta in *.
  pose proof (raised_iterencode (as_pyval data) 0) as Hr.
  destruct (raised (iterencode (as_pyval data) 0)) as [e|] eqn:Hraised.
  { discriminate. }
  exists data. repeat split; try reflexivity.
  destruct (encodable (as_pyval data)); [reflexivity | discriminate].
Qed.

End Script.

Module RunFacts.
Import Encoder EncoderFacts Run Script.

#[local] Arguments seq : simpl never.
#[local] Arguments yield : simpl never.

Lemma lookup_key_In data k v : lookup_key data k = Some v -> In (k, v) data.
Proof.
  induction data as [|[k' v'] rest IH]; simpl; [discriminate|].
  destruct (decide (k' = k)) as [->|Hne].
  - intros [= ->]. now left.
  - intros H. right. now apply IH.
Qed.

Lemma writable_dumped w g : writable (printed (dumped w g)) = true.
Proof.
  unfold writable, printed, dumped. simpl. now rewrite lookup_insert_eq.
Qed.

(** A dump that fails has already written the opening brace and the first
    indentation. *)
Lemma failed_dump_started data e :
  raised (iterencode (as_pyval data) 0) = Some e ->
  exists t,
    written (iterencode (as_pyval data) 0)
    = str "{" ++ newline_indent 1 ++ t.
Proof.
  destruct data as [|kv rest]; [discriminate|]. intros _.
  unfold as_pyval. cbn [map iterencode iterencode_dict].
  rewrite written_seq by reflexivity. rewrite written_yield.
  rewrite written_seq by reflexivity. rewrite written_yield.
  now eexists.
Qed.

End RunFacts.

(** ** The properties of the export *)


(** C2, as amended.  For a store whose keys are Unicode text and whose
    values are JSON-representable and within the limits of the interpreter,
    exported to a destination that can be opened, the text in the
    destination file reads back as a JSON object that holds, under every
    enumerated key, exactly the value the store returned for it. *)
Theorem export_fidelity (db : store) (ks : list pystr) (w : world) :
  keys db = Some ks -> readable db ks ->
  values_are json_value db ks -> values_are within_limits db ks ->
  names_are unicode ks ->
  writable w = true ->
  exists text items,
    snd (export_db db w) = inr tt /\
    backup (fst (export_db db w)) = Some text /\
    Json.loads text = Some (PyDict items) /\
    forall k, k ∈ ks -> member items k = getitem db k.
Proof.
  intros Hk Hread Hvals _ Hnames Hw.
  assert (Hj : values_are jsonable db ks).
  { intros k v Hin Hget. apply EncodedText.json_value_jsonable.
    now apply (Hvals k v). }
  destruct (Script.export_reads_back db ks w Hk Hread Hj
              (Script.names_codepoints ks Hnames) Hw)
    as (data & Hb & Hrun & Hfile & Hloads).
  eexists _, (members_of data).
  split; [now rewrite Hrun|]. repeat split; try eassumption.
  intros k Hin. rewrite Script.member_members_of.
  - now apply (Script.build_lookup db ks).
  - apply (Script.build_names unicode db ks data Hk Hb Hnames).
  - pose proof (Script.build_values json_value db ks data Hk Hb Hvals) as H.
    eapply Forall_impl; [exact H|]. intros kv.
    apply EncodedText.json_value_norm.
Qed.

(** C3, failure of the enumeration.  When [db.keys()] raises, the run ends
    with [StoreUnavailable] and the world is as it was: no file created or
    modified, nothing printed. *)
Theorem enumeration_failure (db : store) (w : world) :
  keys db = None -> export_db db w = (w, inl StoreUnavailable).
Proof.
  intros H. apply Run.export_db_store_failure. unfold build. now rewrite H.
Qed.

(** C4, as amended.  The file is opened, and so truncated, before the
    encoder starts, and each chunk is written as it is yielded: once the
    reads and the open have succeeded, the file holds what was yielded up to
    the end of the generator or up to its exception, the handle is closed
    either way, and a failed dump leaves at least the opening brace and the
    first indentation there. *)
Theorem dump_streams (db : store) (w : world) (data : dict) :
  build db = inr data -> writable w = true ->
  backup (fst (export_db db w))
  = Some (Encoder.written (Encoder.iterencode (as_pyval data) 0)) /\
  snd (export_db db w)
  = match Encoder.raised (Encoder.iterencode (as_pyval data) 0) with
    | Some e => inl e
    | None => inr tt
    end /\
  handles (fst (export_db db w)) = handles w /\
  (forall e,
     Encoder.raised (Encoder.iterencode (as_pyval data) 0) = Some e ->
     exists t,
       Encoder.written (Encoder.iterencode (as_pyval data) 0)
       = str "{" ++ Encoder.newline_indent 1 ++ t).
Proof.
  intros Hb Hw. rewrite (Run.export_db_dump db w data Hb Hw). cbv zeta.
  destruct (Encoder.raised (Encoder.iterencode (as_pyval data) 0)) as [e|]
    eqn:Hr; cbn [fst snd].
  - rewrite Run.backup_dumped. repeat split.
    intros e' _. apply (RunFacts.failed_dump_started data e Hr).
  - rewrite Run.backup_printed, Run.backup_dumped. repeat split.
    intros e [=].
Qed.

(** C5, the empty store.  When the enumeration yields no key and the
    destination can be opened, the run succeeds and the file holds the two
    characters of the empty JSON object. *)
Theorem empty_store_backup (db : store) (w : world) :
  keys db = Some [] -> writable w = true ->
  snd (export_db db w) = inr tt /\
  backup (fst (export_db db w)) = Some (str "{}") /\
  Json.loads (str "{}") = Some (PyDict []).
Proof.
  intros Hk Hw.
  assert (Hb : build db = inr []) by (unfold build; now rewrite Hk).
  rewrite (Run.export_db_dump db w [] Hb Hw). repeat split.
  cbn [fst as_pyval map Encoder.iterencode Encoder.iterencode_dict
       Encoder.raised Encoder.yield].
  now rewrite Run.backup_printed, Run.backup_dumped.
Qed.

(** C6, as amended.  After every successful run, the file named
    database_backup.json in the working directory holds ASCII text (the
    same bytes in UTF-8), laid out with a line break after every opening
    bracket and every comma and four spaces of indentation for each level
    of nesting; and when no value of the store holds a non-finite float,
    that text is a JSON text whose top-level value is an object. *)
Theorem output_format (db : store) (ks : list pystr) (w : world) :
  keys db = Some ks ->
  values_are wellformed db ks -> names_are codepoints ks ->
  snd (export_db db w) = inr tt ->
  exists text,
    files (fst (export_db db w)) !! "database_backup.json"
    = Some (RegularFile text) /\
    ascii_text text = true /\
    indent4 text = true /\
    (values_are finite_floats db ks ->
     exists items, Json.loads text = Some (PyDict items)).
Proof.
  intros Hk Hwf Hnames Hrun.
  destruct (Script.success_inv db w Hrun) as (data & Hb & Hw & He & Heq).
  assert (W : wellformed (as_pyval data) = true).
  { apply Script.wellformed_as_pyval.
    - apply (Script.build_names codepoints db ks data Hk Hb Hnames).
    - apply (Script.build_values wellformed db ks data Hk Hb Hwf). }
  exists (Encoder.written (Encoder.iterencode (as_pyval data) 0)).
  rewrite Heq. cbn [fst]. repeat split.
  - unfold printed, dumped. cbn [files]. apply lookup_insert_eq.
  - apply Layout.ascii_written, Layout.ascii_iterencode, W.
  - now apply Indentation.indent4_written.
  - intros Hfin. exists (members_of data).
    assert (F : finite_floats (as_pyval data) = true).
    { apply Script.finite_floats_as_pyval.
      apply (Script.build_values finite_floats db ks data Hk Hb Hfin). }
    rewrite RoundTrip.loads_written; [now rewrite Script.norm_as_pyval|].
    unfold jsonable. now rewrite W, He, F.
Qed.

(** C7, idempotence of the format.  A second run against the same store,
    started in the world the first successful run left, succeeds as well and
    leaves the destination file with the very same content; more generally
    the content a successful run leaves does not depend on the world it
    started in. *)
Theorem rerun_identical (db : store) (w : world) :
  snd (export_db db w) = inr tt ->
  snd (export_db db (fst (export_db db w))) = inr tt /\
  backup (fst (export_db db (fst (export_db db w))))
  = backup (fst (export_db db w)) /\
  is_Some (backup (fst (export_db db w))) /\
  (forall w', snd (export_db db w') = inr tt ->
              backup (fst (export_db db w'))
              = backup (fst (export_db db w))).
Proof.
  intros Hrun.
  destruct (Script.success_inv db w Hrun) as (data & Hb & Hw & He & Heq).
  rewrite Heq. cbn [fst].
  assert (Hr : Encoder.raised (Encoder.iterencode (as_pyval data) 0) = None).
  { rewrite EncoderFacts.raised_iterencode. now rewrite He. }
  rewrite (Run.export_db_dump db _ data Hb (RunFacts.writable_dumped w _)).
  cbv zeta. rewrite Hr. cbn [fst snd].
  rewrite !Run.backup_printed, !Run.backup_dumped.
  repeat split; [eauto|].
  intros w' Hrun'.
  destruct (Script.success_inv db w' Hrun') as (data' & Hb' & _ & _ & Heq').
  assert (data' = data) as -> by congruence.
  rewrite Heq'. cbn [fst]. now rewrite Run.backup_printed, Run.backup_dumped.
Qed.

(** C8, as amended.  For values within the limits of the interpreter, once
    the reads and the open have succeeded: when a value read under an
    enumerated key is outside what the encoder accepts (it holds an object
    of a type with no JSON mapping, or a dictionary key that is not a str,
    int, float, bool or None), the run ends with [SerializationError] and
    the success notice is not printed; and when every value is within what
    the encoder accepts, non-finite floats included, the run succeeds and
    prints the notice. *)
Theorem serialization_failure (db : store) (ks : list pystr) (w : world) :
  keys db = Some ks -> readable db ks -> writable w = true ->
  values_are within_limits db ks ->
  (forall k v,
     k ∈ ks -> getitem db k = Some v -> encodable v = false ->
     snd (export_db db w) = inl SerializationError /\
     stdout (fst (export_db db w)) = stdout w) /\
  (values_are encodable db ks ->
   snd (export_db db w) = inr tt /\
   stdout (fst (export_db db w)) = stdout w ++ [notice]).
Proof.
  intros Hk Hread Hw _.
  destruct (Script.build_ok db ks Hk Hread) as [data Hb].
  rewrite (Run.export_db_dump db w data Hb Hw). cbv zeta.
  rewrite EncoderFacts.raised_iterencode. split.
  - intros k v Hin Hget Hbad.
    assert (He : encodable (as_pyval data) = false).
    { rewrite Run.encodable_as_pyval. apply not_true_is_false. intros H.
      rewrite forallb_forall in H.
      pose proof (Script.build_lookup db ks data k Hk Hb Hin) as Hl.
      rewrite Hget in Hl. apply RunFacts.lookup_key_In in Hl.
      specialize (H _ Hl). simpl in H. congruence. }
    rewrite He. now cbn.
  - intros Hvals.
    assert (He : encodable (as_pyval data) = true).
    { apply Script.encodable_values.
      apply (Script.build_values encodable db ks data Hk Hb Hvals). }
    rewrite He. now cbn.
Qed.


(** C10, failure of a read.  When the read of an enumerated key raises, the
    run ends with [StoreUnavailable] before the destination is opened: the
    world is as it was. *)
Theorem read_failure (db : store) (ks : list pystr) (k : pystr) (w : world) :
  keys db = Some ks -> k ∈ ks -> getitem db k = None ->
  export_db db w = (w, inl StoreUnavailable).
Proof.
  intros Hk Hin Hget. apply Run.export_db_store_failure.
  unfold build. rewrite Hk. now apply (Mapping.accumulate_fails db ks [] k).
Qed.

(** ** The properties at concrete stores *)


(** C2 fails as stated: the store [paired] holds 1 under the two surrogates
    U+D83D U+DE00 and 2 under the code point U+1F600.  Both keys are written
    as the same name, and the object read back holds nothing under the
    first. *)
Lemma surrogate_key_lost :
  getitem paired [55357; 56832] = Some (PyInt 1) /\
  json_value (PyInt 1) = true /\
  snd (export_db paired fresh) = inr tt /\
  backup (fst (export_db paired fresh))
  = Some (lit "{|    '\ud83d\ude00': 1,|    '\ud83d\ude00': 2|}") /\
  Json.loads (lit "{|    '\ud83d\ude00': 1,|    '\ud83d\ude00': 2|}")
  = Some (PyDict [(KStr [128512], PyInt 1); (KStr [128512], PyInt 2)]) /\
  member [(KStr [128512], PyInt 1); (KStr [128512], PyInt 2)] [55357; 56832]
  = None.
Proof. vm_compute. repeat split. Qed.

Lemma export_fidelity_witness :
  exists text items,
    snd (export_db scalars fresh) = inr tt /\
    backup (fst (export_db scalars fresh)) = Some text /\
    Json.loads text = Some (PyDict items) /\
    forall k, k ∈ [str "score"; str "name"; str "ratio"; str "active";
                   str "note"] ->
              member items k = getitem scalars k.
Proof.
  apply (export_fidelity scalars
           [str "score"; str "name"; str "ratio"; str "active"; str "note"]
           fresh).
  - reflexivity.
  - intros k H. among H; eexists; vm_compute; reflexivity.
  - intros k v H Hget. among H; read_in Hget; vm_compute; reflexivity.
  - intros k v H Hget. among H; read_in Hget; vm_compute; reflexivity.
  - intros k H. among H; vm_compute; reflexivity.
  - vm_compute. reflexivity.
Defined.

Lemma enumeration_failure_witness :
  keys unreachable = None /\
  export_db unreachable fresh = (fresh, inl StoreUnavailable).
Proof.
  split; [reflexivity|]. apply (enumeration_failure unreachable fresh).
  reflexivity.
Defined.

(** C4 fails as stated: the store [broken] holds an integer under a and an
    object with no JSON mapping under b.  The run fails in the middle of the
    dump, and the file, which did not exist, is left holding the beginning
    of a document, which is not a JSON text. *)
Lemma partial_write :
  backup fresh = None /\
  snd (export_db broken fresh) = inl SerializationError /\
  backup (fst (export_db broken fresh))
  = Some (lit "{|    'a': 1,|    'b': ") /\
  Json.loads (lit "{|    'a': 1,|    'b': ") = None.
Proof. vm_compute. repeat split. Qed.

Lemma dump_streams_witness :
  backup (fst (export_db broken fresh))
  = Some (lit "{|    'a': 1,|    'b': ") /\
  snd (export_db broken fresh) = inl SerializationError /\
  handles (fst (export_db broken fresh)) = handles fresh.
Proof.
  destruct (dump_streams broken fresh
              [(str "a", PyInt 1); (str "b", PyObject)])
    as (Hfile & Hend & Hclosed & _).
  - vm_compute. reflexivity.
  - vm_compute. reflexivity.
  - split; [|split].
    + rewrite Hfile. vm_compute. reflexivity.
    + rewrite Hend. vm_compute. reflexivity.
    + exact Hclosed.
Defined.

Lemma empty_store_backup_witness :
  snd (export_db empty fresh) = inr tt /\
  backup (fst (export_db empty fresh)) = Some (str "{}") /\
  Json.loads (str "{}") = Some (PyDict []).
Proof.
  apply (empty_store_backup empty fresh).
  - reflexivity.
  - vm_compute. reflexivity.
Defined.

(** C6 fails as stated: the store [not_a_number] holds the float nan under
    x.  The run succeeds, and the file holds the token NaN, which no JSON
    grammar accepts. *)
Lemma nan_is_written :
  snd (export_db not_a_number fresh) = inr tt /\
  backup (fst (export_db not_a_number fresh)) = Some (lit "{|    'x': NaN|}") /\
  Json.loads (lit "{|    'x': NaN|}") = None.
Proof. vm_compute. repeat split. Qed.

Lemma output_format_witness :
  exists text items,
    files (fst (export_db sample fresh)) !! "database_backup.json"
    = Some (RegularFile text) /\
    ascii_text text = true /\
    indent4 text = true /\
    Json.loads text = Some (PyDict items).
Proof.
  destruct (output_format sample [str "score"; str "name"; str "tags"] fresh)
    as (text & Hfile & Hascii & Hindent & Hjson).
  - reflexivity.
  - intros k v H Hget. among H; read_in Hget; vm_compute; reflexivity.
  - intros k H. among H; vm_compute; reflexivity.
  - vm_compute. reflexivity.
  - destruct Hjson as [items Hloads].
    + intros k v H Hget. among H; read_in Hget; vm_compute; reflexivity.
    + exists text, items. repeat split; assumption.
Defined.

Lemma rerun_identical_witness :
  snd (export_db sample (fst (export_db sample fresh))) = inr tt /\
  backup (fst (export_db sample (fst (export_db sample fresh))))
  = backup (fst (export_db sample fresh)) /\
  is_Some (backup (fst (export_db sample fresh))).
Proof.
  destruct (rerun_identical sample fresh) as (H1 & H2 & H3 & _).
  - vm_compute. reflexivity.
  - repeat split; assumption.
Defined.

(** C8 fails as stated: the float nan has no representation in JSON, and
    the run over [not_a_number] succeeds and prints the notice. *)
Lemma nan_is_accepted :
  getitem not_a_number (str "x") = Some (PyFloat nan) /\
  json_value (PyFloat nan) = false /\
  snd (export_db not_a_number fresh) = inr tt /\
  stdout (fst (export_db not_a_number fresh)) = [notice].
Proof. vm_compute. repeat split. Qed.

Lemma serialization_failure_witness :
  snd (export_db broken fresh) = inl SerializationError /\
  stdout (fst (export_db broken fresh)) = stdout fresh.
Proof.
  destruct (serialization_failure broken [str "a"; str "b"] fresh)
    as [Hfails _].
  - reflexivity.
  - intros k H. among H; eexists; vm_compute; reflexivity.
  - vm_compute. reflexivity.
  - intros k v H Hget. among H; read_in Hget; vm_compute; reflexivity.
  - apply (Hfails (str "b") PyObject).
    + apply list_elem_of_further, list_elem_of_here.
    + vm_compute. reflexivity.
    + reflexivity.
Defined.


Lemma read_failure_witness :
  getitem flaky (str "b") = None /\
  export_db flaky fresh = (fresh, inl StoreUnavailable).
Proof.
  split; [vm_compute; reflexivity|].
  apply (read_failure flaky [str "a"; str "b"] (str "b") fresh).
  - reflexivity.
  - apply list_elem_of_further, list_elem_of_here.
  - vm_compute. reflexivity.
Defined.

(** * Further properties of the script *)

Module Outcome.
Import Encoder EncoderFacts Run Script.

(** The loop fails only on a read that raises. *)
Lemma accumulate_inl db ks : forall data e,
  accumulate db ks data = inl e ->
  e = StoreUnavailable /\ exists k, k ∈ ks /\ getitem db k = None.
Proof.
  induction ks as [|k ks IH]; intros data e H; simpl in H; [discriminate|].
  destruct (getitem db k) as [v|] eqn:Hget.
  - destruct (IH _ _ H) as [-> (k' & Hin & Hk')]. split; [reflexivity|].
    exists k'. split; [now apply list_elem_of_further | exact Hk'].
  - injection H as <-. split; [reflexivity|].
    exists k. split; [apply list_elem_of_here | exact Hget].
Qed.

Lemma accumulate_inr db ks : forall data data',
  accumulate db ks data = inr data' -> readable db ks.
Proof.
  induction ks as [|k ks IH]; intros data data' H x Hin; simpl in H.
  - now apply not_elem_of_nil in Hin.
  - destruct (getitem db k) as [v|] eqn:Hget; [|discriminate].
    apply elem_of_cons in Hin as [->|Hin]; [now rewrite Hget|].
    now apply (IH _ _ H).
Qed.

Lemma build_inl db e :
  build db = inl e ->
  e = StoreUnavailable /\
  (keys db = None \/
   exists ks k, keys db = Some ks /\ k ∈ ks /\ getitem db k = None).
Proof.
  unfold build. destruct (keys db) as [ks|] eqn:Hk.
  - intros H. destruct (accumulate_inl db ks [] e H) as [-> (k & Hin & Hget)].
    split; [reflexivity|]. right. now exists ks, k.
  - intros [= <-]. auto.
Qed.

Lemma build_inr db data :
  build db = inr data -> exists ks, keys db = Some ks /\ readable db ks.
Proof.
  unfold build. destruct (keys db) as [ks|]; [|discriminate].
  intros H. exists ks. split; [reflexivity|]. now apply (accumulate_inr db ks [] data).
Qed.

(** Every run is one of three. *)
Lemma run_cases db w :
  (exists e, build db = inl e /\ export_db db w = (w, inl e)) \/
  (exists data, build db = inr data /\ writable w = false /\
                export_db db w = (w, inl FilesystemError)) \/
  (exists data, build db = inr data /\ writable w = true /\
                export_db db w
                = match raised (iterencode (as_pyval data) 0) with
                  | Some e => (dumped w (iterencode (as_pyval data) 0), inl e)
                  | None =>
                      (printed (dumped w (iterencode (as_pyval data) 0)),
                       inr tt)
                  end).
Proof.
  destruct (build db) as [e|data] eqn:Hb.
  - left. exists e. split; [reflexivity|]. now apply export_db_store_failure.
  - right. destruct (writable w) eqn:Hw.
    + right. exists data. repeat split. now rewrite (export_db_dump db w data).
    + left. exists data. repeat split. now apply (export_db_refused db w data).
Qed.

Lemma raised_serialization v level e :
  raised (iterencode v level) = Some e -> e = SerializationError.
Proof.
  rewrite raised_iterencode. destruct (encodable v); [discriminate|].
  now intros [= <-].
Qed.

(** A value of the mapping that the encoder refuses was read under an
    enumerated key. *)
Lemma refused_value db ks data :
  keys db = Some ks -> build db = inr data ->
  encodable (as_pyval data) = false ->
  exists k v, k ∈ ks /\ getitem db k = Some v /\ encodable v = false.
Proof.
  intros Hk Hb He. rewrite encodable_as_pyval in He.
  unfold build in Hb. rewrite Hk in Hb.
  pose proof (Mapping.accumulate_values db ks [] data
                (fun v => exists k, k ∈ ks /\ getitem db k = Some v) Hb
                (List.Forall_nil _)
                (fun k v Hin Hget => ex_intro _ k (conj Hin Hget))) as Hall.
  clear Hb Hk. induction Hall as [|[k v] rest (k' & Hin & Hget) _ IH].
  - discriminate.
  - cbn [forallb snd] in *. destruct (encodable v) eqn:Hv.
    + now apply IH.
    + now exists k', v.
Qed.

(** The other way round: a refused value under an enumerated key makes the
    mapping one the encoder refuses. *)
Lemma refused_mapping db ks data k v :
  keys db = Some ks -> build db = inr data ->
  k ∈ ks -> getitem db k = Some v -> encodable v = false ->
  encodable (as_pyval data) = false.
Proof.
  intros Hk Hb Hin Hget Hv.
  destruct (encodable (as_pyval data)) eqn:He; [|reflexivity].
  apply encodable_values in He.
  pose proof (build_lookup db ks data k Hk Hb Hin) as Hl. rewrite Hget in Hl.
  apply RunFacts.lookup_key_In in Hl.
  rewrite Forall_forall in He. apply list_elem_of_In in Hl.
  specialize (He _ Hl). simpl in He. congruence.
Qed.

End Outcome.

(** X1, the handle.  Whatever the store returns and however the run ends,
    it leaves no file handle open: the [with] statement closes the file
    whether [json.dump] returns or raises, and a run that fails before
    [open] has opened none. *)
Theorem handle_always_closed (db : store) (w : world) :
  handles (fst (export_db db w)) = handles w.
Proof.
  destruct (Outcome.run_cases db w)
    as [(e & _ & ->) | [(data & _ & _ & ->) | (data & _ & _ & ->)]];
    [reflexivity | reflexivity |].
  now destruct (Encoder.raised _).
Qed.

(** X2, the notice and the outcome: standard output gains exactly the one
    line of the notice when the run succeeds, and nothing when it fails,
    whatever the failure. *)
Theorem notice_iff_success (db : store) (w : world) :
  stdout (fst (export_db db w))
  = match snd (export_db db w) with
    | inr _ => stdout w ++ [notice]
    | inl _ => stdout w
    end.
Proof.
  destruct (Outcome.run_cases db w)
    as [(e & _ & ->) | [(data & _ & _ & ->) | (data & _ & _ & ->)]];
    [reflexivity | reflexivity |].
  destruct (Encoder.raised _); reflexivity.
Qed.

(** X3, when the run succeeds.  For a store whose values are within the
    limits of the interpreter: the run succeeds exactly when the enumeration
    returns, every enumerated key can be read, the destination can be opened
    for writing, and every value read is one the encoder has a case for. *)
Theorem success_iff (db : store) (w : world) :
  (forall ks, keys db = Some ks -> values_are within_limits db ks) ->
  (snd (export_db db w) = inr tt <->
   exists ks, keys db = Some ks /\ readable db ks /\ writable w = true /\
              values_are encodable db ks).
Proof.
  intros _. split.
  - intros H. destruct (Script.success_inv db w H) as (data & Hb & Hw & He & _).
    destruct (Outcome.build_inr db data Hb) as (ks & Hk & Hr).
    exists ks. repeat split; try assumption.
    intros k v Hin Hget. destruct (encodable v) eqn:Hv; [reflexivity|].
    rewrite (Outcome.refused_mapping db ks data k v Hk Hb Hin Hget Hv) in He.
    discriminate.
  - intros (ks & Hk & Hr & Hw & Hv).
    destruct (Script.build_ok db ks Hk Hr) as [data Hb].
    rewrite (Run.export_db_dump db w data Hb Hw). cbv zeta.
    rewrite EncoderFacts.raised_iterencode.
    assert (He : encodable (as_pyval data) = true).
    { apply Script.encodable_values.
      exact (Script.build_values encodable db ks data Hk Hb Hv). }
    now rewrite He.
Qed.

(** X4, when the store is to blame: the run ends with [StoreUnavailable]
    exactly when the enumeration raises or the read of an enumerated key
    does, whatever the state of the destination; the world is then as it
    was. *)
Theorem store_failure_iff (db : store) (w : world) :
  (snd (export_db db w) = inl StoreUnavailable <->
   keys db = None \/
   exists ks k, keys db = Some ks /\ k ∈ ks /\ getitem db k = None) /\
  (snd (export_db db w) = inl StoreUnavailable -> fst (export_db db w) = w).
Proof.
  destruct (Outcome.run_cases db w)
    as [(e & Hb & ->) | [(data & Hb & Hw & ->) | (data & Hb & Hw & ->)]].
  - destruct (Outcome.build_inl db e Hb) as [-> Hwhy]. cbn [fst snd].
    repeat split; auto.
  - cbn [fst snd]. repeat split; try discriminate.
    intros [Hk | (ks & k & Hk & Hin & Hget)]; exfalso.
    + unfold build in Hb. now rewrite Hk in Hb.
    + unfold build in Hb. rewrite Hk in Hb.
      now rewrite (Mapping.accumulate_fails db ks [] k Hin Hget) in Hb.
  - assert (Hno : ~ (keys db = None \/
                    exists ks k, keys db = Some ks /\ k ∈ ks /\
                                 getitem db k = None)).
    { intros [Hk | (ks & k & Hk & Hin & Hget)].
      - unfold build in Hb. now rewrite Hk in Hb.
      - unfold build in Hb. rewrite Hk in Hb.
        now rewrite (Mapping.accumulate_fails db ks [] k Hin Hget) in Hb. }
    destruct (Encoder.raised _) as [e|] eqn:Hr; cbn [fst snd].
    + apply Outcome.raised_serialization in Hr as ->.
      repeat split; try discriminate. tauto.
    + repeat split; try discriminate. tauto.
Qed.

(** X5, when the destination is to blame: the run ends with
    [FilesystemError] exactly when the store was read in full and the
    destination is a directory or a file that cannot be written; the world
    is then as it was, and the values read are not looked at, so that this
    failure comes before any failure of the encoder. *)
Theorem filesystem_failure_iff (db : store) (w : world) :
  (snd (export_db db w) = inl FilesystemError <->
   (exists ks, keys db = Some ks /\ readable db ks) /\ writable w = false) /\
  (snd (export_db db w) = inl FilesystemError -> fst (export_db db w) = w).
Proof.
  destruct (Outcome.run_cases db w)
    as [(e & Hb & ->) | [(data & Hb & Hw & ->) | (data & Hb & Hw & ->)]].
  - destruct (Outcome.build_inl db e Hb) as [-> Hwhy]. cbn [fst snd].
    repeat split; try discriminate.
    intros [(ks & Hk & Hr) _]. exfalso.
    destruct (Script.build_ok db ks Hk Hr) as [data Hd]. congruence.
  - cbn [fst snd]. repeat split; auto.
    now apply (Outcome.build_inr db data).
  - destruct (Encoder.raised _) as [e|] eqn:Hr; cbn [fst snd].
    + apply Outcome.raised_serialization in Hr as ->.
      repeat split; try discriminate. intros [_ H]. congruence.
    + repeat split; try discriminate. intros [_ H]. congruence.
Qed.

(** X6, when a value is to blame.  For a store whose values are within the
    limits of the interpreter: the run ends with [SerializationError], the
    [TypeError] of the encoder, exactly when the store was read in full, the
    destination was opened, and some value read under an enumerated key
    holds an object or a dictionary key the encoder has no case for. *)
Theorem serialization_failure_iff (db : store) (w : world) :
  (forall ks, keys db = Some ks -> values_are within_limits db ks) ->
  (snd (export_db db w) = inl SerializationError <->
   exists ks, keys db = Some ks /\ readable db ks /\ writable w = true /\
              exists k v, k ∈ ks /\ getitem db k = Some v /\
                          encodable v = false).
Proof.
  intros _.
  destruct (Outcome.run_cases db w)
    as [(e & Hb & ->) | [(data & Hb & Hw & ->) | (data & Hb & Hw & ->)]].
  - destruct (Outcome.build_inl db e Hb) as [-> Hwhy]. cbn [snd].
    split; [discriminate|]. intros (ks & Hk & Hr & _). exfalso.
    destruct (Script.build_ok db ks Hk Hr) as [data Hd]. congruence.
  - cbn [snd]. split; [discriminate|]. intros (ks & _ & _ & H & _).
    congruence.
  - destruct (Outcome.build_inr db data Hb) as (ks & Hk & Hread).
    pose proof (EncoderFacts.raised_iterencode (as_pyval data) 0) as Hr.
    destruct (encodable (as_pyval data)) eqn:He; rewrite Hr; cbn [verdict snd].
    + split; [discriminate|]. intros (ks' & Hk' & _ & _ & k & v & Hin & Hg & Hv).
      rewrite (Outcome.refused_mapping db ks' data k v Hk' Hb Hin Hg Hv) in He.
      discriminate.
    + split; [|reflexivity]. intros _. exists ks. repeat split; try assumption.
      exact (Outcome.refused_value db ks data Hk Hb He).
Qed.

(** A store with a tuple and an integer key, exported to a fresh directory:
    the run succeeds. *)
Lemma success_iff_witness : snd (export_db tupled fresh) = inr tt.
Proof.
  apply (success_iff tupled fresh).
  { intros ks Hk. injection Hk as <-. intros k v H Hget.
    among H; read_in Hget; vm_compute; reflexivity. }
  exists [str "t"; str "d"].
  split; [reflexivity|]. split; [|split].
  - intros k H. among H; eexists; vm_compute; reflexivity.
  - vm_compute. reflexivity.
  - intros k v H Hget. among H; read_in Hget; vm_compute; reflexivity.
Defined.

(** A store whose second read raises, with a destination that could not be
    opened either: the failure is the store's, and nothing has changed. *)
Lemma store_failure_iff_witness :
  snd (export_db flaky locked) = inl StoreUnavailable /\
  fst (export_db flaky locked) = locked.
Proof.
  destruct (store_failure_iff flaky locked) as [[_ H] Hsame].
  assert (E : snd (export_db flaky locked) = inl StoreUnavailable).
  { apply H. right. exists [str "a"; str "b"], (str "b").
    split; [reflexivity|]. split; [|vm_compute; reflexivity].
    apply list_elem_of_further, list_elem_of_here. }
  split; [exact E | exact (Hsame E)].
Defined.

(** A store with a value the encoder refuses, exported where the destination
    is a read-only file: the failure is the file system's, and the file
    holds what it held. *)
Lemma filesystem_failure_iff_witness :
  snd (export_db broken locked) = inl FilesystemError /\
  fst (export_db broken locked) = locked.
Proof.
  destruct (filesystem_failure_iff broken locked) as [[_ H] Hsame].
  assert (E : snd (export_db broken locked) = inl FilesystemError).
  { apply H. split; [|vm_compute; reflexivity].
    exists [str "a"; str "b"]. split; [reflexivity|].
    intros k Hin. among Hin; eexists; vm_compute; reflexivity. }
  split; [exact E | exact (Hsame E)].
Defined.

Lemma serialization_failure_iff_witness :
  snd (export_db broken fresh) = inl SerializationError.
Proof.
  apply (serialization_failure_iff broken fresh).
  { intros ks Hk. injection Hk as <-. intros k v H Hget.
    among H; read_in Hget; vm_compute; reflexivity. }
  exists [str "a"; str "b"]. split; [reflexivity|]. split; [|split].
  - intros k Hin. among Hin; eexists; vm_compute; reflexivity.
  - vm_compute. reflexivity.
  - exists (str "b"), PyObject. split; [|split].
    + apply list_elem_of_further, list_elem_of_here.
    + vm_compute. reflexivity.
    + reflexivity.
Defined.

(** ** Exporting what was read back *)

Module Restore.
Import Encoder EncoderFacts Run Script.



















End Restore.







(** ** The brackets of a text *)

Module Nesting.
Import Encoder EncoderFacts Json.

Lemma nesting_app a : forall m d b,
  nesting m d (a ++ b) = nesting (fst (nesting m d a)) (snd (nesting m d a)) b.
Proof.
  induction a as [|c a IH]; intros m d b; [reflexivity|].
  cbn [app nesting]. destruct m.
  - destruct (c =? 34); [apply IH|].
    destruct (opening c); [apply IH|]. destruct (closing c); apply IH.
  - destruct (c =? 92); [apply IH|]. destruct (c =? 34); apply IH.
  - apply IH.
Qed.

Lemma quiet_step c d s :
  quiet c = true -> nesting Code d (c :: s) = nesting Code d s.
Proof.
  unfold quiet. intros H. apply negb_true_iff in H.
  apply orb_false_iff in H as [H Hcl]. apply orb_false_iff in H as [H34 Hop].
  cbn [nesting]. now rewrite H34, Hop, Hcl.
Qed.

Lemma quiet_nesting t : forall d s,
  forallb quiet t = true -> nesting Code d (t ++ s) = nesting Code d s.
Proof.
  induction t as [|c t IH]; intros d s H; [reflexivity|].
  cbn [forallb] in H. both H Hc Ht. cbn [app].
  rewrite quiet_step by exact Hc. now apply IH.
Qed.

Lemma number_char_quiet c : number_char c = true -> quiet c = true.
Proof.
  intros H. apply Indentation.number_char_plain in H.
  unfold plain in H. unfold quiet. apply negb_true_iff in H.
  apply negb_true_iff.
  apply orb_false_iff in H as [H _]. apply orb_false_iff in H as [H _].
  apply orb_false_iff in H as [H _]. exact H.
Qed.

Lemma number_chars_quiet t :
  forallb number_char t = true -> forallb quiet t = true.
Proof.
  induction t as [|c t IH]; [reflexivity|]. cbn [forallb]. intros H.
  both H Hc Ht. now rewrite (number_char_quiet _ Hc), IH.
Qed.

(** What the reader passes over. *)
Lemma skip_ws_nesting s : forall d,
  nesting Code d (skip_ws s) = nesting Code d s.
Proof.
  induction s as [|c s IH]; intros d; [reflexivity|].
  cbn [skip_ws]. destruct (is_ws c) eqn:Hc; [|reflexivity].
  rewrite IH. symmetry. apply quiet_step.
  unfold is_ws in Hc. unfold quiet, opening, closing.
  repeat (apply orb_true_iff in Hc as [Hc|Hc]);
    apply N.eqb_eq in Hc; now subst.
Qed.

Lemma expect_app t : forall s r, expect t s = Some r -> s = t ++ r.
Proof.
  induction t as [|a t IH]; intros s r; cbn [expect].
  - now intros [= ->].
  - destruct s as [|b s]; [discriminate|].
    destruct (a =? b) eqn:Hab; [|discriminate].
    apply N.eqb_eq in Hab. subst b. intros H. cbn [app]. f_equal.
    now apply IH.
Qed.

Lemma expect_quiet t s r d :
  forallb quiet t = true -> expect t s = Some r ->
  nesting Code d s = nesting Code d r.
Proof.
  intros Hq H. rewrite (expect_app t s r H). now apply quiet_nesting.
Qed.

Lemma number_nesting s v r d :
  number s = Some (v, r) -> nesting Code d s = nesting Code d r.
Proof.
  destruct s as [|c s]; cbn [number]; [discriminate|].
  destruct (c =? 45) eqn:Hc; intros H;
    destruct (TokenFacts.unsigned_split _ _ _ _ H) as (tok & E & D).
  - apply N.eqb_eq in Hc. subst c. rewrite quiet_step by reflexivity.
    rewrite E. now apply quiet_nesting, number_chars_quiet.
  - rewrite E. now apply quiet_nesting, number_chars_quiet.
Qed.

Lemma push_inv c r cs rest :
  push c r = Some (cs, rest) -> exists cs', r = Some (cs', rest).
Proof.
  destruct r as [[cs' rest']|]; cbn [push]; [|discriminate].
  intros [= _ <-]. now eexists.
Qed.

Lemma hex_in_string h n d s :
  hex_value h = Some n -> nesting InString d (h :: s) = nesting InString d s.
Proof.
  unfold hex_value, is_digit. intros H. cbn [nesting].
  assert (Hh : h <> 92 /\ h <> 34).
  { split; intros ->; vm_compute in H; discriminate. }
  destruct Hh as [H92 H34]. apply N.eqb_neq in H92, H34.
  now rewrite H92, H34.
Qed.

Lemma hex4_in_string h1 h2 h3 h4 n d s :
  hex4 h1 h2 h3 h4 = Some n ->
  nesting InString d (h1 :: h2 :: h3 :: h4 :: s) = nesting InString d s.
Proof.
  unfold hex4.
  destruct (hex_value h1) eqn:E1; [|discriminate].
  destruct (hex_value h2) eqn:E2; [|discriminate].
  destruct (hex_value h3) eqn:E3; [|discriminate].
  destruct (hex_value h4) eqn:E4; [|discriminate]. intros _.
  rewrite (hex_in_string _ _ _ _ E1), (hex_in_string _ _ _ _ E2).
  now rewrite (hex_in_string _ _ _ _ E3), (hex_in_string _ _ _ _ E4).
Qed.

(** A string literal is passed over whole. *)
Lemma string_body_nesting n : forall s cs r d,
  (length s <= n)%nat -> string_body s = Some (cs, r) ->
  nesting InString d s = nesting Code d r.
Proof.
  induction n as [|n IH]; intros s cs r d Hlen H.
  { destruct s; [discriminate | simpl in Hlen; lia]. }
  destruct s as [|c s1]; [discriminate|].
  cbn [length] in Hlen. cbn [string_body] in H.
  destruct (c =? 34) eqn:H34.
  { injection H as <- <-. apply N.eqb_eq in H34. now subst c. }
  destruct (c =? 92) eqn:H92.
  2:{ destruct ((32 <=? c) && (c <=? 127)); [|discriminate].
      destruct (push_inv _ _ _ _ H) as [cs' H'].
      cbn [nesting]. rewrite H92, H34. apply (IH _ cs'); [lia | exact H']. }
  destruct s1 as [|e s2]; [discriminate|]. cbn [length] in Hlen.
  change (nesting InString d (c :: e :: s2)) with
    (if c =? 92 then nesting InString d s2
     else if c =? 34 then nesting Code d (e :: s2)
     else nesting InString d (e :: s2)).
  rewrite H92.
  destruct (e =? 117) eqn:H117.
  2:{ destruct (simple_escape e); [|discriminate].
      destruct (push_inv _ _ _ _ H) as [cs' H'].
      apply (IH _ cs'); [lia | exact H']. }
  destruct s2 as [|h1 [|h2 [|h3 [|h4 s3]]]]; try discriminate.
  cbn [length] in Hlen.
  destruct (hex4 h1 h2 h3 h4) as [hi|] eqn:Hhi; [|discriminate].
  rewrite (hex4_in_string _ _ _ _ _ _ _ Hhi).
  assert (Hsingle : forall cs0, push hi (string_body s3) = Some (cs0, r) ->
                    nesting InString d s3 = nesting Code d r).
  { intros cs0 H0. destruct (push_inv _ _ _ _ H0) as [cs' H'].
    apply (IH _ cs'); [lia | exact H']. }
  destruct (is_high hi); [|now apply (Hsingle cs)].
  destruct s3 as [|b [|u [|l1 [|l2 [|l3 [|l4 s5]]]]]];
    try (now apply (Hsingle cs)).
  destruct ((b =? 92) && (u =? 117)) eqn:Hbu; [|now apply (Hsingle cs)].
  destruct (hex4 l1 l2 l3 l4) as [lo|] eqn:Hlo; [|now apply (Hsingle cs)].
  destruct (is_low lo); [|now apply (Hsingle cs)].
  destruct (push_inv _ _ _ _ H) as [cs' H'].
  both Hbu Hb Hu. apply N.eqb_eq in Hb, Hu. subst b u.
  change (nesting InString d (92 :: 117 :: ?x)) with (nesting InString d x).
  rewrite (hex4_in_string _ _ _ _ _ _ _ Hlo).
  apply (IH _ cs'); [cbn [length] in Hlen; lia | exact H'].
Qed.

Lemma string_nesting s cs r d :
  string_body s = Some (cs, r) ->
  nesting Code d (34 :: s) = nesting Code d r.
Proof. intros H. now apply (string_body_nesting (length s) s cs). Qed.

(** What the reader accepts as a value opens as many brackets as it closes;
    the rest of an array or of an object closes the one bracket that was
    open before it. *)
Lemma value_nesting fuel :
  (forall s v r, value fuel s = Some (v, r) ->
     forall d, nesting Code d s = nesting Code d r) /\
  (forall s vs r, elements fuel s = Some (vs, r) ->
     forall d, nesting Code d s = nesting Code (d - 1)%Z r) /\
  (forall s ms r, members fuel s = Some (ms, r) ->
     forall d, nesting Code d s = nesting Code (d - 1)%Z r).
Proof.
  induction fuel as [|fuel (IHv & IHe & IHm)];
    [repeat split; intros; discriminate|].
  assert (Hclose : forall c s d, closing c = true ->
            nesting Code d (c :: s) = nesting Code (d - 1)%Z s).
  { intros c s d Hc. unfold closing in Hc.
    apply orb_true_iff in Hc as [Hc|Hc]; apply N.eqb_eq in Hc; now subst. }
  assert (Hopen : forall c s d, opening c = true ->
            nesting Code d (c :: s) = nesting Code (d + 1)%Z s).
  { intros c s d Hc. unfold opening in Hc.
    apply orb_true_iff in Hc as [Hc|Hc]; apply N.eqb_eq in Hc; now subst. }
  assert (Hback : forall d : Z, (d + 1 - 1 = d)%Z) by (intros; lia).
  split; [|split].
  - intros [|c s1] v r H d; [discriminate|]. rewrite RoundTrip.value_S in H.
    destruct (c =? 123) eqn:E1.
    { apply N.eqb_eq in E1. subst c. rewrite Hopen by reflexivity.
      rewrite <- (skip_ws_nesting s1).
      destruct (expect [125] (skip_ws s1)) as [rest|] eqn:Hex.
      - injection H as <- <-. rewrite (expect_app _ _ _ Hex). cbn [app].
        rewrite Hclose by reflexivity. now rewrite Hback.
      - destruct (members fuel (skip_ws s1)) as [[ms rest]|] eqn:Hm;
          [|discriminate].
        injection H as <- <-. rewrite (IHm _ _ _ Hm). now rewrite Hback. }
    destruct (c =? 91) eqn:E2.
    { apply N.eqb_eq in E2. subst c. rewrite Hopen by reflexivity.
      rewrite <- (skip_ws_nesting s1).
      destruct (expect [93] (skip_ws s1)) as [rest|] eqn:Hex.
      - injection H as <- <-. rewrite (expect_app _ _ _ Hex). cbn [app].
        rewrite Hclose by reflexivity. now rewrite Hback.
      - destruct (elements fuel (skip_ws s1)) as [[vs rest]|] eqn:He;
          [|discriminate].
        injection H as <- <-. rewrite (IHe _ _ _ He). now rewrite Hback. }
    destruct (c =? 34) eqn:E3.
    { apply N.eqb_eq in E3. subst c.
      destruct (string_body s1) as [[cs rest]|] eqn:Hs; [|discriminate].
      injection H as <- <-. now apply (string_nesting s1 cs). }
    destruct (c =? 110) eqn:E4.
    { apply N.eqb_eq in E4. subst c.
      destruct (expect (str "ull") s1) as [rest|] eqn:Hex; [|discriminate].
      injection H as <- <-. rewrite quiet_step by reflexivity.
      now apply (expect_quiet (str "ull")). }
    destruct (c =? 116) eqn:E5.
    { apply N.eqb_eq in E5. subst c.
      destruct (expect (str "rue") s1) as [rest|] eqn:Hex; [|discriminate].
      injection H as <- <-. rewrite quiet_step by reflexivity.
      now apply (expect_quiet (str "rue")). }
    destruct (c =? 102) eqn:E6.
    { apply N.eqb_eq in E6. subst c.
      destruct (expect (str "alse") s1) as [rest|] eqn:Hex; [|discriminate].
      injection H as <- <-. rewrite quiet_step by reflexivity.
      now apply (expect_quiet (str "alse")). }
    now apply (number_nesting _ v).
  - intros s vs r H d. rewrite RoundTrip.elements_S in H.
    destruct (value fuel s) as [[v s1]|] eqn:Hv; [|discriminate].
    rewrite (IHv _ _ _ Hv). rewrite <- (skip_ws_nesting s1).
    destruct (skip_ws s1) as [|c s2]; [discriminate|].
    destruct (c =? 93) eqn:E1.
    { apply N.eqb_eq in E1. subst c. injection H as <- <-.
      now apply Hclose. }
    destruct (c =? 44) eqn:E2; [|discriminate].
    apply N.eqb_eq in E2. subst c. rewrite quiet_step by reflexivity.
    rewrite <- (skip_ws_nesting s2).
    destruct (elements fuel (skip_ws s2)) as [[vs' rest]|] eqn:He;
      [|discriminate].
    injection H as <- <-. now apply (IHe _ vs').
  - intros s ms r H d. rewrite RoundTrip.members_S in H.
    destruct (expect [34] s) as [s1|] eqn:Hq; [|discriminate].
    rewrite (expect_app _ _ _ Hq). cbn [app].
    destruct (string_body s1) as [[k s2]|] eqn:Hk; [|discriminate].
    rewrite (string_nesting s1 k s2 d Hk). rewrite <- (skip_ws_nesting s2).
    destruct (expect [58] (skip_ws s2)) as [s3|] eqn:Hc; [|discriminate].
    rewrite (expect_quiet [58] _ _ d eq_refl Hc).
    rewrite <- (skip_ws_nesting s3).
    destruct (value fuel (skip_ws s3)) as [[v s4]|] eqn:Hv; [|discriminate].
    rewrite (IHv _ _ _ Hv). rewrite <- (skip_ws_nesting s4).
    destruct (skip_ws s4) as [|c s5]; [discriminate|].
    destruct (c =? 125) eqn:E1.
    { apply N.eqb_eq in E1. subst c. injection H as <- <-.
      now apply Hclose. }
    destruct (c =? 44) eqn:E2; [|discriminate].
    apply N.eqb_eq in E2. subst c. rewrite quiet_step by reflexivity.
    rewrite <- (skip_ws_nesting s5).
    destruct (members fuel (skip_ws s5)) as [[ms' rest]|] eqn:Hm;
      [|discriminate].
    injection H as <- <-. now apply (IHm _ ms').
Qed.

(** A JSON text leaves no bracket open. *)
Lemma loads_nesting s v :
  loads s = Some v -> nesting Code 0 s = (Code, 0%Z).
Proof.
  unfold loads. intros H. rewrite <- (skip_ws_nesting s).
  destruct (value (S (length s)) (skip_ws s)) as [[v' rest]|] eqn:Hv;
    [|discriminate].
  destruct (value_nesting (S (length s))) as (IHv & _).
  rewrite (IHv _ _ _ Hv). rewrite <- (skip_ws_nesting rest).
  now destruct (skip_ws rest).
Qed.

(** What the encoder writes, token by token. *)
Lemma rises_nil : rises [] 0%Z.
Proof. intros d. cbn [nesting]. f_equal. lia. Qed.

Lemma rises_app a b n m : rises a n -> rises b m -> rises (a ++ b) (n + m)%Z.
Proof.
  intros Ha Hb d. rewrite nesting_app, Ha. cbn [fst snd]. rewrite Hb.
  f_equal. lia.
Qed.

Lemma rises_quiet t : forallb quiet t = true -> rises t 0%Z.
Proof.
  intros H d. rewrite <- (app_nil_r t). rewrite quiet_nesting by exact H.
  apply rises_nil.
Qed.

Lemma rises_newline level : rises (newline_indent level) 0%Z.
Proof.
  apply rises_quiet. unfold newline_indent. cbn [forallb].
  generalize (4 * level)%nat. intros k. induction k; [reflexivity | exact IHk].
Qed.

Lemma hexdigit_string c d s :
  nesting InString d (hexdigit c :: s) = nesting InString d s.
Proof.
  cbn [nesting]. unfold hexdigit.
  destruct (c <? 10) eqn:Hc.
  - apply N.ltb_lt in Hc.
    replace (48 + c =? 92) with false by (symmetry; apply N.eqb_neq; lia).
    replace (48 + c =? 34) with false by (symmetry; apply N.eqb_neq; lia).
    reflexivity.
  - apply N.ltb_ge in Hc.
    replace (87 + c =? 92) with false by (symmetry; apply N.eqb_neq; lia).
    replace (87 + c =? 34) with false by (symmetry; apply N.eqb_neq; lia).
    reflexivity.
Qed.

Lemma u_escape_string n d s :
  nesting InString d (u_escape n ++ s) = nesting InString d s.
Proof.
  unfold u_escape, format_04x. cbn [app].
  change (nesting InString d (92 :: 117 :: ?x)) with (nesting InString d x).
  now rewrite !hexdigit_string.
Qed.

Lemma escape_char_string c d s :
  nesting InString d (escape_char c ++ s) = nesting InString d s.
Proof.
  unfold escape_char. destruct (ESCAPE_ASCII c) eqn:He.
  - unfold replace, ESCAPE_DCT.
    repeat match goal with
           | |- context [if ?b then _ else _] => destruct b
           end; try reflexivity; try apply u_escape_string.
    now rewrite <- app_assoc, !u_escape_string.
  - unfold ESCAPE_ASCII in He. apply orb_false_iff in He as [He _].
    apply orb_false_iff in He as [H1 H2].
    cbn [app nesting]. now rewrite H1, H2.
Qed.

Lemma rises_encoder s : rises (encoder s) 0%Z.
Proof.
  intros d. unfold encoder.
  change (nesting Code d (34 :: ?x)) with (nesting InString d x).
  replace (d + 0)%Z with d by lia.
  induction s as [|c s IH]; [reflexivity|].
  cbn [flat_map]. rewrite <- app_assoc. now rewrite escape_char_string.
Qed.

Lemma rises_atom v t : wellformed v = true -> atom v = Some t -> rises t 0%Z.
Proof.
  destruct v as [|b|n|f|s|lst|lst|dct|]; cbn [atom wellformed];
    intros W H; try discriminate.
  - injection H as <-. now apply rises_quiet.
  - destruct b; injection H as <-; now apply rises_quiet.
  - injection H as <-.
    apply rises_quiet, number_chars_quiet, TokenFacts.intstr_chars.
  - injection H as <-. destruct f as [| | |r]; try (now apply rises_quiet).
    cbn [floatstr]. cbn [float_wf] in W.
    now apply rises_quiet, number_chars_quiet, TokenFacts.float_literal_chars.
  - injection H as <-. apply rises_encoder.
Qed.

Lemma written_seq_cases g1 g2 :
  written (g1 ;> g2)
  = written g1 ++ match raised g1 with
                  | Some _ => []
                  | None => written g2
                  end.
Proof.
  destruct (raised g1) as [e|] eqn:H.
  - rewrite (seq_raised g1 g2 e H). now rewrite app_nil_r.
  - now apply written_seq.
Qed.

#[local] Arguments seq : simpl never.
#[local] Arguments yield : simpl never.

Lemma rises_separator lvl : rises (44 :: newline_indent lvl) 0%Z.
Proof.
  change (44 :: newline_indent lvl) with ([44] ++ newline_indent lvl).
  apply (rises_app _ _ 0 0); [now apply rises_quiet | apply rises_newline].
Qed.

(** The loop over the values of a list: once [buf] is written, nothing
    below its brackets is closed. *)
Lemma list_loop_brackets lvl vs :
  Forall brackets vs -> forallb wellformed vs = true ->
  forall buf b, rises buf b ->
  exists m,
    rises (written (list_loop iterencode lvl buf vs)) m /\
    match vs with
    | [] => m = 0%Z
    | _ => (b <= m)%Z /\ (forallb encodable vs = true -> m = b)
    end.
Proof.
  induction 1 as [|v vs Hv _ IH]; intros W buf b Hbuf.
  { exists 0%Z. split; [apply rises_nil | reflexivity]. }
  cbn [forallb] in W. both W Wv Ws.
  destruct (IH Ws (44 :: newline_indent lvl) 0%Z (rises_separator lvl))
    as (m' & Hm' & Hrest).
  assert (Hm0 : (0 <= m')%Z /\ (forallb encodable vs = true -> m' = 0%Z)).
  { destruct vs; [subst; split; [lia | reflexivity] | exact Hrest]. }
  destruct Hm0 as [Hpos Hzero]. clear Hrest.
  destruct (Hv Wv lvl) as (n & Hn & Hn0 & Hnok & _).
  cbn [list_loop]. rewrite written_seq_cases.
  destruct (atom v) as [t|] eqn:Ha.
  - rewrite written_yield. change (raised (yield (buf ++ t))) with (@None failure).
    exists (b + 0 + m')%Z. split.
    + apply rises_app; [|exact Hm'].
      apply rises_app; [exact Hbuf | now apply (rises_atom v)].
    + split; [lia|]. cbn [forallb]. intros He. both He He1 He2.
      rewrite (Hzero He2). lia.
  - rewrite written_seq by reflexivity. rewrite written_yield.
    rewrite raised_seq by reflexivity. rewrite raised_iterencode.
    destruct (encodable v) eqn:Ev; cbn [verdict].
    + rewrite (Hnok eq_refl) in Hn. exists (b + 0 + m')%Z. split.
      * apply rises_app; [|exact Hm']. now apply rises_app.
      * split; [lia|]. cbn [forallb]. rewrite Ev. cbn [andb]. intros He.
        rewrite (Hzero He). lia.
    + exists (b + n + 0)%Z. split.
      * apply rises_app; [|apply rises_nil]. now apply rises_app.
      * split; [lia|]. cbn [forallb]. rewrite Ev. discriminate.
Qed.

(** The loop over the items of a dictionary. *)
Lemma dict_loop_brackets lvl items :
  Forall (fun kv => brackets (snd kv)) items ->
  forallb (fun kv => key_wf (fst kv) && wellformed (snd kv)) items = true ->
  forall first, exists m,
    rises (written (dict_loop iterencode lvl first items)) m /\
    (0 <= m)%Z /\
    (forallb (fun kv => key_ok (fst kv) && encodable (snd kv)) items = true ->
     m = 0%Z).
Proof.
  induction 1 as [|[k v] items Hv _ IH]; intros W first.
  { exists 0%Z. split; [apply rises_nil|]. split; [lia | reflexivity]. }
  cbn [forallb fst snd] in W. both W W' Ws. both W' Wk Wv.
  destruct (IH Ws false) as (m' & Hm' & Hpos & Hzero).
  destruct (Hv Wv lvl) as (n & Hn & Hn0 & Hnok & _). cbn [snd] in *.
  cbn [dict_loop].
  destruct (key_text k) as [t|] eqn:Hk.
  2:{ exists 0%Z. split; [apply rises_nil|]. split; [lia | reflexivity]. }
  assert (Hval : (match atom v with
                  | Some t' => yield t'
                  | None => iterencode v lvl
                  end) = iterencode v lvl).
  { destruct (atom v) as [t'|] eqn:Ha; [|reflexivity].
    now rewrite (atom_iterencode v t' lvl Ha). }
  rewrite Hval.
  assert (Hsep : exists sep,
             (if first then stop else yield (44 :: newline_indent lvl)) = Gen sep None /\
             rises (concat sep) 0%Z).
  { destruct first.
    - exists []. split; [reflexivity | apply rises_nil].
    - exists [44 :: newline_indent lvl]. split; [reflexivity|].
      cbn [concat]. rewrite app_nil_r. apply rises_separator. }
  destruct Hsep as (sep & -> & Hsep).
  rewrite written_seq by reflexivity.
  rewrite written_seq by reflexivity. rewrite written_yield.
  rewrite written_seq by reflexivity. rewrite written_yield.
  rewrite written_seq_cases. rewrite raised_iterencode.
  change (written (Gen sep None)) with (concat sep).
  destruct (encodable v) eqn:Ev; cbn [verdict].
  - rewrite (Hnok eq_refl) in Hn. exists (0 + (0 + (0 + (0 + m'))))%Z.
    split; [|split; [lia|]].
    + apply rises_app; [exact Hsep|].
      apply rises_app; [apply rises_encoder|].
      apply rises_app; [now apply rises_quiet|].
      now apply rises_app.
    + cbn [forallb fst snd]. intros He. both He He1 He2.
      rewrite (Hzero He2). lia.
  - exists (0 + (0 + (0 + (n + 0))))%Z. split; [|split; [lia|]].
    + apply rises_app; [exact Hsep|].
      apply rises_app; [apply rises_encoder|].
      apply rises_app; [now apply rises_quiet|].
      apply rises_app; [exact Hn | apply rises_nil].
    + cbn [forallb fst snd]. rewrite Ev, andb_false_r. discriminate.
Qed.

Lemma rises_bracket c rest n :
  opening c = true -> rises rest n -> rises (c :: rest) (1 + n)%Z.
Proof.
  intros Hc H. change (c :: rest) with ([c] ++ rest).
  apply rises_app; [|exact H]. intros d. unfold opening in Hc.
  apply orb_true_iff in Hc as [Hc|Hc]; apply N.eqb_eq in Hc; now subst.
Qed.

Lemma rises_closed level c :
  closing c = true -> rises (newline_indent level ++ [c]) (-1)%Z.
Proof.
  intros Hc. apply (rises_app _ _ 0 (-1)); [apply rises_newline|].
  intros d. unfold closing in Hc.
  apply orb_true_iff in Hc as [Hc|Hc]; apply N.eqb_eq in Hc; now subst.
Qed.

Lemma rises_empty o c :
  opening o = true -> closing c = true -> rises [o; c] 0%Z.
Proof.
  intros Ho Hc. apply (rises_bracket o [c] (-1) Ho). intros d.
  unfold closing in Hc.
  apply orb_true_iff in Hc as [Hc|Hc]; apply N.eqb_eq in Hc; now subst.
Qed.

Lemma brackets_list lst :
  Forall brackets lst -> forallb wellformed lst = true ->
  forall level, exists n,
    rises (written (iterencode_list iterencode lst level)) n /\
    (0 <= n)%Z /\
    (forallb encodable lst = true -> n = 0%Z) /\
    (forallb encodable lst = false -> (1 <= n)%Z).
Proof.
  intros IH W level. destruct lst as [|v vs].
  { exists 0%Z. split; [now apply (rises_empty 91 93)|]. split; [lia|].
    split; [reflexivity | discriminate]. }
  destruct (list_loop_brackets (S level) (v :: vs) IH W
              (91 :: newline_indent (S level)) (1 + 0)%Z
              (rises_bracket 91 _ 0 eq_refl (rises_newline (S level))))
    as (m & Hm & Hb & Heq).
  unfold iterencode_list. rewrite written_seq_cases.
  rewrite raised_list_loop
    by (apply Forall_forall; intros x _; apply raised_iterencode).
  destruct (forallb encodable (v :: vs)) eqn:E; cbn [verdict].
  - rewrite written_seq by reflexivity. rewrite !written_yield.
    rewrite (Heq eq_refl) in Hm. exists (1 + 0 + -1)%Z.
    split; [|split; [lia|]; split; [reflexivity | discriminate]].
    apply rises_app; [exact Hm | now apply rises_closed].
  - exists (m + 0)%Z.
    split; [|split; [lia|]; split; [discriminate | lia]].
    apply rises_app; [exact Hm | apply rises_nil].
Qed.

(** The brackets of everything the encoder writes. *)
Lemma brackets_all v : brackets v.
Proof.
  induction v as [|b|n|f|s|lst IH|lst IH|dct IH|] using pyval_ind;
    intros W level.
  - exists 0%Z. repeat split; try lia; try discriminate. now apply rises_quiet.
  - exists 0%Z. repeat split; try lia; try discriminate.
    destruct b; now apply rises_quiet.
  - exists 0%Z. repeat split; try lia; try discriminate.
    cbn [iterencode atom]. rewrite written_yield.
    now apply (rises_atom (PyInt n)).
  - exists 0%Z. repeat split; try lia; try discriminate.
    cbn [iterencode atom]. rewrite written_yield.
    now apply (rises_atom (PyFloat f)).
  - exists 0%Z. repeat split; try lia; try discriminate.
    cbn [iterencode atom]. rewrite written_yield. apply rises_encoder.
  - destruct (brackets_list lst IH W level) as (n & Hn & H0 & Hok & Hbad).
    exists n. cbn [iterencode encodable]. auto.
  - destruct (brackets_list lst IH W level) as (n & Hn & H0 & Hok & Hbad).
    exists n. cbn [iterencode encodable]. auto.
  - cbn [wellformed] in W. cbn [iterencode encodable].
    destruct dct as [|kv items].
    { exists 0%Z. split; [now apply (rises_empty 123 125)|]. split; [lia|].
      split; [reflexivity | discriminate]. }
    destruct (dict_loop_brackets (S level) (kv :: items) IH W true)
      as (m & Hm & Hpos & Hzero).
    unfold iterencode_dict.
    rewrite written_seq by reflexivity. rewrite written_yield.
    rewrite written_seq by reflexivity. rewrite written_yield.
    rewrite written_seq_cases.
    rewrite raised_dict_loop
      by (apply Forall_forall; intros x _; apply raised_iterencode).
    destruct (forallb (fun kv => key_ok (fst kv) && encodable (snd kv))
                (kv :: items)) eqn:E; cbn [verdict].
    + rewrite written_seq by reflexivity. rewrite !written_yield.
      rewrite (Hzero eq_refl) in Hm. exists (1 + (0 + (0 + -1)))%Z.
      split; [|split; [lia|]; split; [reflexivity | discriminate]].
      apply (rises_bracket 123 _ (0 + (0 + -1))); [reflexivity|].
      apply rises_app; [apply rises_newline|].
      apply rises_app; [exact Hm | now apply rises_closed].
    + exists (1 + (0 + (m + 0)))%Z.
      split; [|split; [lia|]; split; [discriminate | lia]].
      apply (rises_bracket 123 _ (0 + (m + 0))); [reflexivity|].
      apply rises_app; [apply rises_newline|].
      apply rises_app; [exact Hm | apply rises_nil].
  - exists 0%Z. split; [apply rises_nil|]. split; [lia|].
    split; [reflexivity | contradiction].
Qed.

(** What is left of a dump that raised is not a JSON text. *)
Lemma failed_dump_unclosed data :
  wellformed (as_pyval data) = true -> encodable (as_pyval data) = false ->
  loads (written (iterencode (as_pyval data) 0)) = None.
Proof.
  intros W E.
  destruct (brackets_all (as_pyval data) W 0%nat) as (n & Hn & _ & _ & Hbad).
  assert (H1 : (1 <= n)%Z) by (apply Hbad; [exact E | discriminate]).
  destruct (loads (written (iterencode (as_pyval data) 0))) as [v|] eqn:Hl;
    [|reflexivity].
  apply loads_nesting in Hl. rewrite Hn in Hl. injection Hl as Hl. lia.
Qed.

End Nesting.

(** X10, a failed dump cannot be taken for a backup.  When the run ends
    with the encoder's error, the destination holds a text that is not
    JSON: the object opened on its first line is never closed, so no reader
    of JSON accepts the file. *)
Theorem failed_dump_not_json (db : store) (ks : list pystr) (w : world) :
  keys db = Some ks ->
  values_are wellformed db ks -> names_are codepoints ks ->
  snd (export_db db w) = inl SerializationError ->
  exists text,
    backup (fst (export_db db w)) = Some text /\ Json.loads text = None.
Proof.
  intros Hk Hvals Hnames Hfail.
  destruct (Outcome.run_cases db w)
    as [(e & Hb & Hrun) | [(data & Hb & Hw & Hrun) | (data & Hb & Hw & Hrun)]];
    rewrite Hrun in *; cbn [fst snd] in *.
  - destruct (Outcome.build_inl db e Hb) as [-> _]. discriminate.
  - discriminate.
  - pose proof (EncoderFacts.raised_iterencode (as_pyval data) 0) as Hr.
    destruct (encodable (as_pyval data)) eqn:E; rewrite Hr in *;
      cbn [verdict fst snd] in *; [discriminate|].
    exists (Encoder.written (Encoder.iterencode (as_pyval data) 0)).
    split; [apply Run.backup_dumped|].
    apply Nesting.failed_dump_unclosed; [|exact E].
    apply Script.wellformed_as_pyval.
    + exact (Script.build_names codepoints db ks data Hk Hb Hnames).
    + exact (Script.build_values wellformed db ks data Hk Hb Hvals).
Qed.

Lemma failed_dump_not_json_witness :
  exists text,
    backup (fst (export_db broken fresh)) = Some text /\
    Json.loads text = None.
Proof.
  apply (failed_dump_not_json broken [str "a"; str "b"] fresh).
  - reflexivity.
  - intros k v H Hget. among H; read_in Hget; vm_compute; reflexivity.
  - intros k H. among H; vm_compute; reflexivity.
  - vm_compute. reflexivity.
Defined.

(** ** The tokens of a text *)

Module Letters.
Import Encoder EncoderFacts Json.

Lemma bare_app a : forall m n b,
  bare m n (a ++ b) = bare (fst (bare m n a)) (snd (bare m n a)) b.
Proof.
  induction a as [|c a IH]; intros m n b; [reflexivity|].
  cbn [app bare]. destruct m.
  - destruct (c =? 34); [apply IH|]. destruct (foreign_letter c); apply IH.
  - destruct (c =? 92); [apply IH|]. destruct (c =? 34); apply IH.
  - apply IH.
Qed.

Lemma calm_step c n s :
  calm c = true -> bare Code n (c :: s) = bare Code n s.
Proof.
  unfold calm. intros H. apply negb_true_iff in H.
  apply orb_false_iff in H as [H34 Hf]. cbn [bare]. now rewrite H34, Hf.
Qed.

Lemma calm_bare t : forall n s,
  forallb calm t = true -> bare Code n (t ++ s) = bare Code n s.
Proof.
  induction t as [|c t IH]; intros n s H; [reflexivity|].
  cbn [forallb] in H. both H Hc Ht. cbn [app].
  rewrite calm_step by exact Hc. now apply IH.
Qed.

Lemma number_char_calm c : number_char c = true -> calm c = true.
Proof.
  unfold number_char, is_digit, calm, foreign_letter. intros H.
  assert (Hc : c = 43 \/ 45 <= c <= 46 \/ 48 <= c <= 57 \/ c = 69 \/ c = 101).
  { repeat (apply orb_true_iff in H as [H|H]);
      try (apply N.eqb_eq in H; lia).
    both H H1 H2. apply N.leb_le in H1, H2. lia. }
  apply negb_true_iff.
  repeat (apply orb_false_iff; split); apply N.eqb_neq; lia.
Qed.

Lemma number_chars_calm t :
  forallb number_char t = true -> forallb calm t = true.
Proof.
  induction t as [|c t IH]; [reflexivity|]. cbn [forallb]. intros H.
  both H Hc Ht. now rewrite (number_char_calm _ Hc), IH.
Qed.

(** What the reader passes over. *)
Lemma skip_ws_bare s : forall n, bare Code n (skip_ws s) = bare Code n s.
Proof.
  induction s as [|c s IH]; intros n; [reflexivity|].
  cbn [skip_ws]. destruct (is_ws c) eqn:Hc; [|reflexivity].
  rewrite IH. symmetry. apply calm_step.
  unfold is_ws in Hc. unfold calm, foreign_letter.
  repeat (apply orb_true_iff in Hc as [Hc|Hc]);
    apply N.eqb_eq in Hc; now subst.
Qed.

Lemma expect_calm t s r n :
  forallb calm t = true -> expect t s = Some r ->
  bare Code n s = bare Code n r.
Proof.
  intros Hq H. rewrite (Nesting.expect_app t s r H). now apply calm_bare.
Qed.

Lemma number_bare s v r n :
  number s = Some (v, r) -> bare Code n s = bare Code n r.
Proof.
  destruct s as [|c s]; cbn [number]; [discriminate|].
  destruct (c =? 45) eqn:Hc; intros H;
    destruct (TokenFacts.unsigned_split _ _ _ _ H) as (tok & E & D).
  - apply N.eqb_eq in Hc. subst c. rewrite calm_step by reflexivity.
    rewrite E. now apply calm_bare, number_chars_calm.
  - rewrite E. now apply calm_bare, number_chars_calm.
Qed.

Lemma hex_bare h x n s :
  hex_value h = Some x -> bare InString n (h :: s) = bare InString n s.
Proof.
  unfold hex_value, is_digit. intros H. cbn [bare].
  assert (Hh : h <> 92 /\ h <> 34).
  { split; intros ->; vm_compute in H; discriminate. }
  destruct Hh as [H92 H34]. apply N.eqb_neq in H92, H34.
  now rewrite H92, H34.
Qed.

Lemma hex4_bare h1 h2 h3 h4 x n s :
  hex4 h1 h2 h3 h4 = Some x ->
  bare InString n (h1 :: h2 :: h3 :: h4 :: s) = bare InString n s.
Proof.
  unfold hex4.
  destruct (hex_value h1) eqn:E1; [|discriminate].
  destruct (hex_value h2) eqn:E2; [|discriminate].
  destruct (hex_value h3) eqn:E3; [|discriminate].
  destruct (hex_value h4) eqn:E4; [|discriminate]. intros _.
  rewrite (hex_bare _ _ _ _ E1), (hex_bare _ _ _ _ E2).
  now rewrite (hex_bare _ _ _ _ E3), (hex_bare _ _ _ _ E4).
Qed.

Lemma string_body_bare k : forall s cs r n,
  (length s <= k)%nat -> string_body s = Some (cs, r) ->
  bare InString n s = bare Code n r.
Proof.
  induction k as [|k IH]; intros s cs r n Hlen H.
  { destruct s; [discriminate | simpl in Hlen; lia]. }
  destruct s as [|c s1]; [discriminate|].
  cbn [length] in Hlen. cbn [string_body] in H.
  destruct (c =? 34) eqn:H34.
  { injection H as <- <-. apply N.eqb_eq in H34. now subst c. }
  destruct (c =? 92) eqn:H92.
  2:{ destruct ((32 <=? c) && (c <=? 127)); [|discriminate].
      destruct (Nesting.push_inv _ _ _ _ H) as [cs' H'].
      cbn [bare]. rewrite H92, H34. apply (IH _ cs'); [lia | exact H']. }
  destruct s1 as [|e s2]; [discriminate|]. cbn [length] in Hlen.
  change (bare InString n (c :: e :: s2)) with
    (if c =? 92 then bare InString n s2
     else if c =? 34 then bare Code n (e :: s2)
     else bare InString n (e :: s2)).
  rewrite H92.
  destruct (e =? 117) eqn:H117.
  2:{ destruct (simple_escape e); [|discriminate].
      destruct (Nesting.push_inv _ _ _ _ H) as [cs' H'].
      apply (IH _ cs'); [lia | exact H']. }
  destruct s2 as [|h1 [|h2 [|h3 [|h4 s3]]]]; try discriminate.
  cbn [length] in Hlen.
  destruct (hex4 h1 h2 h3 h4) as [hi|] eqn:Hhi; [|discriminate].
  rewrite (hex4_bare _ _ _ _ _ _ _ Hhi).
  assert (Hsingle : forall cs0, push hi (string_body s3) = Some (cs0, r) ->
                    bare InString n s3 = bare Code n r).
  { intros cs0 H0. destruct (Nesting.push_inv _ _ _ _ H0) as [cs' H'].
    apply (IH _ cs'); [lia | exact H']. }
  destruct (is_high hi); [|now apply (Hsingle cs)].
  destruct s3 as [|b [|u [|l1 [|l2 [|l3 [|l4 s5]]]]]];
    try (now apply (Hsingle cs)).
  destruct ((b =? 92) && (u =? 117)) eqn:Hbu; [|now apply (Hsingle cs)].
  destruct (hex4 l1 l2 l3 l4) as [lo|] eqn:Hlo; [|now apply (Hsingle cs)].
  destruct (is_low lo); [|now apply (Hsingle cs)].
  destruct (Nesting.push_inv _ _ _ _ H) as [cs' H'].
  both Hbu Hb Hu. apply N.eqb_eq in Hb, Hu. subst b u.
  change (bare InString n (92 :: 117 :: ?x)) with (bare InString n x).
  rewrite (hex4_bare _ _ _ _ _ _ _ Hlo).
  apply (IH _ cs'); [cbn [length] in Hlen; lia | exact H'].
Qed.

Lemma string_bare s cs r n :
  string_body s = Some (cs, r) -> bare Code n (34 :: s) = bare Code n r.
Proof. intros H. now apply (string_body_bare (length s) s cs). Qed.

(** What the reader accepts has none of the letters outside its string
    literals. *)
Lemma value_bare fuel :
  (forall s v r, value fuel s = Some (v, r) ->
     forall n, bare Code n s = bare Code n r) /\
  (forall s vs r, elements fuel s = Some (vs, r) ->
     forall n, bare Code n s = bare Code n r) /\
  (forall s ms r, members fuel s = Some (ms, r) ->
     forall n, bare Code n s = bare Code n r).
Proof.
  induction fuel as [|fuel (IHv & IHe & IHm)];
    [repeat split; intros; discriminate|].
  split; [|split].
  - intros [|c s1] v r H n; [discriminate|]. rewrite RoundTrip.value_S in H.
    destruct (c =? 123) eqn:E1.
    { apply N.eqb_eq in E1. subst c. rewrite calm_step by reflexivity.
      rewrite <- (skip_ws_bare s1).
      destruct (expect [125] (skip_ws s1)) as [rest|] eqn:Hex.
      - injection H as <- <-. now apply (expect_calm [125]).
      - destruct (members fuel (skip_ws s1)) as [[ms rest]|] eqn:Hm;
          [|discriminate].
        injection H as <- <-. now apply (IHm _ ms). }
    destruct (c =? 91) eqn:E2.
    { apply N.eqb_eq in E2. subst c. rewrite calm_step by reflexivity.
      rewrite <- (skip_ws_bare s1).
      destruct (expect [93] (skip_ws s1)) as [rest|] eqn:Hex.
      - injection H as <- <-. now apply (expect_calm [93]).
      - destruct (elements fuel (skip_ws s1)) as [[vs rest]|] eqn:He;
          [|discriminate].
        injection H as <- <-. now apply (IHe _ vs). }
    destruct (c =? 34) eqn:E3.
    { apply N.eqb_eq in E3. subst c.
      destruct (string_body s1) as [[cs rest]|] eqn:Hs; [|discriminate].
      injection H as <- <-. now apply (string_bare s1 cs). }
    destruct (c =? 110) eqn:E4.
    { apply N.eqb_eq in E4. subst c.
      destruct (expect (str "ull") s1) as [rest|] eqn:Hex; [|discriminate].
      injection H as <- <-. rewrite calm_step by reflexivity.
      now apply (expect_calm (str "ull")). }
    destruct (c =? 116) eqn:E5.
    { apply N.eqb_eq in E5. subst c.
      destruct (expect (str "rue") s1) as [rest|] eqn:Hex; [|discriminate].
      injection H as <- <-. rewrite calm_step by reflexivity.
      now apply (expect_calm (str "rue")). }
    destruct (c =? 102) eqn:E6.
    { apply N.eqb_eq in E6. subst c.
      destruct (expect (str "alse") s1) as [rest|] eqn:Hex; [|discriminate].
      injection H as <- <-. rewrite calm_step by reflexivity.
      now apply (expect_calm (str "alse")). }
    now apply (number_bare _ v).
  - intros s vs r H n. rewrite RoundTrip.elements_S in H.
    destruct (value fuel s) as [[v s1]|] eqn:Hv; [|discriminate].
    rewrite (IHv _ _ _ Hv). rewrite <- (skip_ws_bare s1).
    destruct (skip_ws s1) as [|c s2]; [discriminate|].
    destruct (c =? 93) eqn:E1.
    { apply N.eqb_eq in E1. subst c. injection H as <- <-.
      now apply calm_step. }
    destruct (c =? 44) eqn:E2; [|discriminate].
    apply N.eqb_eq in E2. subst c. rewrite calm_step by reflexivity.
    rewrite <- (skip_ws_bare s2).
    destruct (elements fuel (skip_ws s2)) as [[vs' rest]|] eqn:He;
      [|discriminate].
    injection H as <- <-. now apply (IHe _ vs').
  - intros s ms r H n. rewrite RoundTrip.members_S in H.
    destruct (expect [34] s) as [s1|] eqn:Hq; [|discriminate].
    rewrite (Nesting.expect_app _ _ _ Hq). cbn [app].
    destruct (string_body s1) as [[k s2]|] eqn:Hk; [|discriminate].
    rewrite (string_bare s1 k s2 n Hk). rewrite <- (skip_ws_bare s2).
    destruct (expect [58] (skip_ws s2)) as [s3|] eqn:Hc; [|discriminate].
    rewrite (expect_calm [58] _ _ n eq_refl Hc).
    rewrite <- (skip_ws_bare s3).
    destruct (value fuel (skip_ws s3)) as [[v s4]|] eqn:Hv; [|discriminate].
    rewrite (IHv _ _ _ Hv). rewrite <- (skip_ws_bare s4).
    destruct (skip_ws s4) as [|c s5]; [discriminate|].
    destruct (c =? 125) eqn:E1.
    { apply N.eqb_eq in E1. subst c. injection H as <- <-.
      now apply calm_step. }
    destruct (c =? 44) eqn:E2; [|discriminate].
    apply N.eqb_eq in E2. subst c. rewrite calm_step by reflexivity.
    rewrite <- (skip_ws_bare s5).
    destruct (members fuel (skip_ws s5)) as [[ms' rest]|] eqn:Hm;
      [|discriminate].
    injection H as <- <-. now apply (IHm _ ms').
Qed.

Lemma loads_bare s v : loads s = Some v -> bare Code 0 s = (Code, 0%nat).
Proof.
  unfold loads. intros H. rewrite <- (skip_ws_bare s).
  destruct (value (S (length s)) (skip_ws s)) as [[v' rest]|] eqn:Hv;
    [|discriminate].
  destruct (value_bare (S (length s))) as (IHv & _).
  rewrite (IHv _ _ _ Hv). rewrite <- (skip_ws_bare rest).
  now destruct (skip_ws rest).
Qed.

(** What the encoder writes, token by token. *)
Lemma holds_nil : holds [] 0.
Proof. intros n. cbn [bare]. f_equal. lia. Qed.

Lemma holds_app a b n m : holds a n -> holds b m -> holds (a ++ b) (n + m).
Proof.
  intros Ha Hb k. rewrite bare_app, Ha. cbn [fst snd]. rewrite Hb.
  f_equal. lia.
Qed.

Lemma holds_calm t : forallb calm t = true -> holds t 0.
Proof.
  intros H n. rewrite <- (app_nil_r t). rewrite calm_bare by exact H.
  apply holds_nil.
Qed.

Lemma holds_newline level : holds (newline_indent level) 0.
Proof.
  apply holds_calm. unfold newline_indent. cbn [forallb].
  generalize (4 * level)%nat. intros k. induction k; [reflexivity | exact IHk].
Qed.

Lemma holds_separator lvl : holds (44 :: newline_indent lvl) 0.
Proof.
  change (44 :: newline_indent lvl) with ([44] ++ newline_indent lvl).
  apply (holds_app _ _ 0 0); [now apply holds_calm | apply holds_newline].
Qed.

Lemma holds_cons c rest n :
  calm c = true -> holds rest n -> holds (c :: rest) n.
Proof.
  intros Hc H. change (c :: rest) with ([c] ++ rest).
  apply (holds_app _ _ 0 n); [|exact H].
  apply holds_calm. cbn [forallb]. now rewrite Hc.
Qed.

Lemma hexdigit_bare c n s :
  bare InString n (hexdigit c :: s) = bare InString n s.
Proof.
  cbn [bare]. unfold hexdigit.
  destruct (c <? 10) eqn:Hc.
  - apply N.ltb_lt in Hc.
    replace (48 + c =? 92) with false by (symmetry; apply N.eqb_neq; lia).
    replace (48 + c =? 34) with false by (symmetry; apply N.eqb_neq; lia).
    reflexivity.
  - apply N.ltb_ge in Hc.
    replace (87 + c =? 92) with false by (symmetry; apply N.eqb_neq; lia).
    replace (87 + c =? 34) with false by (symmetry; apply N.eqb_neq; lia).
    reflexivity.
Qed.

Lemma u_escape_bare x n s :
  bare InString n (u_escape x ++ s) = bare InString n s.
Proof.
  unfold u_escape, format_04x. cbn [app].
  change (bare InString n (92 :: 117 :: ?y)) with (bare InString n y).
  now rewrite !hexdigit_bare.
Qed.

Lemma escape_char_bare c n s :
  bare InString n (escape_char c ++ s) = bare InString n s.
Proof.
  unfold escape_char. destruct (ESCAPE_ASCII c) eqn:He.
  - unfold replace, ESCAPE_DCT.
    repeat match goal with
           | |- context [if ?b then _ else _] => destruct b
           end; try reflexivity; try apply u_escape_bare.
    now rewrite <- app_assoc, !u_escape_bare.
  - unfold ESCAPE_ASCII in He. apply orb_false_iff in He as [He _].
    apply orb_false_iff in He as [H1 H2].
    cbn [app bare]. now rewrite H1, H2.
Qed.

Lemma holds_encoder s : holds (encoder s) 0.
Proof.
  intros n. unfold encoder.
  change (bare Code n (34 :: ?x)) with (bare InString n x).
  replace (n + 0)%nat with n by lia.
  induction s as [|c s IH]; [reflexivity|].
  cbn [flat_map]. rewrite <- app_assoc. now rewrite escape_char_bare.
Qed.

#[local] Arguments seq : simpl never.
#[local] Arguments yield : simpl never.

Lemma tokens_of_atom v t :
  atom v = Some t -> tokens_of v.
Proof.
  intros Ha W _ level. rewrite (atom_iterencode v t level Ha), written_yield.
  destruct v as [|b|n|f|s|lst|lst|dct|]; cbn [atom wellformed] in *;
    try discriminate.
  - injection Ha as <-. exists 0%nat.
    split; [now apply holds_calm | split; [reflexivity | discriminate]].
  - exists 0%nat. split; [|split; [reflexivity | discriminate]].
    destruct b; injection Ha as <-; now apply holds_calm.
  - injection Ha as <-. exists 0%nat.
    split; [|split; [reflexivity | discriminate]].
    apply holds_calm, number_chars_calm, TokenFacts.intstr_chars.
  - injection Ha as <-. destruct f as [| | |r]; cbn [floatstr finite_floats].
    + exists 2%nat. split; [intros n; cbn; f_equal; lia|].
      split; [discriminate | lia].
    + exists 1%nat. split; [intros n; cbn; f_equal; lia|].
      split; [discriminate | lia].
    + exists 1%nat. split; [intros n; cbn; f_equal; lia|].
      split; [discriminate | lia].
    + exists 0%nat. split; [|split; [reflexivity | discriminate]].
      cbn [float_wf] in W.
      now apply holds_calm, number_chars_calm, TokenFacts.float_literal_chars.
  - injection Ha as <-. exists 0%nat.
    split; [apply holds_encoder | split; [reflexivity | discriminate]].
Qed.

Lemma list_loop_tokens lvl vs :
  Forall tokens_of vs ->
  forallb wellformed vs = true -> forallb encodable vs = true ->
  forall buf, holds buf 0 ->
  exists m,
    holds (written (list_loop iterencode lvl buf vs)) m /\
    (forallb finite_floats vs = true -> m = 0%nat) /\
    (forallb finite_floats vs = false -> (1 <= m)%nat).
Proof.
  induction 1 as [|v vs Hv _ IH]; intros W E buf Hbuf.
  { exists 0%nat. split; [apply holds_nil|]. split; [reflexivity | discriminate]. }
  cbn [forallb] in W, E. both W Wv Ws. both E Ev Es.
  destruct (IH Ws Es (44 :: newline_indent lvl) (holds_separator lvl))
    as (m' & Hm' & Hfin' & Hnot').
  destruct (Hv Wv Ev lvl) as (n & Hn & Hfin & Hnot).
  rewrite EncodedText.written_list_loop_cons by exact Ev.
  exists (0 + (n + m'))%nat. split.
  - apply holds_app; [exact Hbuf|]. now apply holds_app.
  - cbn [forallb].
    destruct (finite_floats v); destruct (forallb finite_floats vs);
      cbn [andb]; (split; [intros He | intros He]);
      try discriminate;
      try (rewrite (Hfin eq_refl)); try (rewrite (Hfin' eq_refl));
      try (pose proof (Hnot eq_refl)); try (pose proof (Hnot' eq_refl)); lia.
Qed.

Lemma dict_loop_tokens lvl items :
  Forall (fun kv => tokens_of (snd kv)) items ->
  forallb (fun kv => key_wf (fst kv) && wellformed (snd kv)) items = true ->
  forallb (fun kv => key_ok (fst kv) && encodable (snd kv)) items = true ->
  forall first, exists m,
    holds (written (dict_loop iterencode lvl first items)) m /\
    (forallb (fun kv => finite_floats (snd kv)) items = true -> m = 0%nat) /\
    (forallb (fun kv => finite_floats (snd kv)) items = false ->
     (1 <= m)%nat).
Proof.
  induction 1 as [|[k v] items Hv _ IH]; intros W E first.
  { exists 0%nat. split; [apply holds_nil|]. split; [reflexivity | discriminate]. }
  cbn [forallb fst snd] in W, E.
  both W W' Ws. both W' Wk Wv. both E E' Es. both E' Ek Ev.
  destruct (IH Ws Es false) as (m' & Hm' & Hfin' & Hnot').
  destruct (Hv Wv Ev lvl) as (n & Hn & Hfin & Hnot). cbn [snd] in *.
  destruct (key_text_ok _ Ek) as [t Ht].
  rewrite (EncodedText.written_dict_loop_cons _ _ _ t) by assumption.
  exists (0 + (0 + (n + m')))%nat. split.
  - apply holds_app; [destruct first; [apply holds_nil | apply holds_separator]|].
    apply holds_app; [apply holds_encoder|].
    apply holds_cons; [reflexivity|]. apply holds_cons; [reflexivity|].
    now apply holds_app.
  - cbn [forallb snd].
    destruct (finite_floats v);
      destruct (forallb (fun kv => finite_floats (snd kv)) items);
      cbn [andb]; (split; [intros He | intros He]);
      try discriminate;
      try (rewrite (Hfin eq_refl)); try (rewrite (Hfin' eq_refl));
      try (pose proof (Hnot eq_refl)); try (pose proof (Hnot' eq_refl)); lia.
Qed.

Lemma tokens_list lst :
  Forall tokens_of lst -> tokens_of (PyList lst).
Proof.
  intros IH W E level. cbn [wellformed encodable finite_floats] in *.
  destruct lst as [|v vs].
  { exists 0%nat. cbn [iterencode iterencode_list]. rewrite written_yield.
    split; [now apply holds_calm|]. split; [reflexivity | discriminate]. }
  rewrite (EncodedText.written_list (v :: vs) level E) by discriminate.
  destruct (list_loop_tokens (S level) (v :: vs) IH W E
              (91 :: newline_indent (S level))
              (holds_cons 91 _ 0 eq_refl (holds_newline (S level))))
    as (m & Hm & Hfin & Hnot).
  exists (m + (0 + 0))%nat. split.
  - apply holds_app; [exact Hm|].
    apply holds_app; [apply holds_newline | now apply holds_calm].
  - split; intros He; [rewrite (Hfin He); lia | pose proof (Hnot He); lia].
Qed.

(** The tokens of everything the encoder writes to its end. *)
Lemma tokens_all v : tokens_of v.
Proof.
  induction v as [|b|n|f|s|lst IH|lst IH|dct IH|] using pyval_ind.
  - now apply (tokens_of_atom PyNone (str "null")).
  - destruct b; [now apply (tokens_of_atom _ (str "true"))
                | now apply (tokens_of_atom _ (str "false"))].
  - now apply (tokens_of_atom _ (intstr n)).
  - now apply (tokens_of_atom _ (floatstr f)).
  - now apply (tokens_of_atom _ (encoder s)).
  - now apply tokens_list.
  - intros W E level. rewrite EncodedText.iterencode_tuple.
    now apply (tokens_list lst IH W E level).
  - intros W E level. cbn [wellformed finite_floats] in *.
    destruct dct as [|kv items].
    { exists 0%nat. cbn [iterencode iterencode_dict]. rewrite written_yield.
      split; [now apply holds_calm|]. split; [reflexivity | discriminate]. }
    rewrite (EncodedText.written_dict (kv :: items) level E) by discriminate.
    cbn [encodable] in E.
    destruct (dict_loop_tokens (S level) (kv :: items) IH W E true)
      as (m & Hm & Hfin & Hnot).
    exists (0 + (m + (0 + 0)))%nat. split.
    + apply holds_cons; [reflexivity|].
      apply holds_app; [apply holds_newline|].
      apply holds_app; [exact Hm|].
      apply holds_app; [apply holds_newline | now apply holds_calm].
    + split; intros He; [rewrite (Hfin He); lia | pose proof (Hnot He); lia].
  - intros _ E. discriminate.
Qed.

(** A dump that holds a float that is not finite is not a JSON text. *)
Lemma nonfinite_dump v :
  wellformed v = true -> encodable v = true -> finite_floats v = false ->
  loads (written (iterencode v 0)) = None.
Proof.
  intros W E F.
  destruct (tokens_all v W E 0%nat) as (n & Hn & _ & Hnot).
  pose proof (Hnot F) as H1.
  destruct (loads (written (iterencode v 0))) as [v'|] eqn:Hl;
    [|reflexivity].
  apply loads_bare in Hl. rewrite Hn in Hl. injection Hl as Hl. lia.
Qed.

End Letters.

(** X11, when the backup is JSON.  After a successful run, the text in the
    destination is a JSON text exactly when no value read from the store
    holds a float that is not finite: with the defaults of [json.dump] a
    single [nan] or infinity anywhere among the values makes the whole file
    one that a reader of JSON rejects. *)
Theorem backup_is_json_iff (db : store) (ks : list pystr) (w : world) :
  keys db = Some ks ->
  values_are wellformed db ks -> names_are codepoints ks ->
  snd (export_db db w) = inr tt ->
  exists text,
    backup (fst (export_db db w)) = Some text /\
    (is_Some (Json.loads text) <-> values_are finite_floats db ks).
Proof.
  intros Hk Hvals Hnames Hok.
  destruct (Script.success_inv db w Hok) as (data & Hb & Hw & He & Hrun).
  exists (Encoder.written (Encoder.iterencode (as_pyval data) 0)).
  split.
  { rewrite Hrun. cbn [fst]. now rewrite Run.backup_printed, Run.backup_dumped. }
  assert (W : wellformed (as_pyval data) = true).
  { apply Script.wellformed_as_pyval.
    - exact (Script.build_names codepoints db ks data Hk Hb Hnames).
    - exact (Script.build_values wellformed db ks data Hk Hb Hvals). }
  split.
  - intros [v' Hl] k v Hin Hget.
    destruct (finite_floats v) eqn:F; [reflexivity|]. exfalso.
    assert (Hnot : finite_floats (as_pyval data) = false).
    { destruct (finite_floats (as_pyval data)) eqn:Hall; [|reflexivity].
      unfold as_pyval in Hall. cbn [finite_floats] in Hall.
      rewrite forallb_forall in Hall.
      pose proof (Script.build_lookup db ks data k Hk Hb Hin) as Hl'.
      rewrite Hget in Hl'. apply RunFacts.lookup_key_In in Hl'.
      specialize (Hall (KStr k, v)). cbn [snd] in Hall.
      rewrite <- F. symmetry. apply Hall.
      apply (in_map (fun kv => (KStr (fst kv), snd kv)) data (k, v) Hl'). }
    rewrite (Letters.nonfinite_dump _ W He Hnot) in Hl. discriminate.
  - intros Hfin.
    assert (J : jsonable (as_pyval data) = true).
    { unfold jsonable. rewrite W, He. cbn [andb].
      apply Script.finite_floats_as_pyval.
      exact (Script.build_values finite_floats db ks data Hk Hb Hfin). }
    rewrite (RoundTrip.loads_written _ J). now eexists.
Qed.

(** A store with a [nan], exported with success: the file is not JSON. *)
Lemma backup_is_json_iff_witness :
  exists text,
    backup (fst (export_db not_a_number fresh)) = Some text /\
    Json.loads text = None.
Proof.
  destruct (backup_is_json_iff not_a_number [str "x"] fresh)
    as (text & Hfile & Hjson).
  - reflexivity.
  - intros k v H Hget. among H; read_in Hget; vm_compute; reflexivity.
  - intros k H. among H; vm_compute; reflexivity.
  - vm_compute. reflexivity.
  - exists text. split; [exact Hfile|].
    destruct (Json.loads text) as [v|] eqn:Hl; [|reflexivity]. exfalso.
    assert (Hsome : is_Some (Some v)) by now eexists.
    apply Hjson in Hsome.
    specialize (Hsome (str "x") (PyFloat nan) (list_elem_of_here _ _) eq_refl).
    discriminate.
Defined.
